(** * webview.h: the JSON scanner, the string codecs and the RPC bridge

    A shallow embedding of the platform-independent core of [webview.h]:
    [hex2nibble], [hex2char], [url_encode], [url_decode], [html_from_uri],
    [json_parse_c], [json_escape], [json_unescape], [json_parse] and the
    members [navigate], [bind], [resolve] and [on_message] of class
    [webview::webview].

    Conventions.
    - A [std::string] is a Rocq [string]; a [const char *] points into a
      [buffer] (a list of bytes) and is an offset of type [Z] into it.
      [c_str] appends the terminating NUL byte.
    - A read outside the buffer has no defined result: the model returns
      [None] there, and nowhere else (the loops carry fuel, which the
      theorems show to be sufficient).
    - [int] wraps at 32 bits ([int32]), [size_t] at 64 bits ([size_t]). *)

From Stdlib Require Import ZArith Ascii String List Lia Bool.
From stdpp Require Import base option list strings gmap.

Local Open Scope string_scope.
Local Open Scope Z_scope.
Local Open Scope list_scope.

(** ** Bytes, buffers and machine integers *)

Abbreviation buffer := (list ascii).

Definition ord (a : ascii) : Z := Z.of_N (N_of_ascii a).
Arguments ord a%_char.

Definition DQUOTE : ascii := "034"%char.
Definition BACKSLASH : ascii := "092"%char.
Definition NUL : ascii := "000"%char.

Definition bytes (s : string) : buffer := list_ascii_of_string s.
Definition std_string (b : buffer) : string := string_of_list_ascii b.

(** [s.c_str()]: the bytes of [s] followed by the terminator. *)
Definition c_str (s : string) : buffer := bytes s ++ [NUL].

(** [s.length()] *)
Definition len (s : string) : Z := Z.of_nat (String.length s).

(** [m[p]] *)
Definition read (m : buffer) (p : Z) : option ascii :=
  if p <? 0 then None else m !! Z.to_nat p.

(** The [n] bytes at [m + p]. *)
Definition read_n (m : buffer) (p n : Z) : option buffer :=
  if (p <? 0) || (n <? 0) || (Z.of_nat (length m) <? p + n) then None
  else Some (take (Z.to_nat n) (drop (Z.to_nat p) m)).

(** [memcmp(a, b + pb, n) == 0] *)
Definition memcmp_eq (a b : buffer) (pb n : Z) : option bool :=
  x ← read_n a 0 n; y ← read_n b pb n; Some (bool_decide (x = y)).

Definition int32 (z : Z) : Z := (z + 2 ^ 31) mod 2 ^ 32 - 2 ^ 31.
Definition size_t (z : Z) : Z := z mod 2 ^ 64.

(** Writing a quotation mark inside a literal: [json_text] turns every
    apostrophe into a quotation mark. *)
Fixpoint json_text (s : string) : string :=
  match s with
  | EmptyString => EmptyString
  | String a t =>
      String (if Ascii.eqb a "'"%char then DQUOTE else a) (json_text t)
  end.

(** ** [json_parse_c] *)

Inductive json_state :=
| JSON_STATE_VALUE
| JSON_STATE_LITERAL
| JSON_STATE_STRING
| JSON_STATE_ESCAPE
| JSON_STATE_UTF8.

Inductive json_action :=
| JSON_ACTION_NONE
| JSON_ACTION_START
| JSON_ACTION_END
| JSON_ACTION_START_STRUCT
| JSON_ACTION_END_STRUCT.

(** The local variables of [json_parse_c], with [*value]. [l_s] is the
    offset of the pointer [s] from the start of the buffer; [l_sz] never
    leaves the range of [size_t] (it is bounded by its initial value). *)
Record locals := Locals {
  l_s : Z;
  l_sz : Z;
  l_state : json_state;
  l_k : option Z;
  l_index : Z;
  l_depth : Z;
  l_utf8_bytes : Z;
  l_value : option Z;
  l_keysz : Z
}.

Definition set_s (x : Z) (l : locals) : locals :=
  Locals x (l_sz l) (l_state l) (l_k l) (l_index l) (l_depth l)
    (l_utf8_bytes l) (l_value l) (l_keysz l).
Definition set_sz (x : Z) (l : locals) : locals :=
  Locals (l_s l) x (l_state l) (l_k l) (l_index l) (l_depth l)
    (l_utf8_bytes l) (l_value l) (l_keysz l).
Definition set_state (x : json_state) (l : locals) : locals :=
  Locals (l_s l) (l_sz l) x (l_k l) (l_index l) (l_depth l)
    (l_utf8_bytes l) (l_value l) (l_keysz l).
Definition set_k (x : option Z) (l : locals) : locals :=
  Locals (l_s l) (l_sz l) (l_state l) x (l_index l) (l_depth l)
    (l_utf8_bytes l) (l_value l) (l_keysz l).
Definition set_index (x : Z) (l : locals) : locals :=
  Locals (l_s l) (l_sz l) (l_state l) (l_k l) x (l_depth l)
    (l_utf8_bytes l) (l_value l) (l_keysz l).
Definition set_depth (x : Z) (l : locals) : locals :=
  Locals (l_s l) (l_sz l) (l_state l) (l_k l) (l_index l) x
    (l_utf8_bytes l) (l_value l) (l_keysz l).
Definition set_utf8_bytes (x : Z) (l : locals) : locals :=
  Locals (l_s l) (l_sz l) (l_state l) (l_k l) (l_index l) (l_depth l)
    x (l_value l) (l_keysz l).
Definition set_value (x : option Z) (l : locals) : locals :=
  Locals (l_s l) (l_sz l) (l_state l) (l_k l) (l_index l) (l_depth l)
    (l_utf8_bytes l) x (l_keysz l).

(** How the [switch (state)] statement is left. *)
Inductive switch_exit :=
| Continue
| Return (code : Z)
| Break (action : json_action) (l : locals).

(** What [json_parse_c] hands back: the return code, [*value], [*valuesz]. *)
Record parse_result := ParseResult {
  r_code : Z;
  r_value : option Z;
  r_valuesz : Z
}.

(** The body of [case JSON_STATE_STRING], which [case JSON_STATE_LITERAL]
    falls through to. *)
Definition case_string (c : Z) (action : json_action) (l : locals)
  : switch_exit :=
  if (c <? 32) || ((126 <? c) && (c <? 192)) then Return (-1)
  else if c =? ord DQUOTE then
    Break JSON_ACTION_END (set_state JSON_STATE_VALUE l)
  else if c =? ord BACKSLASH then
    Break action (set_state JSON_STATE_ESCAPE l)
  else if (192 <=? c) && (c <? 224) then
    Break action (set_state JSON_STATE_UTF8 (set_utf8_bytes 1 l))
  else if (224 <=? c) && (c <? 240) then
    Break action (set_state JSON_STATE_UTF8 (set_utf8_bytes 2 l))
  else if (240 <=? c) && (c <? 247) then
    Break action (set_state JSON_STATE_UTF8 (set_utf8_bytes 3 l))
  else if (128 <=? c) && (c <? 192) then Return (-1)
  else Break action l.

Definition is_space (c : Z) : bool :=
  (c =? ord " ") || (c =? 9) || (c =? 10) || (c =? 13).

Definition json_switch (c : Z) (l : locals) : switch_exit :=
  match l_state l with
  | JSON_STATE_VALUE =>
      if is_space c || (c =? ord ",") || (c =? ord ":") then Continue
      else if c =? ord DQUOTE then
        Break JSON_ACTION_START (set_state JSON_STATE_STRING l)
      else if (c =? ord "{") || (c =? ord "[") then
        Break JSON_ACTION_START_STRUCT l
      else if (c =? ord "}") || (c =? ord "]") then
        Break JSON_ACTION_END_STRUCT l
      else if (c =? ord "t") || (c =? ord "f") || (c =? ord "n")
              || (c =? ord "-") || ((ord "0" <=? c) && (c <=? ord "9")) then
        Break JSON_ACTION_START (set_state JSON_STATE_LITERAL l)
      else Return (-1)
  | JSON_STATE_LITERAL =>
      if is_space c || (c =? ord ",") || (c =? ord "]") || (c =? ord "}")
         || (c =? ord ":") then
        case_string c JSON_ACTION_END
          (set_sz (l_sz l + 1) (set_s (l_s l - 1)
             (set_state JSON_STATE_VALUE l)))
      else if (c <? 32) || (126 <? c) then Return (-1)
      else case_string c JSON_ACTION_NONE l
  | JSON_STATE_STRING => case_string c JSON_ACTION_NONE l
  | JSON_STATE_ESCAPE =>
      if (c =? ord DQUOTE) || (c =? ord BACKSLASH) || (c =? ord "/")
         || (c =? ord "b") || (c =? ord "f") || (c =? ord "n")
         || (c =? ord "r") || (c =? ord "t") || (c =? ord "u") then
        Break JSON_ACTION_NONE (set_state JSON_STATE_STRING l)
      else Return (-1)
  | JSON_STATE_UTF8 =>
      if (c <? 128) || (191 <? c) then Return (-1)
      else
        let l1 := set_utf8_bytes (int32 (l_utf8_bytes l - 1)) l in
        Break JSON_ACTION_NONE
          (if l_utf8_bytes l1 =? 0 then set_state JSON_STATE_STRING l1
           else l1)
  end.

Definition is_start (a : json_action) : bool :=
  match a with
  | JSON_ACTION_START | JSON_ACTION_START_STRUCT => true
  | _ => false
  end.

Definition is_end (a : json_action) : bool :=
  match a with
  | JSON_ACTION_END | JSON_ACTION_END_STRUCT => true
  | _ => false
  end.

(** [keysz == (size_t)(s - k - 1) && memcmp(key, k + 1, keysz) == 0] *)
Definition key_matches (m : buffer) (key : option buffer) (l : locals)
    (kp : Z) : option bool :=
  if l_keysz l =? size_t (l_s l - kp - 1) then
    kb ← key; memcmp_eq kb m (kp + 1) (l_keysz l)
  else Some false.

(** The [if (depth == 1)] block. *)
Definition at_depth_one (m : buffer) (key : option buffer)
    (action : json_action) (l : locals) : option (locals + parse_result) :=
  if is_start action then
    Some (inl (if l_index l =? 0 then set_value (Some (l_s l)) l
               else if (0 <? l_keysz l) && (l_index l =? 1) then
                 set_k (Some (l_s l)) l
               else set_index (int32 (l_index l - 1)) l))
  else if is_end action then
    match l_value l, l_index l =? 0 with
    | Some v, true =>
        Some (inr (ParseResult 0 (Some v) (size_t (l_s l + 1 - v))))
    | _, _ =>
        match l_k l, 0 <? l_keysz l with
        | Some kp, true =>
            b ← key_matches m key l kp;
            Some (inl (set_k None (set_index (if b : bool then 0 else 2) l)))
        | _, _ => Some (inl l)
        end
    end
  else Some (inl l).

(** The part of the loop body after the [switch]. *)
Definition after_switch (m : buffer) (key : option buffer)
    (action : json_action) (l : locals) : option (locals + parse_result) :=
  let l1 :=
    match action with
    | JSON_ACTION_END_STRUCT => set_depth (int32 (l_depth l - 1)) l
    | _ => l
    end in
  r ← (if l_depth l1 =? 1 then at_depth_one m key action l1
       else Some (inl l1));
  match r with
  | inr res => Some (inr res)
  | inl l2 =>
      Some (inl match action with
                | JSON_ACTION_START_STRUCT =>
                    set_depth (int32 (l_depth l2 + 1)) l2
                | _ => l2
                end)
  end.

(** [s++, sz--] *)
Definition advance (l : locals) : locals :=
  set_sz (l_sz l - 1) (set_s (l_s l + 1) l).

(** One turn of the [for] loop, entered with [sz > 0]. *)
Definition json_iter (m : buffer) (key : option buffer) (l : locals)
  : option (locals + parse_result) :=
  a ← read m (l_s l);
  match json_switch (ord a) l with
  | Continue => Some (inl (advance l))
  | Return code => Some (inr (ParseResult code (l_value l) 0))
  | Break action l1 =>
      r ← after_switch m key action l1;
      match r with
      | inl l2 => Some (inl (advance l2))
      | inr res => Some (inr res)
      end
  end.

Fixpoint json_loop (fuel : nat) (m : buffer) (key : option buffer)
    (l : locals) : option parse_result :=
  match fuel with
  | O => None
  | S fuel =>
      if 0 <? l_sz l then
        r ← json_iter m key l;
        match r with
        | inl l1 => json_loop fuel m key l1
        | inr res => Some res
        end
      else Some (ParseResult (-1) (l_value l) 0)
  end.

(** The locals on entry to the loop. *)
Definition json_init (sz : Z) (key : option buffer) (keysz : Z) : locals :=
  match key with
  | None => Locals 0 sz JSON_STATE_VALUE None (int32 keysz) 0 0 None 0
  | Some _ => Locals 0 sz JSON_STATE_VALUE None 1 0 0 None keysz
  end.

(** A turn either shortens the rest of the buffer or leaves the literal
    state without moving: [2 * sz + 1] turns always suffice. *)
Definition json_fuel (sz : Z) : nat := S (Z.to_nat (2 * sz + 1)).

Definition json_parse_c (m : buffer) (sz : Z) (key : option buffer)
    (keysz : Z) : option parse_result :=
  json_loop (json_fuel sz) m key (json_init sz key keysz).

(** ** [json_escape], [json_unescape], [json_parse] *)

(** [return '"' + s + '"';] under its [// TODO: implement]. *)
Definition json_escape (s : string) : string :=
  String DQUOTE s +:+ String DQUOTE EmptyString.

(** The [switch] on the escaped byte in [json_unescape]; [None] is its
    [default]. *)
Definition unescape_char (a : ascii) : option ascii :=
  if Ascii.eqb a "b" then Some "008"%char
  else if Ascii.eqb a "f" then Some "012"%char
  else if Ascii.eqb a "n" then Some "010"%char
  else if Ascii.eqb a "r" then Some "013"%char
  else if Ascii.eqb a "t" then Some "009"%char
  else if Ascii.eqb a BACKSLASH then Some BACKSLASH
  else if Ascii.eqb a "/" then Some "/"%char
  else if Ascii.eqb a DQUOTE then Some DQUOTE
  else None.

(** What [json_unescape] hands back: its return value and the bytes it
    stored through [out] (none when [out] is [NULL]). *)
Record unescape_result := UnescapeResult {
  u_code : Z;
  u_out : buffer
}.

Definition store (out : bool) (written : buffer) (a : ascii) : buffer :=
  if out then written ++ [a] else written.

(** The [while (n > 2)] loop of [json_unescape] and the code after it.
    [n] stays positive: it is decremented only under [n > 2], at most
    twice a turn. *)
Fixpoint json_unescape_loop (fuel : nat) (m : buffer) (s n r : Z)
    (out : bool) (written : buffer) : option unescape_result :=
  match fuel with
  | O => None
  | S fuel =>
      if 2 <? n then
        c ← read m s;
        if Ascii.eqb c BACKSLASH then
          e ← read m (s + 1);
          match unescape_char e with
          | Some c1 =>
              json_unescape_loop fuel m (s + 1 + 1) (n - 1 - 1)
                (int32 (r + 1)) out (store out written c1)
          | None => Some (UnescapeResult (-1) written)
          end
        else
          json_unescape_loop fuel m (s + 1) (n - 1) (int32 (r + 1)) out
            (store out written c)
      else
        c ← read m s;
        if negb (Ascii.eqb c DQUOTE) then Some (UnescapeResult (-1) written)
        else Some (UnescapeResult r (store out written NUL))
  end.

(** [json_unescape(m + s, n, out)]; [out] tells whether the third
    argument is non-null. *)
Definition json_unescape (m : buffer) (s n : Z) (out : bool)
  : option unescape_result :=
  c ← read m s;
  if negb (Ascii.eqb c DQUOTE) then Some (UnescapeResult (-1) [])
  else json_unescape_loop (S (Z.to_nat n)) m (s + 1) n 0 out [].

(** [json_parse(s, key, index)]. The return code of [json_parse_c] is
    dropped; only [value] decides. *)
Definition json_parse (s key : string) (index : Z) : option string :=
  let m := c_str s in
  res ← (if decide (key = "") then
           json_parse_c m (len s) None (size_t index)
         else json_parse_c m (len s) (Some (c_str key)) (len key));
  match r_value res with
  | Some value =>
      c ← read m value;
      if negb (Ascii.eqb c DQUOTE) then
        std_string <$> read_n m value (r_valuesz res)
      else
        u ← json_unescape m value (r_valuesz res) false;
        let n := u_code u in
        if 0 <? n then
          d ← json_unescape m value (r_valuesz res) true;
          Some (std_string (take (Z.to_nat n) (u_out d)))
        else Some ""
  | None => Some ""
  end.

(** ** The URL codec *)

Definition uchar (z : Z) : Z := z mod 256.
Definition uint32 (z : Z) : Z := z mod 2 ^ 32.
Definition chr (z : Z) : ascii := ascii_of_N (Z.to_N (uchar z)).

Definition hex2nibble (c : Z) : Z :=
  if (ord "0" <=? c) && (c <=? ord "9") then uchar (c - ord "0")
  else if (ord "a" <=? c) && (c <=? ord "f") then uchar (10 + (c - ord "a"))
  else if (ord "A" <=? c) && (c <=? ord "F") then uchar (10 + (c - ord "A"))
  else 0.

(** [hex2char(m + p)] reads [p[0]] and [p[1]]. *)
Definition hex2char (m : buffer) (p : Z) : option ascii :=
  a ← read m p; b ← read m (p + 1);
  Some (chr (hex2nibble (ord a) * 16 + hex2nibble (ord b))).

(** The value of a plain [char] as an [int]. Whether plain [char] is
    signed is fixed by the platform ABI: it is on x86-64 Linux, on macOS
    and on Windows, the targets of the three backends. *)
Definition char_to_int (char_is_signed : bool) (a : ascii) : Z :=
  if char_is_signed && (128 <=? ord a) then ord a - 256 else ord a.

(** [isalnum] in the C locale. *)
Definition isalnum (c : Z) : bool :=
  ((ord "0" <=? c) && (c <=? ord "9"))
  || ((ord "A" <=? c) && (c <=? ord "Z"))
  || ((ord "a" <=? c) && (c <=? ord "z")).

Definition hex_digit (d : Z) : ascii :=
  if d <? 10 then chr (ord "0" + d) else chr (ord "a" + (d - 10)).

(** The lower-case hexadecimal digits of [u], most significant first. *)
Fixpoint hex_digits (fuel : nat) (u : Z) : buffer :=
  match fuel with
  | O => []
  | S fuel =>
      if u <? 16 then [hex_digit u]
      else hex_digits fuel (u / 16) ++ [hex_digit (u mod 16)]
  end.

(** [snprintf(hex, sizeof(hex), "%%%02x", c)] with [char hex[4]]: the
    [int] argument is printed as an [unsigned int], in at least two
    digits, and the output is cut after three characters. *)
Definition snprintf_hex (c : Z) : buffer :=
  let digits := hex_digits 8 (uint32 c) in
  let padded :=
    if (length digits <? 2)%nat then "0"%char :: digits else digits in
  take 3 ("%"%char :: padded).

(** What one turn of the loop of [url_encode] appends. *)
Definition url_encode_char (char_is_signed : bool) (a : ascii) : string :=
  let c := char_to_int char_is_signed a in
  if isalnum c || (c =? ord "-") || (c =? ord "_") || (c =? ord ".")
     || (c =? ord "~") then String a EmptyString
  else std_string (snprintf_hex c).

(** [url_encode(s)], for strings shorter than [2 ^ 32] bytes (the counter
    [i] is an [unsigned int]). *)
Definition url_encode (char_is_signed : bool) (s : string) : string :=
  fold_left (fun encoded a => encoded +:+ url_encode_char char_is_signed a)
    (bytes s) "".

(** [strlen(m)]: the offset of the first NUL byte. *)
Fixpoint strlen (m : buffer) : option Z :=
  match m with
  | [] => None
  | a :: t => if Ascii.eqb a NUL then Some 0 else Z.succ <$> strlen t
  end.

Fixpoint url_decode_loop (fuel : nat) (s : buffer) (length : Z) (i : Z)
    (decoded : string) : option string :=
  match fuel with
  | O => None
  | S fuel =>
      if i <? length then
        c ← read s i;
        if Ascii.eqb c "%" then
          h ← hex2char s (i + 1);
          url_decode_loop fuel s length (uint32 (uint32 (i + 2) + 1))
            (decoded +:+ String h EmptyString)
        else if Ascii.eqb c "+" then
          url_decode_loop fuel s length (uint32 (i + 1))
            (decoded +:+ " ")
        else
          url_decode_loop fuel s length (uint32 (i + 1))
            (decoded +:+ String c EmptyString)
      else Some decoded
  end.

(** [url_decode(st)] *)
Definition url_decode (st : string) : option string :=
  let s := c_str st in
  length ← strlen s;
  url_decode_loop (S (Z.to_nat length)) s length 0 "".

(** [s.substr(pos, n)] and [s.substr(pos)], for [pos <= s.length()]. *)
Definition substr (s : string) (pos n : nat) : string :=
  std_string (take n (drop pos (bytes s))).
Definition substr_from (s : string) (pos : nat) : string :=
  std_string (drop pos (bytes s)).

Definition html_from_uri (s : string) : option string :=
  if decide (substr s 0 15 = "data:text/html,") then
    url_decode (substr_from s 15)
  else Some "".

(** ** The browser engine, as class [webview] uses it *)

(** The closure that [resolve] hands to [dispatch]; it captures [seq],
    [status] and [result] by value. *)
Record dispatch_fn_t := ResolveFn {
  d_seq : string;
  d_status : Z;
  d_result : string
}.

(** The engine is an external collaborator. Its state records what it was
    asked to do: the URLs passed to [navigate], the scripts passed to
    [init] and to [eval], and the closures posted with [dispatch] that
    the UI thread has not run yet. *)
Record browser_engine := BrowserEngine {
  e_navigated : list string;
  e_init : list string;
  e_eval : list string;
  e_dispatched : list dispatch_fn_t
}.

Definition engine_navigate (url : string) (e : browser_engine) :=
  BrowserEngine (e_navigated e ++ [url]) (e_init e) (e_eval e)
    (e_dispatched e).
Definition engine_init (js : string) (e : browser_engine) :=
  BrowserEngine (e_navigated e) (e_init e ++ [js]) (e_eval e)
    (e_dispatched e).
Definition engine_eval (js : string) (e : browser_engine) :=
  BrowserEngine (e_navigated e) (e_init e) (e_eval e ++ [js])
    (e_dispatched e).
Definition engine_dispatch (f : dispatch_fn_t) (e : browser_engine) :=
  BrowserEngine (e_navigated e) (e_init e) (e_eval e)
    (e_dispatched e ++ [f]).

(** ** class [webview] *)

Section Webview.

(** The function objects behind [binding_t *] and the values of the
    [void *] context are opaque to the bridge. *)
Context {binding_t void_ptr : Type}.

(** Plain [char] is signed or not, see [char_to_int]. *)
Variable char_is_signed : bool.

Abbreviation binding_ctx_t := (binding_t * void_ptr)%type.

(** One call of the function behind [fn->first], on
    [(seq, args, fn->second)]. *)
Record invocation := Invocation {
  i_fn : binding_t;
  i_seq : string;
  i_req : string;
  i_arg : void_ptr
}.

(** A [webview] object: its engine, its [bindings] and, as a trace, the
    calls it has made to bound functions. *)
Record webview := Webview {
  engine : browser_engine;
  bindings : gmap string binding_ctx_t;
  invoked : list invocation
}.

Definition with_engine (f : browser_engine → browser_engine) (w : webview)
  : webview :=
  Webview (f (engine w)) (bindings w) (invoked w).

Definition navigate (url : string) (w : webview) : option webview :=
  if decide (url = "") then
    Some (with_engine
            (engine_navigate
               ("data:text/html," +:+
                url_encode char_is_signed "<html><body>Hello</body></html>"))
            w)
  else
    html ← html_from_uri url;
    if decide (html ≠ "") then
      Some (with_engine
              (engine_navigate
                 ("data:text/html," +:+ url_encode char_is_signed html))
              w)
    else Some (with_engine (engine_navigate url) w).

Definition bind_js (name : string) : string :=
  "(function() { var name = '" +:+ name +:+ "';" +:+ "
      var RPC = window._rpc = (window._rpc || {nextSeq: 1});
      window[name] = function() {
        var seq = RPC.nextSeq++;
        var promise = new Promise(function(resolve, reject) {
          RPC[seq] = {
            resolve: resolve,
            reject: reject,
          };
        });
        window.external.invoke(JSON.stringify({
          id: seq,
          method: name,
          params: Array.prototype.slice.call(arguments),
        }));
        return promise;
      }
    })()".

(** [bind(name, f, arg)]: [init(js); bindings[name] = ...]. *)
Definition bind (name : string) (f : binding_t) (arg : void_ptr)
    (w : webview) : webview :=
  let w1 := with_engine (engine_init (bind_js name)) w in
  Webview (engine w1) (<[name := (f, arg)]> (bindings w1)) (invoked w1).

(** [resolve(seq, status, result)] only posts its closure. *)
Definition resolve (seq : string) (status : Z) (result : string)
    (w : webview) : webview :=
  with_engine (engine_dispatch (ResolveFn seq status result)) w.

(** The body of the closure of [resolve], run by the UI thread. *)
Definition call_dispatch_fn (f : dispatch_fn_t) (w : webview) : webview :=
  if d_status f =? 0 then
    with_engine
      (engine_eval
         ("window._rpc[" +:+ d_seq f +:+ "].resolve(" +:+ d_result f +:+
          "); window._rpc[" +:+ d_seq f +:+ "] = undefined"))
      w
  else
    with_engine
      (engine_eval
         ("window._rpc[" +:+ d_seq f +:+ "].reject(" +:+ d_result f +:+
          "); window._rpc[" +:+ d_seq f +:+ "] = undefined"))
      w.

(** The UI thread takes the oldest posted closure and runs it. *)
Definition run_dispatched (w : webview) : webview :=
  match e_dispatched (engine w) with
  | [] => w
  | f :: rest =>
      call_dispatch_fn f
        (with_engine
           (fun e => BrowserEngine (e_navigated e) (e_init e) (e_eval e)
                       rest)
           w)
  end.

Definition invoke (fn : binding_ctx_t) (seq args : string) (w : webview)
  : webview :=
  Webview (engine w) (bindings w)
    (invoked w ++ [Invocation (fst fn) seq args (snd fn)]).

Definition on_message (msg : string) (w : webview) : option webview :=
  seq ← json_parse msg "id" 0;
  name ← json_parse msg "method" 0;
  args ← json_parse msg "params" 0;
  match bindings w !! name with
  | None => Some w
  | Some fn => Some (invoke fn seq args w)
  end.

(** What can happen to a [webview] object between its construction and
    its destruction. *)
Inductive operation :=
| OpNavigate (url : string)
| OpBind (name : string) (f : binding_t) (arg : void_ptr)
| OpResolve (seq : string) (status : Z) (result : string)
| OpMessage (msg : string)
| OpRunDispatched.

Definition exec (o : operation) (w : webview) : option webview :=
  match o with
  | OpNavigate url => navigate url w
  | OpBind name f arg => Some (bind name f arg w)
  | OpResolve seq status result => Some (resolve seq status result w)
  | OpMessage msg => on_message msg w
  | OpRunDispatched => Some (run_dispatched w)
  end.

Fixpoint run (ops : list operation) (w : webview) : option webview :=
  match ops with
  | [] => Some w
  | o :: rest => w1 ← exec o w; run rest w1
  end.

(** The last [bind] of [name] among [ops], if any. *)
Fixpoint last_bind (name : string) (ops : list operation)
  : option binding_ctx_t :=
  match ops with
  | [] => None
  | o :: rest =>
      match last_bind name rest with
      | Some b => Some b
      | None =>
          match o with
          | OpBind n f arg =>
              if decide (n = name) then Some (f, arg) else None
          | _ => None
          end
      end
  end.

End Webview.

Arguments webview : clear implicits.
Arguments invocation : clear implicits.
Arguments operation : clear implicits.

(** [webview_create]: a fresh object has no bindings; nothing has been
    asked of its engine yet. *)
Definition webview_create {binding_t void_ptr : Type}
  : webview binding_t void_ptr :=
  Webview (BrowserEngine [] [] [] []) ∅ [].

(** ** Vocabulary of the statements *)

(** The bytes that a result of [json_parse_c] designates. *)
Definition span_of (m : buffer) (res : parse_result) : option string :=
  value ← r_value res; std_string <$> read_n m value (r_valuesz res).

(** The script that settles call [seq]. *)
Definition settle_script (seq path result : string) : string :=
  "window._rpc[" +:+ seq +:+ "]." +:+ path +:+ "(" +:+ result +:+
  "); window._rpc[" +:+ seq +:+ "] = undefined".

(** The engine is asked to load [url]. *)
Definition loads {binding_t void_ptr : Type} (url : string)
    (w : webview binding_t void_ptr) : webview binding_t void_ptr :=
  with_engine (engine_navigate url) w.

(** The request of the dispatch scenario. *)
Definition add_request : string :=
  json_text "{'id':1,'method':'add','params':[2,3]}".

(** The object of the scanning scenario. *)
Definition scenario_object : string :=
  json_text "{'a':1,'b':[1,2,3],'c':'x'}".

(** [n] turns of the loop of [json_parse_c], from the locals [l]: the
    locals reached, or the result if the function has returned. *)
Fixpoint json_scan (n : nat) (m : buffer) (key : option buffer)
    (l : locals) : option (locals + parse_result) :=
  match n with
  | O => Some (inl l)
  | S n =>
      if 0 <? l_sz l then
        r ← json_iter m key l;
        match r with
        | inl l1 => json_scan n m key l1
        | inr res => Some (inr res)
        end
      else Some (inr (ParseResult (-1) (l_value l) 0))
  end.

(** A caller passes a key of [keysz] bytes, or [NULL]. *)
Definition key_ok (key : option buffer) (keysz : Z) : Prop :=
  match key with
  | Some kb => 0 ≤ keysz ≤ Z.of_nat (length kb) ∧ keysz < 2 ^ 64 - 1
  | None => True
  end.

(** The bookkeeping of the loop over a buffer of [n] bytes: [s] and [sz]
    add up to [n], what [*value] and [k] point to lies behind [s], and
    a literal has a first byte. *)
Record scan_inv (n : Z) (key : option buffer) (l : locals) : Prop := {
  inv_s : 0 ≤ l_s l;
  inv_sz : 0 ≤ l_sz l;
  inv_sum : l_s l + l_sz l = n;
  inv_value : ∀ v, l_value l = Some v → 0 ≤ v < l_s l;
  inv_k : ∀ kp, l_k l = Some kp → 0 ≤ kp < l_s l;
  inv_literal : l_state l = JSON_STATE_LITERAL → 0 < l_s l;
  inv_key : match key with
            | Some kb => 0 ≤ l_keysz l ≤ Z.of_nat (length kb)
                         ∧ l_keysz l < 2 ^ 64 - 1
            | None => l_keysz l = 0
            end
}.

(** A result over a buffer of [n] bytes: the span lies inside the buffer,
    and a failure leaves its size zero. *)
Record result_ok (n : Z) (res : parse_result) : Prop := {
  ok_code : r_code res = 0 ∨ r_code res = -1;
  ok_span : ∀ v, r_value res = Some v →
            0 ≤ v < n ∧ 0 ≤ r_valuesz res ∧ v + r_valuesz res ≤ n;
  ok_found : r_code res = 0 → is_Some (r_value res);
  ok_failed : r_code res = -1 → r_valuesz res = 0
}.

(** The turns left, at most: twice the bytes left, and one more in the
    literal state, which may hand its byte back. *)
Definition turns_left (l : locals) : Z :=
  2 * l_sz l + match l_state l with JSON_STATE_LITERAL => 1 | _ => 0 end.


(** [l2] is at the byte of [l1], in the same state, and what its
    [*value] and [k] point to lies at that byte or behind it. *)
Definition stays_at (l1 l2 : locals) : Prop :=
  l_s l2 = l_s l1 ∧ l_sz l2 = l_sz l1 ∧ l_state l2 = l_state l1
  ∧ l_keysz l2 = l_keysz l1
  ∧ (∀ v, l_value l2 = Some v → 0 ≤ v ≤ l_s l1)
  ∧ (∀ kp, l_k l2 = Some kp → 0 ≤ kp ≤ l_s l1).

(** The bytes between the quotes split into whole tokens: a byte other
    than the backslash, or a backslash and the byte after it. *)
Fixpoint escape_closed (b : buffer) : bool :=
  match b with
  | [] => true
  | a :: t =>
      if Ascii.eqb a BACKSLASH then
        match t with
        | [] => false
        | _ :: t1 => escape_closed t1
        end
      else escape_closed t
  end.

(** No byte is a backslash. *)
Definition backslash_free (b : buffer) : bool :=
  forallb (fun a => negb (Ascii.eqb a BACKSLASH)) b.

(** Percent-encoding as the specification words it: the bytes that stay,
    and a percent sign with the two hexadecimal digits of the others. *)
Definition unreserved (a : ascii) : bool :=
  isalnum (ord a) || Ascii.eqb a "-" || Ascii.eqb a "_" || Ascii.eqb a "."
  || Ascii.eqb a "~".

Definition percent_encoded (a : ascii) : string :=
  String "%" (String (hex_digit (ord a / 16))
                (String (hex_digit (ord a mod 16)) EmptyString)).

Fixpoint url_encoded (s : string) : string :=
  match s with
  | EmptyString => EmptyString
  | String a t =>
      (if unreserved a then String a EmptyString else percent_encoded a)
      +:+ url_encoded t
  end.

(** ** Proof steps *)

(** Case analysis on the condition of a conditional. *)
Ltac break_if :=
  match goal with
  | |- context [if ?b then _ else _] => destruct b eqn:?
  | H : context [if ?b then _ else _] |- _ => destruct b eqn:?
  end.


(** ** More vocabulary: the codecs *)

(** The upper-case hexadecimal digit of [d]. *)
Definition upper_hex_digit (d : Z) : ascii :=
  if d <? 10 then chr (ord "0" + d) else chr (ord "A" + (d - 10)).

(** What [url_decode] stores for a byte that is not a percent sign. *)
Definition plus_to_space (a : ascii) : ascii :=
  if Ascii.eqb a "+" then " "%char else a.

(** Neither a percent sign nor a NUL byte. *)
Definition plain_url_byte (a : ascii) : bool :=
  negb (Ascii.eqb a "%") && negb (Ascii.eqb a NUL).

(** ** More vocabulary: [json_unescape] *)

(** The text that a string body stands for: every byte for itself, and
    every backslash with the byte after it for the byte that
    [unescape_char] gives; [None] when that byte is no known escape. *)
Fixpoint unescaped (b : buffer) : option buffer :=
  match b with
  | [] => Some []
  | a :: t =>
      if Ascii.eqb a BACKSLASH then
        match t with
        | [] => None
        | e :: t1 =>
            match unescape_char e with
            | Some c => cons c <$> unescaped t1
            | None => None
            end
        end
      else cons a <$> unescaped t
  end.

(** ** More vocabulary: the bridge *)

(** The scripts that the [bind] operations of a run inject, in order. *)
Fixpoint bind_scripts {binding_t void_ptr : Type}
    (ops : list (operation binding_t void_ptr)) : list string :=
  match ops with
  | [] => []
  | OpBind name _ _ :: rest => bind_js name :: bind_scripts rest
  | _ :: rest => bind_scripts rest
  end.

(** The script that the closure [f] of [resolve] evaluates. *)
Definition script_of (f : dispatch_fn_t) : string :=
  settle_script (d_seq f) (if d_status f =? 0 then "resolve" else "reject")
    (d_result f).

(** [resolve] called for each of [fs] in turn. *)
Definition resolve_all {binding_t void_ptr : Type} (fs : list dispatch_fn_t)
    (w : webview binding_t void_ptr) : webview binding_t void_ptr :=
  fold_left (fun w1 f => resolve (d_seq f) (d_status f) (d_result f) w1) fs w.

(** The UI thread runs [n] posted closures. *)
Definition run_dispatched_n {binding_t void_ptr : Type} (n : nat)
    (w : webview binding_t void_ptr) : webview binding_t void_ptr :=
  Nat.iter n run_dispatched w.

(** ** [bind(name, sync_binding_t)] *)

(** A [sync_binding_t], a function from the request to the result (taken
    to return). *)
Abbreviation sync_binding_t := (string → string).

(** The function objects a table can hold: the lambda that the
    synchronous [bind] wraps its function in, or a function of the
    caller. *)
Inductive bound_function :=
| SyncLambda
| UserFunction (id : nat).

(** The contexts: the pair that the synchronous [bind] allocates (its
    first component is the object itself), or a pointer of the caller. *)
Inductive bound_context :=
| SyncCtx (fn : sync_binding_t)
| UserArg (p : Z).

(** [bind(name, fn)] for a [sync_binding_t]. *)
Definition bind_sync (name : string) (fn : sync_binding_t)
    (w : webview bound_function bound_context)
  : webview bound_function bound_context :=
  bind name SyncLambda (SyncCtx fn) w.

(** The body of the lambda of the synchronous [bind], called on
    [(seq, req, arg)]: [pair->first->resolve(seq, 0, pair->second(req))].
    The cast of [arg] is defined only for the pair that [bind] made. *)
Definition sync_lambda (seq req : string) (arg : bound_context)
    (w : webview bound_function bound_context)
  : option (webview bound_function bound_context) :=
  match arg with
  | SyncCtx fn => Some (resolve seq 0 (fn req) w)
  | UserArg _ => None
  end.

(** [on_message] with the call it makes carried out, when that call is
    to the lambda of the synchronous [bind]; a function of the caller is
    only recorded. *)
Definition deliver (msg : string) (w : webview bound_function bound_context)
  : option (webview bound_function bound_context) :=
  seq ← json_parse msg "id" 0;
  name ← json_parse msg "method" 0;
  args ← json_parse msg "params" 0;
  match bindings w !! name with
  | None => Some w
  | Some (SyncLambda, arg) =>
      sync_lambda seq args arg (invoke (SyncLambda, arg) seq args w)
  | Some fn => Some (invoke fn seq args w)
  end.

(** ** More vocabulary: the scanner *)

(** The bytes that start a literal, for the scanner. *)
Definition literal_start (a : ascii) : bool :=
  Ascii.eqb a "t" || Ascii.eqb a "f" || Ascii.eqb a "n" || Ascii.eqb a "-"
  || ((ord "0" <=? ord a) && (ord a <=? ord "9")).

(** The bytes that a literal goes on with: printable, and none of the
    space, the comma, the colon, the closing brackets, the quotation mark
    and the backslash. *)
Definition literal_byte (a : ascii) : bool :=
  (32 <? ord a) && (ord a <=? 126)
  && negb (Ascii.eqb a "," || Ascii.eqb a ":" || Ascii.eqb a "]"
           || Ascii.eqb a "}" || Ascii.eqb a DQUOTE || Ascii.eqb a BACKSLASH).

(** A literal token: [true], [-12.5e3], [null], ... *)
Definition literal_token (tok : buffer) : bool :=
  match tok with
  | [] => false
  | a :: body => literal_start a && forallb literal_byte body
  end.

(** The bytes that end a literal without failing the scan. *)
Definition literal_end (a : ascii) : bool :=
  Ascii.eqb a " " || Ascii.eqb a "," || Ascii.eqb a "]" || Ascii.eqb a "}"
  || Ascii.eqb a ":".

(** The start of an array text: the opening bracket and the elements
    [pre], each followed by a comma. *)
Definition array_prefix (pre : list buffer) : buffer :=
  "["%char :: concat (map (fun tok => tok ++ [","%char]) pre).

(** After some turns the loop is at the locals [l1]; after some turns it
    returns [res]. *)
Definition scans_to (m : buffer) (key : option buffer) (l l1 : locals)
  : Prop :=
  ∃ n, json_scan n m key l = Some (inl l1).

Definition scans_out (m : buffer) (key : option buffer) (l : locals)
    (res : parse_result) : Prop :=
  ∃ n, json_scan n m key l = Some (inr res).

(** The elements of an array text, separated by single commas, and the
    whole text with its brackets. *)
Fixpoint join_commas (toks : list buffer) : buffer :=
  match toks with
  | [] => []
  | [tok] => tok
  | tok :: rest => tok ++ ","%char :: join_commas rest
  end.

Definition array_text (toks : list buffer) : buffer :=
  "["%char :: join_commas toks ++ ["]"%char].

(** The bytes of a string body that stand for themselves: printable
    ASCII other than the quotation mark and the backslash. *)
Definition string_byte (a : ascii) : bool :=
  (32 <=? ord a) && (ord a <=? 126)
  && negb (Ascii.eqb a DQUOTE || Ascii.eqb a BACKSLASH).

(** The start of an object text whose first key is [key]: the opening
    brace, the quoted key and the colon. *)
Definition object_head (key : buffer) : buffer :=
  "{"%char :: DQUOTE :: key ++ [DQUOTE; ":"%char].

(** ** More vocabulary: JSON texts *)

(** A string body that the scanner and [json_unescape] both take:
    printable ASCII bytes that stand for themselves, and the two-byte
    escapes that [unescape_char] knows. *)
Fixpoint escaped_text (b : buffer) : bool :=
  match b with
  | [] => true
  | a :: t =>
      if Ascii.eqb a BACKSLASH then
        match t with
        | [] => false
        | e :: t1 =>
            match unescape_char e with
            | Some _ => escaped_text t1
            | None => false
            end
        end
      else string_byte a && escaped_text t
  end.

(** JSON values as [JSON.stringify] writes them, with no white space:
    literals (numbers, [true], [false], [null]), strings, arrays and
    objects. *)
#[warnings="-register-all"] Inductive json_value :=
| JLiteral (tok : buffer)
| JString (body : buffer)
| JArray (items : list json_value)
| JObject (members : list (buffer * json_value)).

(** A member of an object: the quoted key, a colon and the value. *)
Definition member_text (key value : buffer) : buffer :=
  DQUOTE :: key ++ DQUOTE :: ":"%char :: value.

Fixpoint value_text (v : json_value) : buffer :=
  match v with
  | JLiteral tok => tok
  | JString body => DQUOTE :: body ++ [DQUOTE]
  | JArray items =>
      "["%char :: join_commas (map value_text items) ++ ["]"%char]
  | JObject members =>
      "{"%char
      :: join_commas
           (map (fun kv => member_text (fst kv) (value_text (snd kv)))
              members)
      ++ ["}"%char]
  end.

Fixpoint well_formed (v : json_value) : bool :=
  match v with
  | JLiteral tok => literal_token tok
  | JString body => escaped_text body
  | JArray items => forallb well_formed items
  | JObject members =>
      forallb (fun kv => escaped_text (fst kv) && well_formed (snd kv))
        members
  end.

(** The value of the first member whose key, as written, is [key]. *)
Fixpoint member (key : buffer) (members : list (buffer * json_value))
  : option json_value :=
  match members with
  | [] => None
  | kv :: rest =>
      if bool_decide (fst kv = key) then Some (snd kv) else member key rest
  end.

(** The text that stands for a value in C++: what a string decodes to,
    and the text of any other value as it is written. *)
Definition value_string (v : json_value) : buffer :=
  match v with
  | JString body => default [] (unescaped body)
  | _ => value_text v
  end.

(** The bytes [t] stand in the buffer [m] from the offset [p] on. *)
Fixpoint holds_at (m : buffer) (p : Z) (t : buffer) : Prop :=
  match t with
  | [] => True
  | a :: t1 => read m p = Some a ∧ holds_at m (p + 1) t1
  end.

(** Below the first level the scan passes over the text [t] and the
    locals other than [s] and [sz] are after it what they were before
    it. *)
Definition skips (t : buffer) : Prop :=
  ∀ (m : buffer) (key : option buffer) (p sz : Z) (k : option Z)
    (j d u : Z) (v : option Z) (ks : Z) (dl : ascii),
    holds_at m p (t ++ [dl]) → literal_end dl = true →
    2 ≤ d → d + Z.of_nat (length t) < 2 ^ 31 → Z.of_nat (length t) < sz →
    scans_to m key (Locals p sz JSON_STATE_VALUE k j d u v ks)
      (Locals (p + Z.of_nat (length t)) (sz - Z.of_nat (length t))
         JSON_STATE_VALUE k j d u v ks).

Ltac norm_locals :=
  cbv [advance set_s set_sz set_state set_k set_index set_depth
       set_utf8_bytes set_value l_s l_sz l_state l_k l_index l_depth
       l_utf8_bytes l_value l_keysz].

Ltac locals_eq :=
  norm_locals; f_equal; try reflexivity; try lia; try (f_equal; lia).

(** What stands between the braces of an object. *)
Definition members_text (members : list (buffer * json_value)) : buffer :=
  join_commas
    (map (fun kv => member_text (fst kv) (value_text (snd kv))) members).

(** The locals at the start of a member of the object that is searched
    for a key of [ks] bytes. *)
Definition at_member (p sz u ks : Z) : locals :=
  Locals p sz JSON_STATE_VALUE None 1 1 u None ks.

(** ** More vocabulary: malformed texts *)






(** Where in a text the next token is looked for with no value of the
    first level complete before it: at the start of the text, or inside
    an opening bracket at the start, directly behind it or further in,
    behind more opening brackets and the values that precede each at its
    level. *)
Inductive context :=
| AtStart
| Inside (o : ascii) (frames : list (ascii * list (json_value * ascii))).













(** * Theorems *)

(** ** The scanning scenario *)

(** C1, the part that holds: searching [scenario_object] by key [b]
    yields the span [[1,2,3]]. With no key the position counts every
    token at depth 1, the keys of an object included: position 5 yields
    the span of the string [x] with its quotes, which [json_parse]
    returns unquoted, and position 2 yields the key [b]. *)
Theorem json_parse_scenario :
  let m := c_str scenario_object in
  let sz := len scenario_object in
  (json_parse_c m sz (Some (c_str "b")) 1 ≫= span_of m = Some "[1,2,3]"
   ∧ json_parse scenario_object "b" 0 = Some "[1,2,3]")
  ∧ (json_parse_c m sz None 5 ≫= span_of m = Some (json_text "'x'")
     ∧ json_parse scenario_object "" 5 = Some "x")
  ∧ (json_parse_c m sz None 2 ≫= span_of m = Some (json_text "'b'")
     ∧ json_parse scenario_object "" 2 = Some "b").
Proof. vm_compute. repeat split; reflexivity. Qed.

(** C1 as stated fails: position 2 of [scenario_object] is not the
    string [x]. *)
Lemma json_parse_scenario_position_2 :
  let m := c_str scenario_object in
  json_parse_c m (len scenario_object) None 2 ≫= span_of m
    ≠ Some (json_text "'x'")
  ∧ json_parse scenario_object "" 2 ≠ Some "x".
Proof. vm_compute. split; discriminate. Qed.

(** ** The call bridge *)

Section Bridge.

Context {binding_t void_ptr : Type}.
Implicit Types w : webview binding_t void_ptr.

Lemma add_request_id : json_parse add_request "id" 0 = Some "1".
Proof. vm_compute. reflexivity. Qed.

Lemma add_request_method : json_parse add_request "method" 0 = Some "add".
Proof. vm_compute. reflexivity. Qed.

Lemma add_request_params : json_parse add_request "params" 0 = Some "[2,3]".
Proof. vm_compute. reflexivity. Qed.

(** C2: once [add] is bound to [f] with context [arg], delivering
    [add_request] calls [f] exactly once, on the sequence [1], the
    parameter text [[2,3]] and [arg]; nothing else changes. *)
Theorem on_message_add_invoked_once w (f : binding_t) (arg : void_ptr) :
  bindings w !! "add" = Some (f, arg) →
  on_message add_request w
  = Some (Webview (engine w) (bindings w)
            (invoked w ++ [Invocation f "1" "[2,3]" arg])).
Proof.
  intros Hbound. unfold on_message.
  rewrite add_request_id, add_request_method, add_request_params.
  cbn [mbind option_bind]. rewrite Hbound. reflexivity.
Qed.

(** C3: [resolve] posts exactly one closure and evaluates nothing itself;
    run on the UI thread, that closure evaluates exactly one script, which
    calls [resolve] of [window._rpc[seq]] when [status] is zero and
    [reject] otherwise, on the text of [result] as given, and then clears
    the slot. *)
Theorem resolve_posts_one_script w (seq : string) (status : Z)
    (result : string) :
  let f := ResolveFn seq status result in
  let path := if status =? 0 then "resolve" else "reject" in
  e_dispatched (engine (resolve seq status result w))
    = e_dispatched (engine w) ++ [f]
  ∧ e_eval (engine (resolve seq status result w)) = e_eval (engine w)
  ∧ bindings (resolve seq status result w) = bindings w
  ∧ (∀ w1, e_eval (engine (call_dispatch_fn f w1))
           = e_eval (engine w1) ++ [settle_script seq path result])
  ∧ (e_dispatched (engine w) = [] →
     let w1 := run_dispatched (resolve seq status result w) in
     e_eval (engine w1)
       = e_eval (engine w) ++ [settle_script seq path result]
     ∧ e_dispatched (engine w1) = []).
Proof.
  cbn zeta.
  split; [reflexivity|]. split; [reflexivity|]. split; [reflexivity|].
  split.
  - intros w1. unfold call_dispatch_fn, settle_script.
    cbn [d_status d_seq d_result].
    destruct (status =? 0); reflexivity.
  - intros Hempty. unfold run_dispatched, resolve.
    cbn [with_engine engine engine_dispatch e_dispatched].
    rewrite Hempty. cbn [app]. unfold call_dispatch_fn, settle_script.
    cbn [d_status d_seq d_result].
    destruct (status =? 0); split; reflexivity.
Qed.

Lemma exec_bindings (char_is_signed : bool) (o : operation binding_t void_ptr)
    w w1 :
  exec char_is_signed o w = Some w1 →
  bindings w1 = match o with
                | OpBind name f arg => <[name := (f, arg)]> (bindings w)
                | _ => bindings w
                end.
Proof.
  destruct o as [url|name f arg|seq status result|msg|]; cbn [exec].
  - unfold navigate. case_decide.
    + intros [= <-]. reflexivity.
    + destruct (html_from_uri url) as [html|]; [|discriminate].
      cbn [mbind option_bind]. case_decide; intros [= <-]; reflexivity.
  - intros [= <-]. reflexivity.
  - intros [= <-]. reflexivity.
  - unfold on_message.
    destruct (json_parse msg "id" 0) as [seq|]; [|discriminate].
    destruct (json_parse msg "method" 0) as [name|]; [|discriminate].
    destruct (json_parse msg "params" 0) as [args|]; [|discriminate].
    cbn [mbind option_bind].
    destruct (bindings w !! name); intros [= <-]; reflexivity.
  - intros [= <-]. unfold run_dispatched.
    destruct (e_dispatched (engine w)); [reflexivity|].
    unfold call_dispatch_fn. destruct (d_status _ =? 0); reflexivity.
Qed.

(** C9: after any sequence of operations on one object, the table maps
    each name to the pair of the last [bind] of that name in the
    sequence, and for a name that the sequence does not bind, to what it
    mapped to before: a later [bind] replaces the pair, a name once bound
    stays bound, and only [bind] changes the table. *)
Theorem bindings_last_bind_wins (char_is_signed : bool)
    (ops : list (operation binding_t void_ptr)) w w1 (name : string) :
  run char_is_signed ops w = Some w1 →
  bindings w1 !! name
  = match last_bind name ops with
    | Some b => Some b
    | None => bindings w !! name
    end.
Proof.
  revert w. induction ops as [|o rest IH]; intros w; cbn [run last_bind].
  - intros [= <-]. reflexivity.
  - destruct (exec char_is_signed o w) as [w2|] eqn:Hexec; [|discriminate].
    cbn [mbind option_bind]. intros Hrun.
    rewrite (IH _ Hrun). destruct (last_bind name rest); [reflexivity|].
    rewrite (exec_bindings _ _ _ _ Hexec).
    destruct o; try reflexivity.
    case_decide; subst.
    + apply lookup_insert_eq.
    + apply lookup_insert_ne. assumption.
Qed.

End Bridge.

(** C3 at a concrete call: sequence 7 is rejected with the text of the
    JSON string [boom] on a fresh [webview], then the UI thread runs. *)
Lemma resolve_posts_one_script_witness :
  let w : webview nat Z := webview_create in
  e_dispatched (engine w) = []
  ∧ e_eval (engine (run_dispatched (resolve "7" 1 (json_text "'boom'") w)))
    = [json_text "window._rpc[7].reject('boom'); window._rpc[7] = undefined"].
Proof.
  cbn zeta. split; [reflexivity|].
  exact (proj1 (proj2 (proj2 (proj2 (proj2
           (resolve_posts_one_script (@webview_create nat Z) "7" 1
              (json_text "'boom'"))))) eq_refl)).
Defined.

(** C2 at a concrete object: [add] bound on a fresh [webview]. *)
Lemma on_message_add_invoked_once_witness :
  let w : webview nat Z := bind "add" 7%nat 99 webview_create in
  bindings w !! "add" = Some (7%nat, 99)
  ∧ on_message add_request w
    = Some (Webview (engine w) (bindings w)
              (invoked w ++ [Invocation 7%nat "1" "[2,3]" 99])).
Proof.
  cbn zeta.
  assert (H : bindings (bind "add" 7%nat 99 (@webview_create nat Z)) !! "add"
              = Some (7%nat, 99)) by apply lookup_insert_eq.
  split; [exact H | exact (on_message_add_invoked_once _ _ _ H)].
Defined.

(** C9 at a concrete run: [add] is bound twice around a request. *)
Lemma bindings_last_bind_wins_witness :
  let ops : list (operation nat Z) :=
    [OpBind "add" 1%nat 10; OpMessage add_request; OpResolve "1" 0 "5";
     OpBind "add" 2%nat 20; OpRunDispatched] in
  ∃ w1, run true ops webview_create = Some w1
        ∧ bindings w1 !! "add" = Some (2%nat, 20).
Proof.
  cbn zeta.
  destruct (run true
              [OpBind "add" 1%nat 10; OpMessage add_request;
               OpResolve "1" 0 "5"; OpBind "add" 2%nat 20; OpRunDispatched]
              (@webview_create nat Z)) as [w1|] eqn:Hrun.
  - exists w1. split; [reflexivity|].
    exact (bindings_last_bind_wins true _ _ _ "add" Hrun).
  - exfalso. revert Hrun. cbn [run exec mbind option_bind].
    unfold on_message.
    rewrite add_request_id, add_request_method, add_request_params.
    cbn [mbind option_bind].
    destruct (bindings _ !! "add"); discriminate.
Defined.

(** ** The scanner: termination, memory safety, results *)

Lemma read_in_bounds (m : buffer) (p : Z) :
  0 ≤ p < Z.of_nat (length m) → ∃ a, read m p = Some a.
Proof.
  intros Hp. unfold read.
  destruct (p <? 0) eqn:Hneg; [lia|].
  destruct (lookup_lt_is_Some_2 m (Z.to_nat p)) as [a Ha]; [lia|].
  exists a. exact Ha.
Qed.

Lemma read_n_in_bounds (m : buffer) (p n : Z) :
  0 ≤ p → 0 ≤ n → p + n ≤ Z.of_nat (length m) →
  ∃ b, read_n m p n = Some b.
Proof.
  intros Hp Hn Hpn. unfold read_n.
  destruct (p <? 0) eqn:H1; [lia|].
  destruct (n <? 0) eqn:H2; [lia|].
  destruct (Z.of_nat (length m) <? p + n) eqn:H3; [lia|].
  cbn. eauto.
Qed.

(** What the [switch] may change: the state and the UTF-8 counter, and
    when a literal hands its byte back, [s] and [sz]. *)
Lemma json_switch_break (c : Z) (l l1 : locals) (action : json_action) :
  json_switch c l = Break action l1 →
  l_k l1 = l_k l ∧ l_index l1 = l_index l ∧ l_depth l1 = l_depth l
  ∧ l_value l1 = l_value l ∧ l_keysz l1 = l_keysz l
  ∧ ((l_s l1 = l_s l ∧ l_sz l1 = l_sz l)
     ∨ (l_s l1 = l_s l - 1 ∧ l_sz l1 = l_sz l + 1
        ∧ l_state l = JSON_STATE_LITERAL
        ∧ l_state l1 ≠ JSON_STATE_LITERAL)).
Proof.
  unfold json_switch, case_string.
  destruct (l_state l) eqn:Hst; repeat break_if;
    intros [= <- <-] || discriminate;
    cbn; repeat split; auto; right; repeat split; auto; discriminate.
Qed.

Lemma size_t_le (z : Z) : 0 ≤ z → 0 ≤ size_t z ≤ z.
Proof.
  intros Hz. unfold size_t. split.
  - apply Z.mod_pos_bound. lia.
  - apply Z.mod_le; lia.
Qed.

Lemma key_matches_ok (n : Z) (m : buffer) (key : option buffer) (l : locals)
    (kp : Z) :
  n ≤ Z.of_nat (length m) → 0 ≤ kp ≤ l_s l → l_s l < n →
  match key with
  | Some kb => 0 ≤ l_keysz l ≤ Z.of_nat (length kb) ∧ l_keysz l < 2 ^ 64 - 1
  | None => l_keysz l = 0
  end →
  0 < l_keysz l →
  ∃ b, key_matches m key l kp = Some b.
Proof.
  intros Hn Hkp Hs Hkey Hpos. unfold key_matches.
  destruct (l_keysz l =? size_t (l_s l - kp - 1)) eqn:Heq; [|eauto].
  apply Z.eqb_eq in Heq.
  destruct key as [kb|]; [|lia]. destruct Hkey as [Hkb Hmax].
  cbn [mbind option_bind]. unfold memcmp_eq.
  assert (Hlen : l_keysz l ≤ l_s l - kp - 1).
  { destruct (Z.eq_dec kp (l_s l)) as [->|Hne].
    - exfalso. revert Heq.
      replace (l_s l - l_s l - 1) with (-1) by lia.
      unfold size_t. change (-1 mod 2 ^ 64) with (2 ^ 64 - 1). lia.
    - rewrite Heq. apply size_t_le. lia. }
  destruct (read_n_in_bounds kb 0 (l_keysz l)) as [x ->]; [lia..|].
  destruct (read_n_in_bounds m (kp + 1) (l_keysz l)) as [y ->]; [lia..|].
  cbn. eauto.
Qed.

(** The code after the [switch] moves neither [s] nor [sz], sets
    [*value] and [k] to [s] at most, and returns a span that ends at
    [s + 1]. *)
Lemma after_switch_ok (n : Z) (m : buffer) (key : option buffer)
    (action : json_action) (l1 : locals) :
  n ≤ Z.of_nat (length m) → 0 ≤ l_s l1 < n →
  (∀ v, l_value l1 = Some v → 0 ≤ v ≤ l_s l1) →
  (∀ kp, l_k l1 = Some kp → 0 ≤ kp ≤ l_s l1) →
  match key with
  | Some kb => 0 ≤ l_keysz l1 ≤ Z.of_nat (length kb)
               ∧ l_keysz l1 < 2 ^ 64 - 1
  | None => l_keysz l1 = 0
  end →
  ∃ r, after_switch m key action l1 = Some r
       ∧ match r with
         | inl l2 => stays_at l1 l2
         | inr res => result_ok n res ∧ r_code res = 0
         end.
Proof.
  intros Hn Hs Hvalue Hk Hkey. unfold after_switch.
  set (l0 := match action with
             | JSON_ACTION_END_STRUCT => set_depth (int32 (l_depth l1 - 1)) l1
             | _ => l1
             end).
  assert (Hl0 : l_s l0 = l_s l1 ∧ l_sz l0 = l_sz l1 ∧ l_state l0 = l_state l1
                ∧ l_keysz l0 = l_keysz l1 ∧ l_value l0 = l_value l1
                ∧ l_k l0 = l_k l1).
  { subst l0. destruct action; repeat split; reflexivity. }
  destruct Hl0 as (Es & Esz & Est & Eks & Ev & Ek).
  assert (Hdepth : ∀ l2 : locals, stays_at l1 l2 →
    stays_at l1 match action with
                | JSON_ACTION_START_STRUCT =>
                    set_depth (int32 (l_depth l2 + 1)) l2
                | _ => l2
                end).
  { intros l2 H. destruct action; exact H. }
  assert (Hbase : stays_at l1 l0).
  { unfold stays_at. rewrite Ev, Ek. repeat split; auto; intros;
      repeat match goal with
             | H : l_value l1 = Some _ |- _ => apply Hvalue in H
             | H : l_k l1 = Some _ |- _ => apply Hk in H
             end; lia. }
  assert (Hset : ∀ (ov ok : option Z) (i : Z),
    (∀ v, ov = Some v → 0 ≤ v ≤ l_s l1) →
    (∀ kp, ok = Some kp → 0 ≤ kp ≤ l_s l1) →
    stays_at l1 (set_value ov (set_k ok (set_index i l0)))).
  { intros ov ok i Hov Hok. unfold stays_at. cbn.
    rewrite Es, Esz, Est, Eks. repeat split; auto; intros;
      repeat match goal with
             | H : ov = Some _ |- _ => apply Hov in H
             | H : ok = Some _ |- _ => apply Hok in H
             end; lia. }
  assert (Hv1 : ∀ v, l_value l0 = Some v → 0 ≤ v ≤ l_s l1).
  { rewrite Ev. exact Hvalue. }
  assert (Hk1 : ∀ kp, l_k l0 = Some kp → 0 ≤ kp ≤ l_s l1).
  { rewrite Ek. exact Hk. }
  assert (Hself : ∀ v, Some (l_s l0) = Some v → 0 ≤ v ≤ l_s l1).
  { intros v [= <-]. lia. }
  assert (Hnone : ∀ v : Z, None = Some v → 0 ≤ v ≤ l_s l1) by discriminate.
  destruct (l_depth l0 =? 1) eqn:Hd; cbn [mbind option_bind].
  2: { eexists. split; [reflexivity|]. apply Hdepth. exact Hbase. }
  unfold at_depth_one.
  destruct (is_start action) eqn:Hstart.
  { eexists. cbn [mbind option_bind]. split; [reflexivity|]. apply Hdepth.
    repeat break_if.
    - apply (Hset (Some (l_s l0)) (l_k l0) (l_index l0)); assumption.
    - apply (Hset (l_value l0) (Some (l_s l0)) (l_index l0)); assumption.
    - apply (Hset (l_value l0) (l_k l0) (int32 (l_index l0 - 1)));
        assumption. }
  destruct (is_end action) eqn:Hend.
  2: { eexists. cbn [mbind option_bind]. split; [reflexivity|].
       apply Hdepth. exact Hbase. }
  assert (Hkeyed : ∀ kp, l_k l0 = Some kp → (0 <? l_keysz l0) = true →
    ∃ r, (b ← key_matches m key l0 kp;
          Some (inl (set_k None (set_index (if b : bool then 0 else 2) l0))))
         ≫= (λ r : locals + parse_result,
               match r with
               | inl l2 =>
                   Some (inl match action with
                             | JSON_ACTION_START_STRUCT =>
                                 set_depth (int32 (l_depth l2 + 1)) l2
                             | _ => l2
                             end)
               | inr res => Some (inr res)
               end) = Some r
         ∧ match r with
           | inl l2 => stays_at l1 l2
           | inr res => result_ok n res ∧ r_code res = 0
           end).
  { intros kp Hkp Hpos.
    destruct (key_matches_ok n m key l0 kp) as [b Hb];
      [assumption | rewrite Es; apply Hk1; assumption | lia
      | rewrite Eks; assumption | lia |].
    rewrite Hb. eexists. cbn [mbind option_bind]. split; [reflexivity|].
    apply Hdepth.
    apply (Hset (l_value l0) None (if b then 0 else 2)); assumption. }
  assert (Hfound : ∀ v, l_value l0 = Some v →
    result_ok n (ParseResult 0 (Some v) (size_t (l_s l0 + 1 - v)))).
  { intros v Hv. apply Hv1 in Hv.
    pose proof (size_t_le (l_s l0 + 1 - v)) as Hsz. rewrite Es in *.
    constructor; cbn.
    - left; reflexivity.
    - intros ? [= <-]. lia.
    - eauto.
    - discriminate. }
  destruct (l_value l0) as [v|].
  - destruct (l_index l0 =? 0).
    + eexists. cbn [mbind option_bind]. split; [reflexivity|].
      split; [apply Hfound|]; reflexivity.
    + destruct (l_k l0) as [kp|]; [destruct (0 <? l_keysz l0) eqn:Hpos|].
      * apply (Hkeyed kp); reflexivity.
      * eexists. cbn [mbind option_bind]. split; [reflexivity|].
        apply Hdepth. exact Hbase.
      * eexists. cbn [mbind option_bind]. split; [reflexivity|].
        apply Hdepth. exact Hbase.
  - destruct (l_k l0) as [kp|]; [destruct (0 <? l_keysz l0) eqn:Hpos|].
    + apply (Hkeyed kp); reflexivity.
    + eexists. cbn [mbind option_bind]. split; [reflexivity|].
      apply Hdepth. exact Hbase.
    + eexists. cbn [mbind option_bind]. split; [reflexivity|].
      apply Hdepth. exact Hbase.
Qed.

Lemma json_switch_return (c : Z) (l : locals) (code : Z) :
  json_switch c l = Return code → code = -1.
Proof.
  unfold json_switch, case_string.
  destruct (l_state l); repeat break_if; intros [= <-] || discriminate;
    reflexivity.
Qed.

Lemma json_switch_continue (c : Z) (l : locals) :
  json_switch c l = Continue → l_state l = JSON_STATE_VALUE.
Proof.
  unfold json_switch, case_string.
  destruct (l_state l); repeat break_if; discriminate || reflexivity.
Qed.

(** One turn reads inside the buffer, keeps the bookkeeping and uses up
    a turn; if it returns, it returns a sound result. *)
Lemma json_iter_ok (n : Z) (m : buffer) (key : option buffer) (l : locals) :
  n ≤ Z.of_nat (length m) → scan_inv n key l → 0 < l_sz l →
  ∃ r, json_iter m key l = Some r
       ∧ match r with
         | inl l1 => scan_inv n key l1 ∧ 0 ≤ turns_left l1 < turns_left l
         | inr res => result_ok n res
         end.
Proof.
  intros Hn [Hs Hsz Hsum Hvalue Hk Hlit Hkey] Hpos. unfold json_iter.
  destruct (read_in_bounds m (l_s l)) as [a ->]; [lia|].
  cbn [mbind option_bind].
  destruct (json_switch (ord a) l) as [|code|action l1] eqn:Hsw.
  - apply json_switch_continue in Hsw.
    eexists. split; [reflexivity|]. split.
    + constructor; cbn; try lia; try assumption.
      * intros v Hv. apply Hvalue in Hv. lia.
      * intros kp Hkp. apply Hk in Hkp. lia.
    + unfold turns_left. cbn. rewrite Hsw. lia.
  - apply json_switch_return in Hsw. subst code.
    eexists. split; [reflexivity|]. constructor; cbn.
    + right; reflexivity.
    + intros v Hv. apply Hvalue in Hv. lia.
    + intros [=].
    + reflexivity.
  - apply json_switch_break in Hsw.
    destruct Hsw as (Ek & Ei & Ed & Ev & Eks & Hpos1).
    destruct (after_switch_ok n m key action l1) as [r [-> Hr]].
    + assumption.
    + destruct Hpos1 as [[-> _]|[-> [_ [Hst _]]]]; [lia|].
      specialize (Hlit Hst). lia.
    + rewrite Ev. intros v Hv. apply Hvalue in Hv.
      destruct Hpos1 as [[-> _]|[-> _]]; lia.
    + rewrite Ek. intros kp Hkp. apply Hk in Hkp.
      destruct Hpos1 as [[-> _]|[-> _]]; lia.
    + rewrite Eks. exact Hkey.
    + cbn [mbind option_bind].
      destruct r as [l2|res]; [|eexists; split; [reflexivity|apply Hr]].
      destruct Hr as (Es2 & Esz2 & Est2 & Eks2 & Hv2 & Hk2).
      eexists. split; [reflexivity|]. split.
      * constructor; cbn; rewrite ?Es2, ?Esz2, ?Eks2, ?Eks.
        -- destruct Hpos1 as [[-> _]|[-> _]]; lia.
        -- destruct Hpos1 as [[_ ->]|[_ [-> _]]]; lia.
        -- destruct Hpos1 as [[-> ->]|[-> [-> _]]]; lia.
        -- intros v Hv. apply Hv2 in Hv. lia.
        -- intros kp Hkp. apply Hk2 in Hkp. lia.
        -- intros _. destruct Hpos1 as [[-> _]|[-> [_ [Hst _]]]]; [lia|].
           specialize (Hlit Hst). lia.
        -- exact Hkey.
      * unfold turns_left. cbn. rewrite Esz2, Est2.
        destruct Hpos1 as [[_ ->]|[_ [-> [Hst Hst1]]]].
        -- destruct (l_state l1), (l_state l); lia.
        -- rewrite Hst. destruct (l_state l1); try lia. congruence.
Qed.

Lemma json_loop_total (n : Z) (m : buffer) (key : option buffer)
    (fuel : nat) (l : locals) :
  n ≤ Z.of_nat (length m) → scan_inv n key l →
  turns_left l < Z.of_nat fuel →
  ∃ res, json_loop fuel m key l = Some res ∧ result_ok n res.
Proof.
  intros Hn. revert l.
  induction fuel as [|fuel IH]; intros l Hinv Hfuel.
  - destruct Hinv. unfold turns_left in Hfuel.
    destruct (l_state l); lia.
  - cbn [json_loop]. destruct (0 <? l_sz l) eqn:Hpos.
    + destruct (json_iter_ok n m key l) as [r [-> Hr]];
        [assumption | assumption | lia |].
      cbn [mbind option_bind]. destruct r as [l1|res].
      * apply IH; [apply Hr | lia].
      * eauto.
    + eexists. split; [reflexivity|].
      destruct Hinv as [Hs Hsz Hsum Hvalue Hk Hlit Hkey]. constructor; cbn.
      * right; reflexivity.
      * intros v Hv. apply Hvalue in Hv. lia.
      * intros [=].
      * reflexivity.
Qed.

Lemma json_init_inv (sz : Z) (key : option buffer) (keysz : Z) :
  0 ≤ sz → key_ok key keysz → scan_inv sz key (json_init sz key keysz).
Proof.
  intros Hsz Hkey. destruct key as [kb|]; constructor; cbn;
    try lia; try discriminate; try assumption.
Qed.

(** [json_parse_c] terminates on every buffer without reading outside
    it, and its result is sound. *)
Lemma json_parse_c_total (m : buffer) (sz : Z) (key : option buffer)
    (keysz : Z) :
  0 ≤ sz ≤ Z.of_nat (length m) → key_ok key keysz →
  ∃ res, json_parse_c m sz key keysz = Some res ∧ result_ok sz res.
Proof.
  intros Hsz Hkey. unfold json_parse_c.
  apply json_loop_total; [lia | apply json_init_inv; [lia|assumption] |].
  unfold json_fuel, turns_left.
  destruct key; cbn; lia.
Qed.

(** ** [json_unescape] and [json_parse] stay inside the buffer *)

Lemma json_unescape_loop_total (m : buffer) (out : bool) (fuel : nat)
    (s n r : Z) (written : buffer) :
  0 ≤ s < Z.of_nat (length m) → (2 < n → s + n ≤ Z.of_nat (length m)) →
  (Z.to_nat n < fuel)%nat →
  ∃ u, json_unescape_loop fuel m s n r out written = Some u.
Proof.
  revert s n r written.
  induction fuel as [|fuel IH]; intros s n r written Hs Hn Hfuel.
  - lia.
  - cbn [json_unescape_loop].
    destruct (read_in_bounds m s) as [c ->]; [lia|].
    cbn [mbind option_bind].
    destruct (2 <? n) eqn:Hgt.
    + apply Z.ltb_lt in Hgt. specialize (Hn Hgt).
      destruct (Ascii.eqb c BACKSLASH).
      * destruct (read_in_bounds m (s + 1)) as [e ->]; [lia|].
        cbn [mbind option_bind].
        destruct (unescape_char e); [|eauto].
        apply IH; lia.
      * apply IH; lia.
    + destruct (negb (Ascii.eqb c DQUOTE)); eauto.
Qed.

Lemma json_unescape_total (m : buffer) (s n : Z) (out : bool) :
  0 ≤ s → 0 ≤ n → s + 1 < Z.of_nat (length m) →
  s + n < Z.of_nat (length m) →
  ∃ u, json_unescape m s n out = Some u.
Proof.
  intros Hs Hn Hs1 Hsn. unfold json_unescape.
  destruct (read_in_bounds m s) as [c ->]; [lia|].
  cbn [mbind option_bind].
  destruct (negb (Ascii.eqb c DQUOTE)); [eauto|].
  apply json_unescape_loop_total; lia.
Qed.

Lemma length_bytes (s : string) : Z.of_nat (length (bytes s)) = len s.
Proof.
  unfold bytes, len. f_equal.
  induction s as [|a s IH]; cbn; [reflexivity|]. f_equal. exact IH.
Qed.

Lemma length_c_str (s : string) : Z.of_nat (length (c_str s)) = len s + 1.
Proof.
  unfold c_str. rewrite length_app, Nat2Z.inj_add, length_bytes.
  reflexivity.
Qed.

Lemma len_nonneg (s : string) : 0 ≤ len s.
Proof. unfold len. lia. Qed.

(** [json_parse] returns a string for every message, key and index:
    none of its reads leaves the message and its terminator. *)
Lemma json_parse_total (s key : string) (index : Z) :
  len key < 2 ^ 64 - 1 → ∃ r, json_parse s key index = Some r.
Proof.
  intros Hkey. unfold json_parse.
  pose proof (len_nonneg s) as Hlen. pose proof (length_c_str s) as Hm.
  assert (Hres : ∃ res,
    (if decide (key = "") then json_parse_c (c_str s) (len s) None
                                 (size_t index)
     else json_parse_c (c_str s) (len s) (Some (c_str key)) (len key))
    = Some res ∧ result_ok (len s) res).
  { case_decide.
    - apply json_parse_c_total; [lia | exact I].
    - apply json_parse_c_total; [lia |].
      pose proof (len_nonneg key). pose proof (length_c_str key).
      cbn. lia. }
  destruct Hres as [res [-> Hok]]. cbn [mbind option_bind].
  destruct (r_value res) as [value|] eqn:Hvalue; [|eauto].
  destruct (ok_span _ _ Hok value Hvalue) as (Hv & Hvsz & Hend).
  destruct (read_in_bounds (c_str s) value) as [c ->]; [lia|].
  cbn [mbind option_bind].
  destruct (negb (Ascii.eqb c DQUOTE)).
  - destruct (read_n_in_bounds (c_str s) value (r_valuesz res)) as [b ->];
      [lia..|]. cbn. eauto.
  - destruct (json_unescape_total (c_str s) value (r_valuesz res) false)
      as [u ->]; [lia..|].
    cbn [mbind option_bind]. destruct (0 <? u_code u); [|eauto].
    destruct (json_unescape_total (c_str s) value (r_valuesz res) true)
      as [d ->]; [lia..|].
    cbn [mbind option_bind]. eauto.
Qed.

(** C4: a message whose decoded method name is not in the table is
    dropped: [on_message] returns, calls nothing and leaves the object as
    it was. *)
Theorem on_message_unbound_dropped {binding_t void_ptr : Type}
    (msg : string) (w : webview binding_t void_ptr) :
  (∀ name, json_parse msg "method" 0 = Some name →
           bindings w !! name = None) →
  on_message msg w = Some w.
Proof.
  intros Hunbound. unfold on_message.
  destruct (json_parse_total msg "id" 0) as [seq ->]; [reflexivity|].
  destruct (json_parse_total msg "method" 0) as [name Hname]; [reflexivity|].
  destruct (json_parse_total msg "params" 0) as [args ->]; [reflexivity|].
  rewrite Hname. cbn [mbind option_bind].
  rewrite (Hunbound name Hname). reflexivity.
Qed.

(** C4 at a concrete message: [sub] is requested where only [add] is
    bound. *)
Lemma on_message_unbound_dropped_witness :
  let w : webview nat Z := bind "add" 7%nat 99 webview_create in
  on_message (json_text "{'id':4,'method':'sub','params':[]}") w = Some w.
Proof.
  cbn zeta. apply on_message_unbound_dropped.
  intros name Hname.
  assert (Hsub : json_parse (json_text "{'id':4,'method':'sub','params':[]}")
                   "method" 0 = Some "sub") by (vm_compute; reflexivity).
  rewrite Hsub in Hname. injection Hname as <-.
  unfold bind. cbn [bindings with_engine].
  rewrite lookup_insert_ne by discriminate. apply lookup_empty.
Defined.

(** ** Malformed input *)





(** ** [json_unescape] and [json_escape] *)

Lemma read_app_middle (front rest : buffer) (a : ascii) :
  read (front ++ a :: rest) (Z.of_nat (length front)) = Some a.
Proof.
  unfold read. destruct (Z.ltb_spec (Z.of_nat (length front)) 0); [lia|].
  rewrite Nat2Z.id. apply list_lookup_middle. reflexivity.
Qed.

Lemma read_app_next (front rest : buffer) (a b : ascii) :
  read (front ++ a :: b :: rest) (Z.of_nat (length front) + 1) = Some b.
Proof.
  replace (front ++ a :: b :: rest) with ((front ++ [a]) ++ b :: rest)
    by (rewrite <- app_assoc; reflexivity).
  replace (Z.of_nat (length front) + 1) with (Z.of_nat (length (front ++ [a])))
    by (rewrite length_app; cbn; lia).
  apply read_app_middle.
Qed.

(** The loop of [json_unescape] crosses whole tokens and stops at the
    first escape it does not know, [\u] at the latest. *)
Lemma json_unescape_loop_rejects_u (out : bool) (tail : buffer) (k : nat) :
  ∀ (pre front : buffer) (n r : Z) (written : buffer) (fuel : nat),
    (length pre ≤ k)%nat → escape_closed pre = true →
    2 + Z.of_nat (length pre) < n → (length pre < fuel)%nat →
    ∃ w, json_unescape_loop fuel (front ++ pre ++ BACKSLASH :: "u"%char :: tail)
           (Z.of_nat (length front)) n r out written
         = Some (UnescapeResult (-1) w).
Proof.
  induction k as [|k IH]; intros pre front n r written fuel Hk Hclosed Hn Hfuel.
  - destruct pre; [|cbn in Hk; lia].
    destruct fuel as [|fuel]; [cbn in Hfuel; lia|].
    cbn [json_unescape_loop app].
    destruct (Z.ltb_spec 2 n); [|cbn in Hn; lia].
    rewrite read_app_middle. cbn [mbind option_bind].
    rewrite read_app_next. cbn. eauto.
  - destruct pre as [|a pre].
    { apply (IH [] front n r written fuel); [cbn; lia | assumption..]. }
    destruct fuel as [|fuel]; [cbn in Hfuel; lia|].
    cbn [json_unescape_loop app length] in *.
    destruct (Z.ltb_spec 2 n); [|lia].
    rewrite read_app_middle. cbn [mbind option_bind].
    cbn [escape_closed] in Hclosed.
    destruct (Ascii.eqb a BACKSLASH) eqn:Ha.
    + destruct pre as [|b pre]; [discriminate|].
      cbn [app]. rewrite read_app_next. cbn [mbind option_bind].
      destruct (unescape_char b) as [c1|]; [|eauto].
      replace (front ++ a :: b :: pre ++ BACKSLASH :: "u"%char :: tail)
        with ((front ++ [a; b]) ++ pre ++ BACKSLASH :: "u"%char :: tail)
        by (rewrite <- app_assoc; reflexivity).
      replace (Z.of_nat (length front) + 1 + 1)
        with (Z.of_nat (length (front ++ [a; b])))
        by (rewrite length_app; cbn; lia).
      apply IH; cbn [length] in *; [lia | assumption | lia | lia].
    + replace (front ++ a :: pre ++ BACKSLASH :: "u"%char :: tail)
        with ((front ++ [a]) ++ pre ++ BACKSLASH :: "u"%char :: tail)
        by (rewrite <- app_assoc; reflexivity).
      replace (Z.of_nat (length front) + 1)
        with (Z.of_nat (length (front ++ [a])))
        by (rewrite length_app; cbn; lia).
      apply IH; [lia | assumption | lia | lia].
Qed.

(** C5: on a quoted buffer whose content reaches, after whole tokens, an
    escape [\u], [json_unescape] returns the failure code, whatever
    follows and whether or not it writes its output: no [\u] escape is
    decoded. *)
Theorem json_unescape_rejects_u (pre rest : buffer) (out : bool) :
  escape_closed pre = true →
  let m := DQUOTE :: pre ++ BACKSLASH :: "u"%char :: rest ++ [DQUOTE] in
  ∃ w, json_unescape m 0 (Z.of_nat (length m)) out
       = Some (UnescapeResult (-1) w).
Proof.
  intros Hclosed m. unfold json_unescape. subst m.
  cbn [read Z.ltb Z.compare Z.to_nat lookup list_lookup mbind option_bind].
  change (negb (Ascii.eqb DQUOTE DQUOTE)) with false. cbn match.
  apply (json_unescape_loop_rejects_u out (rest ++ [DQUOTE]) (length pre)
           pre [DQUOTE]).
  - lia.
  - assumption.
  - cbn [length]. rewrite !length_app. cbn [length]. lia.
  - cbn [length]. rewrite !length_app. cbn [length]. lia.
Qed.

(** C5 at a concrete buffer: the string [a\nb\u00e9c], quoted. *)
Lemma json_unescape_rejects_u_witness :
  let m := bytes (json_text "'a\nb\u00e9c'") in
  json_unescape m 0 (Z.of_nat (length m)) true
  = Some (UnescapeResult (-1) (bytes ("a" +:+ String "010" "b"))).
Proof.
  cbn zeta.
  destruct (json_unescape_rejects_u (bytes "a\nb") (bytes "00e9c") true
              eq_refl) as [w Hw].
  change (DQUOTE :: bytes "a\nb" ++ BACKSLASH :: "u"%char
            :: bytes "00e9c" ++ [DQUOTE])
    with (bytes (json_text "'a\nb\u00e9c'")) in Hw.
  rewrite Hw. f_equal. f_equal.
  assert (H : json_unescape (bytes (json_text "'a\nb\u00e9c'")) 0
                (Z.of_nat (length (bytes (json_text "'a\nb\u00e9c'")))) true
              = Some (UnescapeResult (-1) (bytes ("a" +:+ String "010" "b"))))
    by (vm_compute; reflexivity).
  rewrite Hw in H. injection H as ->. reflexivity.
Defined.

Lemma int32_small (z : Z) : - 2 ^ 31 ≤ z < 2 ^ 31 → int32 z = z.
Proof. intros Hz. unfold int32. rewrite Z.mod_small; lia. Qed.

Lemma bytes_app (t u : string) : bytes (t +:+ u) = bytes t ++ bytes u.
Proof.
  unfold bytes. induction t as [|a t IH]; simpl; [reflexivity|].
  f_equal. exact IH.
Qed.

Lemma json_unescape_loop_backslash_free (tail : buffer) (body : buffer) :
  ∀ (front : buffer) (r : Z) (written : buffer) (fuel : nat),
    backslash_free body = true → (length body < fuel)%nat →
    0 ≤ r → r + Z.of_nat (length body) < 2 ^ 31 →
    json_unescape_loop fuel (front ++ body ++ DQUOTE :: tail)
      (Z.of_nat (length front)) (Z.of_nat (length body) + 2) r true written
    = Some (UnescapeResult (r + Z.of_nat (length body))
              (written ++ body ++ [NUL])).
Proof.
  induction body as [|a body IH];
    intros front r written fuel Hfree Hfuel Hr Hmax;
    (destruct fuel as [|fuel]; [cbn in Hfuel; lia|]);
    cbn [json_unescape_loop app length] in *.
  - change (2 <? 0 + 2) with false. cbv iota.
    rewrite read_app_middle. cbn [mbind option_bind].
    change (negb (Ascii.eqb DQUOTE DQUOTE)) with false. cbv iota.
    rewrite Z.add_0_r. reflexivity.
  - destruct (Z.ltb_spec 2 (Z.of_nat (S (length body)) + 2)); [|lia].
    rewrite read_app_middle. cbn [mbind option_bind].
    cbn [backslash_free forallb] in Hfree.
    apply andb_true_iff in Hfree. destruct Hfree as [Ha Hfree].
    apply negb_true_iff in Ha. rewrite Ha.
    replace (front ++ a :: body ++ DQUOTE :: tail)
      with ((front ++ [a]) ++ body ++ DQUOTE :: tail)
      by (rewrite <- app_assoc; reflexivity).
    replace (Z.of_nat (length front) + 1)
      with (Z.of_nat (length (front ++ [a])))
      by (rewrite length_app; cbn; lia).
    replace (Z.of_nat (S (length body)) + 2 - 1)
      with (Z.of_nat (length body) + 2) by lia.
    rewrite int32_small by lia.
    rewrite IH; [|assumption | lia | lia | lia].
    cbn [store]. rewrite <- app_assoc. cbn [app].
    f_equal. f_equal. lia.
Qed.

(** Where [json_escape] and [json_unescape] do agree: on a string with
    no backslash, of less than [2 ^ 31] bytes, unescaping the escaped
    string returns its length and stores it, terminated. *)
Lemma json_unescape_escape_backslash_free (s : string) :
  backslash_free (bytes s) = true → len s < 2 ^ 31 →
  json_unescape (c_str (json_escape s)) 0 (len (json_escape s)) true
  = Some (UnescapeResult (len s) (bytes s ++ [NUL])).
Proof.
  intros Hfree Hlen.
  assert (Hbytes : c_str (json_escape s)
                   = [DQUOTE] ++ bytes s ++ DQUOTE :: [NUL]).
  { unfold c_str, json_escape. change (String DQUOTE s) with (String DQUOTE EmptyString +:+ s).
    rewrite !bytes_app, <- !app_assoc. reflexivity. }
  assert (Hsz : len (json_escape s) = Z.of_nat (length (bytes s)) + 2).
  { rewrite <- !length_bytes. unfold json_escape.
    change (String DQUOTE s) with (String DQUOTE EmptyString +:+ s).
    rewrite !bytes_app, !length_app. cbn [length bytes list_ascii_of_string].
    lia. }
  unfold json_unescape. rewrite Hbytes, Hsz.
  cbn [app read Z.ltb Z.compare Z.to_nat lookup list_lookup mbind option_bind].
  change (negb (Ascii.eqb DQUOTE DQUOTE)) with false. cbv iota.
  pose proof (json_unescape_loop_backslash_free [NUL] (bytes s) [DQUOTE] 0 []
                (S (Z.to_nat (Z.of_nat (length (bytes s)) + 2))) Hfree) as H.
  cbn [app length] in H. change (Z.of_nat 1) with (0 + 1) in H.
  rewrite H; [|lia | lia | rewrite length_bytes; lia].
  rewrite length_bytes. reflexivity.
Qed.

(** C6 fails on the code: [json_escape] escapes nothing, so a backslash
    in the string meets the closing quote in [json_unescape], which then
    fails, and a backslash before [n] comes back as a line feed. *)
Theorem json_escape_unescape_backslash :
  json_unescape (c_str (json_escape "\")) 0 (len (json_escape "\")) true
    = Some (UnescapeResult (-1) [DQUOTE])
  ∧ json_unescape (c_str (json_escape "\")) 0 (len (json_escape "\")) false
    = Some (UnescapeResult (-1) [])
  ∧ json_unescape (c_str (json_escape "\n")) 0 (len (json_escape "\n")) true
    = Some (UnescapeResult 1 ["010"%char; NUL]).
Proof. vm_compute. repeat split; reflexivity. Qed.

(** ** The URL codec and [navigate] *)

Lemma append_assoc (t u v : string) : (t +:+ u) +:+ v = t +:+ u +:+ v.
Proof.
  induction t as [|a t IH]; [reflexivity|].
  change (String a ((t +:+ u) +:+ v) = String a (t +:+ u +:+ v)).
  f_equal. exact IH.
Qed.

Lemma append_empty (t : string) : t +:+ "" = t.
Proof.
  induction t as [|a t IH]; [reflexivity|].
  change (String a (t +:+ "") = String a t). f_equal. exact IH.
Qed.

Lemma url_encode_fold (char_is_signed : bool) (b : buffer) (acc : string) :
  fold_left (fun encoded a => encoded +:+ url_encode_char char_is_signed a)
    b acc
  = acc +:+ fold_left
              (fun encoded a => encoded +:+ url_encode_char char_is_signed a)
              b "".
Proof.
  revert acc. induction b as [|a b IH]; intros acc; cbn [fold_left].
  - symmetry. apply append_empty.
  - rewrite IH, (IH ("" +:+ _)).
    change ("" +:+ url_encode_char char_is_signed a)
      with (url_encode_char char_is_signed a).
    apply append_assoc.
Qed.

Lemma url_encode_cons (char_is_signed : bool) (a : ascii) (s : string) :
  url_encode char_is_signed (String a s)
  = url_encode_char char_is_signed a +:+ url_encode char_is_signed s.
Proof.
  unfold url_encode. cbn [bytes list_ascii_of_string fold_left].
  rewrite url_encode_fold. reflexivity.
Qed.

(** With an unsigned plain [char] a turn of the loop appends what the
    specification says, for each of the 256 bytes. *)
Lemma url_encode_char_unsigned (a : ascii) :
  url_encode_char false a
  = if unreserved a then String a EmptyString else percent_encoded a.
Proof.
  destruct a as [[] [] [] [] [] [] [] []]; vm_compute; reflexivity.
Qed.

(** With a signed plain [char] it does so for the bytes below 128. *)
Lemma url_encode_char_ascii (a : ascii) :
  ord a < 128 →
  url_encode_char true a
  = if unreserved a then String a EmptyString else percent_encoded a.
Proof.
  destruct a as [[] [] [] [] [] [] [] []]; intros Hlow;
    (vm_compute; reflexivity) || (exfalso; vm_compute in Hlow; discriminate).
Qed.

(** ... and appends [%ff] for every byte from 128 on. *)
Lemma url_encode_char_signed_high (a : ascii) :
  128 ≤ ord a → url_encode_char true a = "%ff".
Proof.
  destruct a as [[] [] [] [] [] [] [] []]; intros Hhigh;
    (vm_compute; reflexivity) || (exfalso; vm_compute in Hhigh; apply Hhigh; reflexivity).
Qed.

(** Where [url_encode] meets C7: on every string when plain [char] is
    unsigned, and on the strings of bytes below 128 when it is signed. *)
Lemma url_encode_spec (char_is_signed : bool) (s : string) :
  char_is_signed = false ∨ Forall (fun a => ord a < 128) (bytes s) →
  url_encode char_is_signed s = url_encoded s.
Proof.
  intros Hcase. induction s as [|a s IH]; [reflexivity|].
  rewrite url_encode_cons. cbn [url_encoded]. rewrite IH.
  - f_equal. destruct Hcase as [->|Hlow].
    + apply url_encode_char_unsigned.
    + destruct char_is_signed; [|apply url_encode_char_unsigned].
      apply url_encode_char_ascii.
      cbn [bytes list_ascii_of_string] in Hlow.
      apply (Forall_inv Hlow).
  - destruct Hcase as [->|Hlow]; [left; reflexivity|right].
    cbn [bytes list_ascii_of_string] in Hlow. apply (Forall_inv_tail Hlow).
Qed.

(** C7 fails on the code where plain [char] is signed: the byte 233, a
    negative [int] once promoted, is printed as [ffffffe9] and cut to
    [%ff], where its two digits are [e9]. With an unsigned plain [char]
    the same byte is encoded as C7 says. *)
Theorem url_encode_high_byte_signed :
  url_encode true (String "233" "<p>") = "%ff%3cp%3e"
  ∧ url_encoded (String "233" "<p>") = "%e9%3cp%3e"
  ∧ url_encode false (String "233" "<p>") = "%e9%3cp%3e".
Proof. vm_compute. repeat split; reflexivity. Qed.

(** C10, the part that holds: [navigate] loads the greeting page for the
    empty URL; for a URL with the prefix [data:text/html,] whose
    remainder [url_decode] turns into a non-empty text, it loads the
    prefix followed by [url_encode] of that text; when [url_decode] turns
    the remainder into the empty text, and for every other URL, it loads
    the URL as given. *)
Theorem navigate_rewrites {binding_t void_ptr : Type}
    (char_is_signed : bool) (url : string) (w : webview binding_t void_ptr) :
  (url = "" →
   navigate char_is_signed url w
   = Some (loads ("data:text/html," +:+
                  url_encode char_is_signed "<html><body>Hello</body></html>")
             w))
  ∧ (url ≠ "" → substr url 0 15 = "data:text/html," →
     ∀ html, url_decode (substr_from url 15) = Some html →
       navigate char_is_signed url w
       = Some (loads (if decide (html = "") then url
                      else "data:text/html," +:+ url_encode char_is_signed html)
                 w))
  ∧ (url ≠ "" → substr url 0 15 ≠ "data:text/html," →
     navigate char_is_signed url w = Some (loads url w)).
Proof.
  unfold navigate, html_from_uri, loads. repeat split.
  - intros ->. reflexivity.
  - intros Hne Hprefix html Hdecode.
    destruct (decide (url = "")) as [|_]; [contradiction|].
    destruct (decide (substr url 0 15 = "data:text/html,")) as [_|];
      [|contradiction].
    rewrite Hdecode. cbn [mbind option_bind].
    destruct (decide (html = "")) as [->|Hhtml].
    + destruct (decide ("" ≠ "")) as [Habs|_]; [contradiction|reflexivity].
    + destruct (decide (html ≠ "")) as [_|Habs]; [reflexivity|contradiction].
  - intros Hne Hprefix.
    destruct (decide (url = "")) as [|_]; [contradiction|].
    destruct (decide (substr url 0 15 = "data:text/html,")) as [|_];
      [contradiction|].
    cbn [mbind option_bind].
    destruct (decide ("" ≠ "")) as [Habs|_]; [contradiction|reflexivity].
Qed.

(** C10 at a concrete URL: an encoded page. *)
Lemma navigate_rewrites_witness :
  let url := "data:text/html,%3Cp%3Ea+b%3C/p%3E" in
  url ≠ "" ∧ substr url 0 15 = "data:text/html,"
  ∧ url_decode (substr_from url 15) = Some "<p>a b</p>"
  ∧ navigate true url (@webview_create nat Z)
    = Some (loads "data:text/html,%3cp%3ea%20b%3c%2fp%3e" webview_create).
Proof.
  cbn zeta.
  assert (Hne : "data:text/html,%3Cp%3Ea+b%3C/p%3E" ≠ "") by discriminate.
  assert (Hprefix : substr "data:text/html,%3Cp%3Ea+b%3C/p%3E" 0 15
                    = "data:text/html,") by reflexivity.
  assert (Hdecode : url_decode (substr_from "data:text/html,%3Cp%3Ea+b%3C/p%3E" 15)
                    = Some "<p>a b</p>") by (vm_compute; reflexivity).
  split; [exact Hne|]. split; [exact Hprefix|]. split; [exact Hdecode|].
  exact (proj1 (proj2 (navigate_rewrites true _ webview_create))
           Hne Hprefix _ Hdecode).
Defined.

(** C10 as stated fails where [url_decode] turns a non-empty remainder
    into the empty text, which it does when the remainder starts with a
    NUL byte: [navigate] then loads the URL as given, not the bare
    prefix. *)
Lemma navigate_nul_remainder :
  let url := "data:text/html," +:+ String NUL "<p>" in
  substr url 0 15 = "data:text/html,"
  ∧ url_decode (substr_from url 15) = Some ""
  ∧ navigate true url (@webview_create nat Z)
    = Some (loads url webview_create)
  ∧ url ≠ "data:text/html," +:+ url_encode true "".
Proof. vm_compute. repeat split; discriminate || reflexivity. Qed.

(** * Further properties of the code *)

(** ** [hex2nibble], [hex2char], [url_decode], [html_from_uri] *)

Lemma hex_digits_of_byte (a : ascii) :
  chr (hex2nibble (ord (hex_digit (ord a / 16))) * 16
       + hex2nibble (ord (hex_digit (ord a mod 16)))) = a
  ∧ chr (hex2nibble (ord (upper_hex_digit (ord a / 16))) * 16
         + hex2nibble (ord (upper_hex_digit (ord a mod 16)))) = a.
Proof.
  destruct a as [[] [] [] [] [] [] [] []]; vm_compute; split; reflexivity.
Qed.

Lemma hex2char_lower_digits (a : ascii) (front rest : buffer) :
  hex2char (front ++ hex_digit (ord a / 16) :: hex_digit (ord a mod 16)
                     :: rest) (Z.of_nat (length front)) = Some a.
Proof.
  unfold hex2char. rewrite !read_app_middle, !read_app_next.
  cbn [mbind option_bind].
  destruct (hex_digits_of_byte a) as [-> _]. reflexivity.
Qed.

(** X1: [hex2char] gives back every byte from its two hexadecimal
    digits, lower-case as [url_encode] prints them or upper-case,
    wherever they stand in the buffer. *)
Theorem hex2char_two_digits (a : ascii) (front rest : buffer) :
  hex2char (front ++ hex_digit (ord a / 16) :: hex_digit (ord a mod 16)
                     :: rest) (Z.of_nat (length front)) = Some a
  ∧ hex2char (front ++ upper_hex_digit (ord a / 16)
                       :: upper_hex_digit (ord a mod 16) :: rest)
      (Z.of_nat (length front)) = Some a.
Proof.
  unfold hex2char. rewrite !read_app_middle, !read_app_next.
  cbn [mbind option_bind].
  destruct (hex_digits_of_byte a) as [-> ->]. split; reflexivity.
Qed.

Lemma strlen_app_nul (b t : buffer) :
  forallb (fun a => negb (Ascii.eqb a NUL)) b = true →
  strlen (b ++ NUL :: t) = Some (Z.of_nat (length b)).
Proof.
  induction b as [|a b IH]; intros Hfree; [reflexivity|].
  cbn [forallb] in Hfree. apply andb_true_iff in Hfree.
  destruct Hfree as [Ha Hfree]. apply negb_true_iff in Ha.
  cbn [app strlen length]. rewrite Ha, (IH Hfree). cbn. f_equal. lia.
Qed.

Lemma uint32_small (z : Z) : 0 ≤ z < 2 ^ 32 → uint32 z = z.
Proof. intros Hz. unfold uint32. apply Z.mod_small. exact Hz. Qed.

(** A byte that [url_encode] copies is no percent sign, no plus sign and
    no NUL byte; the digits it prints are no NUL bytes either. *)
Lemma unreserved_plain (a : ascii) :
  unreserved a = true →
  Ascii.eqb a "%" = false ∧ Ascii.eqb a "+" = false
  ∧ Ascii.eqb a NUL = false.
Proof.
  destruct a as [[] [] [] [] [] [] [] []]; intros Hu;
    (vm_compute in Hu; discriminate) || (repeat split; reflexivity).
Qed.

Lemma hex_digit_not_nul (a : ascii) :
  Ascii.eqb (hex_digit (ord a / 16)) NUL = false
  ∧ Ascii.eqb (hex_digit (ord a mod 16)) NUL = false.
Proof.
  destruct a as [[] [] [] [] [] [] [] []]; vm_compute; split; reflexivity.
Qed.

Lemma url_encoded_cons (a : ascii) (t : string) :
  bytes (url_encoded (String a t))
  = (if unreserved a then [a]
     else ["%"%char; hex_digit (ord a / 16); hex_digit (ord a mod 16)])
    ++ bytes (url_encoded t).
Proof.
  cbn [url_encoded]. rewrite bytes_app. destruct (unreserved a); reflexivity.
Qed.

Lemma url_encoded_no_nul (s : string) :
  forallb (fun a => negb (Ascii.eqb a NUL)) (bytes (url_encoded s)) = true.
Proof.
  induction s as [|a s IH]; [reflexivity|].
  rewrite url_encoded_cons, forallb_app, IH, andb_true_r.
  destruct (unreserved a) eqn:Hu.
  - destruct (unreserved_plain a Hu) as (_ & _ & Hnul).
    cbn [forallb]. rewrite Hnul. reflexivity.
  - destruct (hex_digit_not_nul a) as [H1 H2].
    cbn [forallb]. rewrite H1, H2. reflexivity.
Qed.

Lemma url_decode_loop_encoded (tail : buffer) (rest : string) :
  ∀ (front : buffer) (decoded : string) (fuel : nat),
    (length (bytes (url_encoded rest)) < fuel)%nat →
    Z.of_nat (length front + length (bytes (url_encoded rest))) + 2 < 2 ^ 32 →
    url_decode_loop fuel (front ++ bytes (url_encoded rest) ++ tail)
      (Z.of_nat (length front + length (bytes (url_encoded rest))))
      (Z.of_nat (length front)) decoded
    = Some (decoded +:+ rest).
Proof.
  induction rest as [|a rest IH]; intros front decoded fuel Hfuel Hmax;
    (destruct fuel as [|fuel]; [lia|]); cbn [url_decode_loop].
  - cbn [url_encoded bytes list_ascii_of_string length] in *.
    rewrite Nat.add_0_r, Z.ltb_irrefl, append_empty. reflexivity.
  - rewrite url_encoded_cons in *.
    destruct (unreserved a) eqn:Hu; cbn [app length] in *.
    + destruct (unreserved_plain a Hu) as (Hpct & Hplus & _).
      destruct (Z.ltb_spec (Z.of_nat (length front))
                  (Z.of_nat (length front
                             + S (length (bytes (url_encoded rest))))));
        [|lia].
      rewrite read_app_middle. cbn [mbind option_bind].
      rewrite Hpct, Hplus.
      rewrite uint32_small by lia.
      replace (front ++ a :: bytes (url_encoded rest) ++ tail)
        with ((front ++ [a]) ++ bytes (url_encoded rest) ++ tail)
        by (rewrite <- app_assoc; reflexivity).
      replace (Z.of_nat (length front) + 1)
        with (Z.of_nat (length (front ++ [a])))
        by (rewrite length_app; cbn; lia).
      replace (length front + S (length (bytes (url_encoded rest))))%nat
        with (length (front ++ [a]) + length (bytes (url_encoded rest)))%nat
        by (rewrite length_app; cbn; lia).
      rewrite IH; [| lia | rewrite length_app; cbn [length]; lia].
      rewrite append_assoc. reflexivity.
    + destruct (Z.ltb_spec (Z.of_nat (length front))
                  (Z.of_nat (length front
                             + S (S (S (length (bytes (url_encoded rest))))))));
        [|lia].
      rewrite read_app_middle. cbn [mbind option_bind].
      change (Ascii.eqb "%" "%") with true. cbv iota.
      pose proof (hex2char_lower_digits a (front ++ ["%"%char])
                    (bytes (url_encoded rest) ++ tail)) as Hhex.
      rewrite <- app_assoc in Hhex. cbn [app] in Hhex.
      replace (Z.of_nat (length (front ++ ["%"%char])))
        with (Z.of_nat (length front) + 1) in Hhex
        by (rewrite length_app; cbn; lia).
      rewrite Hhex. cbn [mbind option_bind].
      rewrite (uint32_small (Z.of_nat (length front) + 2)) by lia.
      rewrite uint32_small by lia.
      set (h1 := hex_digit (ord a / 16)). set (h2 := hex_digit (ord a mod 16)).
      replace (front ++ "%"%char :: h1 :: h2 :: bytes (url_encoded rest) ++ tail)
        with ((front ++ ["%"%char; h1; h2]) ++ bytes (url_encoded rest) ++ tail)
        by (rewrite <- app_assoc; reflexivity).
      replace (Z.of_nat (length front) + 2 + 1)
        with (Z.of_nat (length (front ++ ["%"%char; h1; h2])))
        by (rewrite length_app; cbn; lia).
      replace (length front + S (S (S (length (bytes (url_encoded rest))))))%nat
        with (length (front ++ ["%"%char; h1; h2])
              + length (bytes (url_encoded rest)))%nat
        by (rewrite length_app; cbn; lia).
      rewrite IH; [| lia | rewrite length_app; cbn [length]; lia].
      rewrite append_assoc. reflexivity.
Qed.

Lemma url_decode_url_encoded (s : string) :
  len (url_encoded s) + 2 < 2 ^ 32 → url_decode (url_encoded s) = Some s.
Proof.
  intros Hlen. unfold url_decode, c_str.
  rewrite strlen_app_nul by apply url_encoded_no_nul.
  cbn [mbind option_bind]. rewrite <- length_bytes in Hlen.
  pose proof (url_decode_loop_encoded [NUL] s [] ""
                (S (Z.to_nat (Z.of_nat (length (bytes (url_encoded s))))))) as H.
  cbn [app length Nat.add] in H. change (Z.of_nat 0) with 0 in H.
  rewrite H; [reflexivity | lia | lia].
Qed.

(** X2: [url_decode] undoes [url_encode]: wherever [url_encode] encodes
    as specified (plain [char] unsigned, or every byte below 128) and the
    encoded text is shorter than [2 ^ 32 - 2] bytes, decoding the encoded
    text gives the text back, NUL bytes, percent and plus signs
    included. *)
Theorem url_decode_url_encode (char_is_signed : bool) (s : string) :
  char_is_signed = false ∨ Forall (fun a => ord a < 128) (bytes s) →
  len (url_encode char_is_signed s) + 2 < 2 ^ 32 →
  url_decode (url_encode char_is_signed s) = Some s.
Proof.
  intros Hcase. rewrite (url_encode_spec _ _ Hcase).
  apply url_decode_url_encoded.
Qed.

(** X2 at a concrete text with reserved, high and NUL bytes. *)
Lemma url_decode_url_encode_witness :
  let s := "<p>100% a+b" +:+ String "233" (String NUL "</p>") in
  url_decode (url_encode false s) = Some s.
Proof.
  cbn zeta. apply url_decode_url_encode; [left; reflexivity|].
  vm_compute. reflexivity.
Defined.

Lemma std_string_bytes (s : string) : std_string (bytes s) = s.
Proof. apply string_of_list_ascii_of_string. Qed.

Lemma bytes_std_string (b : buffer) : bytes (std_string b) = b.
Proof. apply list_ascii_of_string_of_list_ascii. Qed.

Lemma substr_prefix (p x : string) :
  substr (p +:+ x) 0 (length (bytes p)) = p.
Proof.
  unfold substr. rewrite bytes_app, drop_0, take_app_length. apply std_string_bytes.
Qed.

Lemma substr_from_prefix (p x : string) :
  substr_from (p +:+ x) (length (bytes p)) = x.
Proof.
  unfold substr_from. rewrite bytes_app, drop_app_length.
  apply std_string_bytes.
Qed.

Lemma html_from_uri_data (x : string) :
  html_from_uri ("data:text/html," +:+ x) = url_decode x.
Proof.
  unfold html_from_uri.
  assert (H1 : substr ("data:text/html," +:+ x) 0 15 = "data:text/html,")
    by exact (substr_prefix "data:text/html," _).
  assert (H2 : substr_from ("data:text/html," +:+ x) 15 = x)
    by exact (substr_from_prefix "data:text/html," _).
  rewrite H1, H2.
  destruct (decide ("data:text/html," = "data:text/html,")) as [_|Hne];
    [reflexivity | contradiction].
Qed.

(** X3: [html_from_uri] gives back the page of a data URI that was built
    with [url_encode], under the conditions of the round trip. *)
Theorem html_from_uri_url_encode (char_is_signed : bool) (html : string) :
  char_is_signed = false ∨ Forall (fun a => ord a < 128) (bytes html) →
  len (url_encode char_is_signed html) + 2 < 2 ^ 32 →
  html_from_uri ("data:text/html," +:+ url_encode char_is_signed html)
  = Some html.
Proof.
  intros Hcase. rewrite html_from_uri_data, (url_encode_spec _ _ Hcase).
  apply url_decode_url_encoded.
Qed.

(** X3 at a concrete page. *)
Lemma html_from_uri_url_encode_witness :
  html_from_uri ("data:text/html," +:+ url_encode true "<b>a+b = 100%</b>")
  = Some "<b>a+b = 100%</b>".
Proof.
  apply html_from_uri_url_encode; [right|vm_compute; reflexivity].
  apply Forall_forall. intros a Ha.
  apply list_elem_of_In in Ha. cbn in Ha.
  repeat (destruct Ha as [<-|Ha]; [vm_compute; reflexivity|]).
  contradiction.
Defined.

(** X4: a data URI that [navigate] has built is stable: navigating to
    the prefix followed by [url_encode] of a page loads that very URI. In
    particular the URI that [navigate] loads for the empty URL is loaded
    unchanged when it is navigated to. *)
Theorem navigate_encoded_stable {binding_t void_ptr : Type}
    (char_is_signed : bool) (html : string)
    (w : webview binding_t void_ptr) :
  char_is_signed = false ∨ Forall (fun a => ord a < 128) (bytes html) →
  len (url_encode char_is_signed html) + 2 < 2 ^ 32 →
  navigate char_is_signed
    ("data:text/html," +:+ url_encode char_is_signed html) w
  = Some (loads ("data:text/html," +:+ url_encode char_is_signed html) w).
Proof.
  intros Hcase Hlen. unfold navigate.
  destruct (decide ("data:text/html," +:+ url_encode char_is_signed html = ""))
    as [Habs|_]; [discriminate|].
  assert (Hdec : url_decode (url_encode char_is_signed html) = Some html).
  { rewrite (url_encode_spec _ _ Hcase) in Hlen |- *.
    exact (url_decode_url_encoded _ Hlen). }
  rewrite html_from_uri_data, Hdec.
  cbn [mbind option_bind].
  destruct (decide (html ≠ "")) as [_|Hempty]; [reflexivity|].
  destruct html; [reflexivity|]. exfalso. apply Hempty. discriminate.
Qed.

(** X4 at the greeting page: what [navigate] loads for the empty URL is
    loaded again as it is. *)
Lemma navigate_encoded_stable_witness :
  let hello := "data:text/html," +:+
               url_encode true "<html><body>Hello</body></html>" in
  navigate true "" (@webview_create nat Z) = Some (loads hello webview_create)
  ∧ navigate true hello (loads hello (@webview_create nat Z))
    = Some (loads hello (loads hello webview_create)).
Proof.
  cbn zeta. split; [reflexivity|].
  apply navigate_encoded_stable; [right|vm_compute; reflexivity].
  apply Forall_forall. intros a Ha.
  apply list_elem_of_In in Ha. cbn in Ha.
  repeat (destruct Ha as [<-|Ha]; [vm_compute; reflexivity|]).
  contradiction.
Defined.

(** The loop of [url_decode] over bytes that are neither percent signs
    nor NUL bytes: each is stored, a plus sign as a space. *)
Lemma url_decode_loop_plain (rest : buffer) (length : Z) (body : buffer) :
  ∀ (front : buffer) (decoded : string) (fuel : nat),
    forallb plain_url_byte body = true →
    Z.of_nat (List.length front + List.length body) ≤ length < 2 ^ 32 →
    url_decode_loop (List.length body + fuel) (front ++ body ++ rest) length
      (Z.of_nat (List.length front)) decoded
    = url_decode_loop fuel (front ++ body ++ rest) length
        (Z.of_nat (List.length front + List.length body))
        (decoded +:+ std_string (map plus_to_space body)).
Proof.
  induction body as [|a body IH]; intros front decoded fuel Hplain Hlen.
  - cbn. rewrite Nat.add_0_r, append_empty. reflexivity.
  - cbn [List.length Nat.add url_decode_loop app] in *.
    cbn [forallb] in Hplain. apply andb_true_iff in Hplain.
    destruct Hplain as [Ha Hplain]. unfold plain_url_byte in Ha.
    apply andb_true_iff in Ha. destruct Ha as [Hpct Hnul].
    apply negb_true_iff in Hpct.
    destruct (Z.ltb_spec (Z.of_nat (List.length front)) length); [|lia].
    rewrite read_app_middle. cbn [mbind option_bind]. rewrite Hpct.
    rewrite uint32_small by lia.
    replace (front ++ a :: body ++ rest) with ((front ++ [a]) ++ body ++ rest)
      by (rewrite <- app_assoc; reflexivity).
    replace (Z.of_nat (List.length front) + 1)
      with (Z.of_nat (List.length (front ++ [a])))
      by (rewrite length_app; cbn; lia).
    replace (List.length front + S (List.length body))%nat
      with (List.length (front ++ [a]) + List.length body)%nat
      by (rewrite length_app; cbn; lia).
    cbn [map]. change (std_string (plus_to_space a :: map plus_to_space body))
      with (String (plus_to_space a) (std_string (map plus_to_space body))).
    destruct (Ascii.eqb a "+") eqn:Hplus;
      (rewrite IH; [| assumption | rewrite length_app; cbn [List.length]; lia]);
      rewrite append_assoc; unfold plus_to_space at 2; rewrite Hplus;
      reflexivity.
Qed.

Lemma plain_url_no_nul (b : buffer) :
  forallb plain_url_byte b = true →
  forallb (fun a => negb (Ascii.eqb a NUL)) b = true.
Proof.
  induction b as [|a b IH]; [reflexivity|]. cbn [forallb].
  intros H. apply andb_true_iff in H. destruct H as [Ha Hb].
  unfold plain_url_byte in Ha. apply andb_true_iff in Ha.
  destruct Ha as [_ ->]. apply IH. exact Hb.
Qed.

(** X5: on a text with no percent sign and no NUL byte, shorter than
    [2 ^ 32] bytes, [url_decode] returns the text with every plus sign
    turned into a space; and it stops at the first NUL byte, whatever
    follows it. *)
Theorem url_decode_plain (s t : string) :
  forallb plain_url_byte (bytes s) = true → len s < 2 ^ 32 →
  url_decode s = Some (std_string (map plus_to_space (bytes s)))
  ∧ url_decode (s +:+ String NUL t)
    = Some (std_string (map plus_to_space (bytes s))).
Proof.
  intros Hplain Hlen. rewrite <- length_bytes in Hlen.
  assert (Hnul : forallb (fun a => negb (Ascii.eqb a NUL)) (bytes s) = true).
  { apply plain_url_no_nul. assumption. }
  assert (Hloop : ∀ rest,
    url_decode_loop (S (Z.to_nat (Z.of_nat (length (bytes s)))))
      (bytes s ++ rest) (Z.of_nat (length (bytes s))) 0 ""
    = Some (std_string (map plus_to_space (bytes s)))).
  { intros rest.
    pose proof (url_decode_loop_plain rest (Z.of_nat (length (bytes s)))
                  (bytes s) [] "" 1%nat Hplain) as H.
    cbn [app List.length Nat.add] in H. change (Z.of_nat 0) with 0 in H.
    rewrite Nat2Z.id. replace (S (length (bytes s))) with (length (bytes s) + 1)%nat
      by lia.
    rewrite H by lia. cbn [url_decode_loop]. rewrite Z.ltb_irrefl. reflexivity. }
  split.
  - unfold url_decode, c_str. rewrite strlen_app_nul by assumption.
    cbn [mbind option_bind]. apply Hloop.
  - unfold url_decode, c_str. rewrite bytes_app, <- app_assoc.
    cbn [bytes list_ascii_of_string app].
    rewrite strlen_app_nul by assumption.
    cbn [mbind option_bind]. apply Hloop.
Qed.

(** X5 at a concrete text. *)
Lemma url_decode_plain_witness :
  url_decode "a+b c" = Some "a b c"
  ∧ url_decode ("a+b c" +:+ String NUL "%41") = Some "a b c".
Proof.
  apply (url_decode_plain "a+b c" "%41"); [reflexivity | vm_compute; reflexivity].
Defined.

Lemma url_decode_app (s u : string) :
  forallb (fun a => negb (Ascii.eqb a NUL)) (bytes s) = true →
  forallb (fun a => negb (Ascii.eqb a NUL)) (bytes u) = true →
  url_decode (s +:+ u)
  = url_decode_loop (S (length (bytes s) + length (bytes u)))
      ([] ++ bytes s ++ bytes u ++ [NUL])
      (Z.of_nat (length (bytes s) + length (bytes u))) (Z.of_nat 0) "".
Proof.
  intros Hs Hu. unfold url_decode, c_str. rewrite bytes_app.
  rewrite strlen_app_nul by (rewrite forallb_app, Hs, Hu; reflexivity).
  cbn [mbind option_bind app]. rewrite length_app, Nat2Z.id, <- app_assoc.
  reflexivity.
Qed.

Lemma url_decode_loop_step (fuel : nat) (s : buffer) (length i : Z)
    (decoded : string) :
  url_decode_loop (S fuel) s length i decoded
  = if i <? length then
      c ← read s i;
      if Ascii.eqb c "%" then
        h ← hex2char s (i + 1);
        url_decode_loop fuel s length (uint32 (uint32 (i + 2) + 1))
          (decoded +:+ String h EmptyString)
      else if Ascii.eqb c "+" then
        url_decode_loop fuel s length (uint32 (i + 1)) (decoded +:+ " ")
      else
        url_decode_loop fuel s length (uint32 (i + 1))
          (decoded +:+ String c EmptyString)
    else Some decoded.
Proof. reflexivity. Qed.

(** X6: an escape cut short by the end of the text. After a text with no
    percent sign and no NUL byte, a percent sign as the last byte makes
    [url_decode] read behind the terminator (no result); a percent sign
    with one byte after it takes the terminator for the second digit, so
    that byte alone gives the high half of the decoded byte. *)
Theorem url_decode_cut_escape (s : string) (c : ascii) :
  forallb plain_url_byte (bytes s) = true → len s + 4 < 2 ^ 32 →
  Ascii.eqb c NUL = false →
  url_decode (s +:+ "%") = None
  ∧ url_decode (s +:+ String "%" (String c ""))
    = Some (std_string (map plus_to_space (bytes s))
            +:+ String (chr (hex2nibble (ord c) * 16)) "").
Proof.
  intros Hplain Hlen Hc. rewrite <- length_bytes in Hlen.
  pose proof (plain_url_no_nul _ Hplain) as Hnul.
  split.
  - rewrite url_decode_app; [|assumption|reflexivity].
    change (bytes "%") with ["%"%char]. cbn [length app].
    replace (S (length (bytes s) + 1)) with (length (bytes s) + 2)%nat by lia.
    change (bytes s ++ ["%"%char; NUL])
      with ([] ++ bytes s ++ ["%"%char; NUL]).
    change (Z.of_nat 0) with (Z.of_nat (length (@nil ascii))).
    rewrite (url_decode_loop_plain ["%"%char; NUL] _ (bytes s) [] "" 2%nat
               Hplain) by (cbn [length]; lia).
    cbn [app length Nat.add]. rewrite url_decode_loop_step.
    destruct (Z.ltb_spec (Z.of_nat (length (bytes s)))
                (Z.of_nat (length (bytes s) + 1))); [|lia].
    rewrite read_app_middle. cbn [mbind option_bind].
    change (Ascii.eqb "%" "%") with true. cbv iota.
    unfold hex2char. rewrite read_app_next. cbn [mbind option_bind].
    unfold read.
    destruct (Z.ltb_spec (Z.of_nat (length (bytes s)) + 1 + 1) 0); [lia|].
    rewrite lookup_ge_None_2; [reflexivity|].
    rewrite length_app. cbn [length]. lia.
  - rewrite url_decode_app;
      [|assumption|cbn [bytes list_ascii_of_string forallb]; rewrite Hc;
                   reflexivity].
    change (bytes (String "%" (String c ""))) with ["%"%char; c].
    cbn [length app].
    replace (S (length (bytes s) + 2)) with (length (bytes s) + 3)%nat by lia.
    change (bytes s ++ ["%"%char; c; NUL])
      with ([] ++ bytes s ++ ["%"%char; c; NUL]).
    change (Z.of_nat 0) with (Z.of_nat (length (@nil ascii))).
    rewrite (url_decode_loop_plain ["%"%char; c; NUL] _ (bytes s) [] "" 3%nat
               Hplain) by (cbn [length]; lia).
    cbn [app length Nat.add]. rewrite url_decode_loop_step.
    destruct (Z.ltb_spec (Z.of_nat (length (bytes s)))
                (Z.of_nat (length (bytes s) + 2))); [|lia].
    rewrite read_app_middle. cbn [mbind option_bind].
    change (Ascii.eqb "%" "%") with true. cbv iota.
    unfold hex2char. rewrite read_app_next. cbn [mbind option_bind].
    replace (bytes s ++ "%"%char :: c :: [NUL])
      with ((bytes s ++ ["%"%char]) ++ c :: NUL :: [])
      by (rewrite <- app_assoc; reflexivity).
    replace (Z.of_nat (length (bytes s)) + 1 + 1)
      with (Z.of_nat (length (bytes s ++ ["%"%char])) + 1)
      by (rewrite length_app; cbn [length]; lia).
    rewrite read_app_next. cbn [mbind option_bind].
    rewrite (uint32_small (Z.of_nat (length (bytes s)) + 2)) by lia.
    rewrite uint32_small by lia.
    rewrite url_decode_loop_step.
    destruct (Z.ltb_spec (Z.of_nat (length (bytes s)) + 2 + 1)
                (Z.of_nat (length (bytes s) + 2))); [lia|].
    change (hex2nibble (ord NUL)) with 0. rewrite Z.add_0_r. reflexivity.
Qed.

(** X6 at concrete texts. *)
Lemma url_decode_cut_escape_witness :
  url_decode "50%" = None ∧ url_decode "50%4" = Some "50@".
Proof.
  apply (url_decode_cut_escape "50" "4");
    [reflexivity | vm_compute; reflexivity | reflexivity].
Defined.

(** ** [json_unescape] *)

Lemma json_unescape_loop_unescaped (out : bool) (tail : buffer) (k : nat) :
  ∀ (body front : buffer) (r : Z) (written : buffer) (fuel : nat),
    (length body ≤ k)%nat → escape_closed body = true →
    (length body < fuel)%nat → 0 ≤ r → r + Z.of_nat (length body) < 2 ^ 31 →
    ∃ u, json_unescape_loop fuel (front ++ body ++ DQUOTE :: tail)
           (Z.of_nat (length front)) (Z.of_nat (length body) + 2) r out written
         = Some u
         ∧ match unescaped body with
           | Some d =>
               u = UnescapeResult (r + Z.of_nat (length d))
                     (if out then written ++ d ++ [NUL] else written)
           | None => u_code u = -1
           end.
Proof.
  induction k as [|k IH];
    intros body front r written fuel Hk Hclosed Hfuel Hr Hmax.
  - destruct body; [|cbn in Hk; lia].
    destruct fuel as [|fuel]; [cbn in Hfuel; lia|].
    cbn [json_unescape_loop app length unescaped].
    change (2 <? Z.of_nat 0 + 2) with false. cbv iota.
    rewrite read_app_middle. cbn [mbind option_bind].
    change (negb (Ascii.eqb DQUOTE DQUOTE)) with false. cbv iota.
    eexists. split; [reflexivity|]. rewrite Z.add_0_r.
    destruct out; reflexivity.
  - destruct body as [|a body].
    { apply (IH [] front r written fuel); [cbn; lia | assumption..]. }
    destruct fuel as [|fuel]; [cbn in Hfuel; lia|].
    cbn [json_unescape_loop app length escape_closed unescaped] in *.
    destruct (Z.ltb_spec 2 (Z.of_nat (S (length body)) + 2)); [|lia].
    rewrite read_app_middle. cbn [mbind option_bind].
    destruct (Ascii.eqb a BACKSLASH) eqn:Ha.
    + destruct body as [|e body]; [discriminate|].
      cbn [app]. rewrite read_app_next. cbn [mbind option_bind].
      destruct (unescape_char e) as [c1|]; [|eexists; split; reflexivity].
      replace (front ++ a :: e :: body ++ DQUOTE :: tail)
        with ((front ++ [a; e]) ++ body ++ DQUOTE :: tail)
        by (rewrite <- app_assoc; reflexivity).
      replace (Z.of_nat (length front) + 1 + 1)
        with (Z.of_nat (length (front ++ [a; e])))
        by (rewrite length_app; cbn; lia).
      cbn [length] in *.
      replace (Z.of_nat (S (S (length body))) + 2 - 1 - 1)
        with (Z.of_nat (length body) + 2) by lia.
      rewrite int32_small by lia.
      destruct (IH body (front ++ [a; e]) (r + 1) (store out written c1) fuel)
        as [u [Hu Hspec]]; [lia | assumption | lia | lia | lia |].
      exists u. split; [exact Hu|].
      destruct (unescaped body) as [d|]; [|exact Hspec].
      cbn [fmap option_fmap option_map length]. rewrite Hspec.
      f_equal; [lia|]. destruct out; cbn [store]; [|reflexivity].
      rewrite <- app_assoc. reflexivity.
    + replace (front ++ a :: body ++ DQUOTE :: tail)
        with ((front ++ [a]) ++ body ++ DQUOTE :: tail)
        by (rewrite <- app_assoc; reflexivity).
      replace (Z.of_nat (length front) + 1)
        with (Z.of_nat (length (front ++ [a])))
        by (rewrite length_app; cbn; lia).
      replace (Z.of_nat (S (length body)) + 2 - 1)
        with (Z.of_nat (length body) + 2) by lia.
      rewrite int32_small by lia.
      destruct (IH body (front ++ [a]) (r + 1) (store out written a) fuel)
        as [u [Hu Hspec]]; [lia | assumption | lia | lia | lia |].
      exists u. split; [exact Hu|].
      destruct (unescaped body) as [d|]; [|exact Hspec].
      cbn [fmap option_fmap option_map length]. rewrite Hspec.
      f_equal; [lia|]. destruct out; cbn [store]; [|reflexivity].
      rewrite <- app_assoc. reflexivity.
Qed.

(** X7: what [json_unescape] computes. On a quoted buffer whose body
    splits into whole tokens and is shorter than [2 ^ 31 - 2] bytes, it
    returns the length of the text the body stands for and, when given an
    output, stores that text and a terminator; it returns the failure
    code exactly when the body holds a backslash before a byte that is
    none of [b f n r t \ /] and the quotation mark. What follows the
    closing quote is not looked at. *)
Theorem json_unescape_unescaped (body tail : buffer) (out : bool) :
  escape_closed body = true → Z.of_nat (length body) + 2 < 2 ^ 31 →
  ∃ u, json_unescape (DQUOTE :: body ++ DQUOTE :: tail) 0
         (Z.of_nat (length body) + 2) out = Some u
       ∧ match unescaped body with
         | Some d =>
             u = UnescapeResult (Z.of_nat (length d))
                   (if out then d ++ [NUL] else [])
         | None => u_code u = -1
         end.
Proof.
  intros Hclosed Hmax. unfold json_unescape.
  cbn [read Z.ltb Z.compare Z.to_nat lookup list_lookup mbind option_bind].
  change (negb (Ascii.eqb DQUOTE DQUOTE)) with false. cbv iota.
  destruct (json_unescape_loop_unescaped out tail (length body) body [DQUOTE]
              0 [] (S (Z.to_nat (Z.of_nat (length body) + 2))))
    as [u [Hu Hspec]]; [lia | assumption | lia | lia | lia |].
  exists u. split; [exact Hu|].
  destruct (unescaped body) as [d|]; [|exact Hspec].
  rewrite Hspec. reflexivity.
Qed.

(** X7 at a concrete string, with every known escape. *)
Lemma json_unescape_unescaped_witness :
  let body := bytes (json_text "a\b\f\n\r\t\\\/\'z") in
  json_unescape (DQUOTE :: body ++ DQUOTE :: [NUL]) 0
    (Z.of_nat (length body) + 2) true
  = Some (UnescapeResult 10
            ["a"; "008"; "012"; "010"; "013"; "009"; BACKSLASH; "/"; DQUOTE;
             "z"; NUL]%char).
Proof.
  cbn zeta.
  destruct (json_unescape_unescaped (bytes (json_text "a\b\f\n\r\t\\\/\'z"))
              [NUL] true eq_refl) as [u [Hu Hspec]];
    [vm_compute; reflexivity|].
  rewrite Hu. f_equal. exact Hspec.
Defined.

Lemma json_unescape_loop_dry_run (m : buffer) (fuel : nat) :
  ∀ (s n r : Z) (written : buffer),
    0 ≤ r → r + Z.max 0 (n - 2) < 2 ^ 31 → Z.of_nat (length written) = r →
    match json_unescape_loop fuel m s n r false [],
          json_unescape_loop fuel m s n r true written with
    | Some u0, Some u1 =>
        u_code u0 = u_code u1 ∧ u_out u0 = []
        ∧ (u_code u1 = -1 ∨ r ≤ u_code u1 ≤ r + Z.max 0 (n - 2))
        ∧ (0 ≤ u_code u1 → Z.of_nat (length (u_out u1)) = u_code u1 + 1)
    | None, None => True
    | _, _ => False
    end.
Proof.
  induction fuel as [|fuel IH]; intros s n r written Hr Hmax Hlen;
    [exact I|].
  cbn [json_unescape_loop].
  destruct (Z.ltb_spec 2 n) as [Hgt|Hle].
  - destruct (read m s) as [c|]; [|exact I]. cbn [mbind option_bind].
    destruct (Ascii.eqb c BACKSLASH).
    + destruct (read m (s + 1)) as [e|]; [|exact I]. cbn [mbind option_bind].
      destruct (unescape_char e) as [c1|].
      * rewrite int32_small by lia. cbn [store].
        specialize (IH (s + 1 + 1) (n - 1 - 1) (r + 1) (written ++ [c1])
                      ltac:(lia) ltac:(lia)
                      ltac:(rewrite length_app; cbn [length]; lia)).
        destruct (json_unescape_loop fuel m (s + 1 + 1) (n - 1 - 1) (r + 1)
                    false []) as [u0|],
                 (json_unescape_loop fuel m (s + 1 + 1) (n - 1 - 1) (r + 1)
                    true (written ++ [c1])) as [u1|];
          try exact IH.
        destruct IH as (Hcode & Hout & Hrange & Hfill).
        split; [assumption|]. split; [assumption|].
        split; [lia | assumption].
      * split; [reflexivity|]. split; [reflexivity|].
        split; [left; reflexivity|]. cbn [u_code]. intros Hneg. lia.
    + rewrite int32_small by lia. cbn [store].
      specialize (IH (s + 1) (n - 1) (r + 1) (written ++ [c])
                    ltac:(lia) ltac:(lia)
                    ltac:(rewrite length_app; cbn [length]; lia)).
      destruct (json_unescape_loop fuel m (s + 1) (n - 1) (r + 1) false [])
        as [u0|],
               (json_unescape_loop fuel m (s + 1) (n - 1) (r + 1) true
                  (written ++ [c])) as [u1|];
        try exact IH.
      destruct IH as (Hcode & Hout & Hrange & Hfill).
      split; [assumption|]. split; [assumption|].
      split; [lia | assumption].
  - destruct (read m s) as [c|]; [|exact I]. cbn [mbind option_bind].
    destruct (negb (Ascii.eqb c DQUOTE)); cbn [u_code u_out store].
    + split; [reflexivity|]. split; [reflexivity|].
        split; [left; reflexivity|]. cbn [u_code]. intros Hneg. lia.
    + split; [reflexivity|]. split; [reflexivity|].
      split; [right; lia|].
      intros _. rewrite length_app. cbn [length]. lia.
Qed.

(** X8: the two passes of the decoder agree. For a span of fewer than
    [2 ^ 31] bytes, [json_unescape] without an output stores nothing and
    returns the same code as with one; a count it returns is at most the
    size of the span less its two quotes, and the pass with an output
    then stores exactly that many bytes and one terminator: the
    [n + 1] bytes that [json_parse] allocates are what the second pass
    fills. The passes also read outside the buffer together or not at
    all. *)
Theorem json_unescape_dry_run (m : buffer) (s n : Z) :
  0 ≤ n < 2 ^ 31 →
  match json_unescape m s n false, json_unescape m s n true with
  | Some u0, Some u1 =>
      u_code u0 = u_code u1 ∧ u_out u0 = []
      ∧ (u_code u1 = -1 ∨ 0 ≤ u_code u1 ≤ Z.max 0 (n - 2))
      ∧ (0 ≤ u_code u1 → Z.of_nat (length (u_out u1)) = u_code u1 + 1)
  | None, None => True
  | _, _ => False
  end.
Proof.
  intros Hn. unfold json_unescape.
  destruct (read m s) as [c|]; [|exact I]. cbn [mbind option_bind].
  destruct (negb (Ascii.eqb c DQUOTE)).
  - split; [reflexivity|]. split; [reflexivity|].
        split; [left; reflexivity|]. cbn [u_code]. intros Hneg. lia.
  - apply (json_unescape_loop_dry_run m (S (Z.to_nat n)) (s + 1) n 0 []);
      [lia | lia | reflexivity].
Qed.

(** X8 at a concrete span: the string value of a message. *)
Lemma json_unescape_dry_run_witness :
  let m := c_str (json_text "{'k':'a\tb'}") in
  match json_unescape m 5 6 false, json_unescape m 5 6 true with
  | Some u0, Some u1 =>
      u_code u0 = u_code u1 ∧ u_out u0 = []
      ∧ (u_code u1 = -1 ∨ 0 ≤ u_code u1 ≤ Z.max 0 (6 - 2))
      ∧ (0 ≤ u_code u1 → Z.of_nat (length (u_out u1)) = u_code u1 + 1)
  | None, None => True
  | _, _ => False
  end.
Proof. cbn zeta. apply json_unescape_dry_run. lia. Defined.

(** ** More on the bridge *)

Lemma on_message_decoded {binding_t void_ptr : Type} (msg seq name args : string)
    (w : webview binding_t void_ptr) :
  json_parse msg "id" 0 = Some seq →
  json_parse msg "method" 0 = Some name →
  json_parse msg "params" 0 = Some args →
  on_message msg w
  = Some (Webview (engine w) (bindings w)
            (invoked w ++
             match bindings w !! name with
             | Some fn => [Invocation (fst fn) seq args (snd fn)]
             | None => []
             end)).
Proof.
  intros Hseq Hname Hargs.
  unfold on_message. rewrite Hseq, Hname, Hargs. cbn [mbind option_bind].
  destruct (bindings w !! name) as [fn|]; [reflexivity|].
  rewrite app_nil_r. destruct w; reflexivity.
Qed.

(** X9: [on_message] returns on every message, whatever its bytes: the
    three fields are decoded without a read outside the message, the
    engine and the table are left as they are, and at most one bound
    function is called, the one the table holds for the decoded method,
    on the decoded id and parameters. *)
Theorem on_message_effects {binding_t void_ptr : Type} (msg : string)
    (w : webview binding_t void_ptr) :
  ∃ seq name args,
    json_parse msg "id" 0 = Some seq
    ∧ json_parse msg "method" 0 = Some name
    ∧ json_parse msg "params" 0 = Some args
    ∧ on_message msg w
      = Some (Webview (engine w) (bindings w)
                (invoked w ++
                 match bindings w !! name with
                 | Some fn => [Invocation (fst fn) seq args (snd fn)]
                 | None => []
                 end)).
Proof.
  destruct (json_parse_total msg "id" 0) as [seq Hseq]; [reflexivity|].
  destruct (json_parse_total msg "method" 0) as [name Hname]; [reflexivity|].
  destruct (json_parse_total msg "params" 0) as [args Hargs]; [reflexivity|].
  exists seq, name, args. repeat (split; [assumption|]).
  apply on_message_decoded; assumption.
Qed.

Lemma exec_init_scripts {binding_t void_ptr : Type} (char_is_signed : bool)
    (o : operation binding_t void_ptr) (w w1 : webview binding_t void_ptr) :
  exec char_is_signed o w = Some w1 →
  e_init (engine w1) = e_init (engine w) ++ bind_scripts [o].
Proof.
  destruct o as [url|name f arg|seq status result|msg|]; cbn [exec bind_scripts].
  - unfold navigate. case_decide.
    + intros [= <-]. cbn. rewrite app_nil_r. reflexivity.
    + destruct (html_from_uri url) as [html|]; [|discriminate].
      cbn [mbind option_bind].
      case_decide; intros [= <-]; cbn; rewrite app_nil_r; reflexivity.
  - intros [= <-]. reflexivity.
  - intros [= <-]. cbn. rewrite app_nil_r. reflexivity.
  - destruct (json_parse_total msg "id" 0) as [seq Hseq]; [reflexivity|].
    destruct (json_parse_total msg "method" 0) as [name Hname]; [reflexivity|].
    destruct (json_parse_total msg "params" 0) as [args Hargs]; [reflexivity|].
    rewrite (on_message_decoded msg seq name args w Hseq Hname Hargs).
    intros [= <-]. cbn. rewrite app_nil_r. reflexivity.
  - intros [= <-]. unfold run_dispatched.
    destruct (e_dispatched (engine w)); [cbn; rewrite app_nil_r; reflexivity|].
    unfold call_dispatch_fn.
    destruct (d_status _ =? 0); cbn; rewrite app_nil_r; reflexivity.
Qed.

(** X10: every [bind] injects its script, also when it replaces a
    binding: after a run the engine holds, behind the scripts it had, one
    script per [bind] of the run, in the order of the calls; no other
    operation injects or removes one. *)
Theorem run_init_scripts {binding_t void_ptr : Type} (char_is_signed : bool)
    (ops : list (operation binding_t void_ptr))
    (w w1 : webview binding_t void_ptr) :
  run char_is_signed ops w = Some w1 →
  e_init (engine w1) = e_init (engine w) ++ bind_scripts ops.
Proof.
  revert w. induction ops as [|o rest IH]; intros w; cbn [run].
  - intros [= <-]. cbn. rewrite app_nil_r. reflexivity.
  - destruct (exec char_is_signed o w) as [w2|] eqn:Hexec; [|discriminate].
    cbn [mbind option_bind]. intros Hrun.
    rewrite (IH _ Hrun), (exec_init_scripts _ _ _ _ Hexec), <- app_assoc.
    f_equal. destruct o; reflexivity.
Qed.

(** X10 at a concrete run: [add] is bound twice. *)
Lemma run_init_scripts_witness :
  let ops : list (operation nat Z) :=
    [OpBind "add" 1%nat 10; OpResolve "1" 0 "5"; OpBind "add" 2%nat 20] in
  ∃ w1, run true ops webview_create = Some w1
        ∧ e_init (engine w1) = [bind_js "add"; bind_js "add"].
Proof.
  cbn zeta. eexists. split; [reflexivity|].
  exact (run_init_scripts true
           [OpBind "add" 1%nat 10; OpResolve "1" 0 "5"; OpBind "add" 2%nat 20]
           (@webview_create nat Z) _ eq_refl).
Defined.

Lemma resolve_all_engine {binding_t void_ptr : Type} (fs : list dispatch_fn_t)
    (w : webview binding_t void_ptr) :
  resolve_all fs w
  = Webview (BrowserEngine (e_navigated (engine w)) (e_init (engine w))
               (e_eval (engine w)) (e_dispatched (engine w) ++ fs))
      (bindings w) (invoked w).
Proof.
  unfold resolve_all. revert w.
  induction fs as [|f fs IH]; intros w; cbn [fold_left].
  - rewrite app_nil_r. destruct w as [[] ? ?]; reflexivity.
  - rewrite IH. unfold resolve. cbn. rewrite <- app_assoc.
    destruct f; reflexivity.
Qed.

Lemma run_dispatched_queue {binding_t void_ptr : Type}
    (fs : list dispatch_fn_t) :
  ∀ (nav ini evl : list string) (b : gmap string (binding_t * void_ptr))
    (inv : list (invocation binding_t void_ptr)),
    run_dispatched_n (length fs)
      (Webview (BrowserEngine nav ini evl fs) b inv)
    = Webview (BrowserEngine nav ini (evl ++ map script_of fs) []) b inv.
Proof.
  induction fs as [|f fs IH]; intros nav ini evl b inv.
  - cbn. rewrite app_nil_r. reflexivity.
  - cbn [length]. unfold run_dispatched_n in *. rewrite Nat.iter_succ_r.
    assert (Hstep :
      run_dispatched (Webview (BrowserEngine nav ini evl (f :: fs)) b inv)
      = Webview (BrowserEngine nav ini (evl ++ [script_of f]) fs) b inv).
    { unfold run_dispatched, call_dispatch_fn, script_of, settle_script.
      cbn [engine e_dispatched with_engine e_navigated e_init e_eval
           engine_eval bindings invoked].
      destruct (d_status f =? 0); reflexivity. }
    rewrite Hstep, IH, <- app_assoc. reflexivity.
Qed.

(** X11: resolutions are evaluated once each, whole and in the order
    they were posted. After [resolve] has been called for each of a list
    of results on an object with nothing posted, running as many closures
    as were posted evaluates exactly the settling script of each, in that
    order, empties the queue and leaves bindings and calls alone. *)
Theorem resolve_all_run {binding_t void_ptr : Type}
    (fs : list dispatch_fn_t) (w : webview binding_t void_ptr) :
  e_dispatched (engine w) = [] →
  let w1 := run_dispatched_n (length fs) (resolve_all fs w) in
  e_eval (engine w1) = e_eval (engine w) ++ map script_of fs
  ∧ e_dispatched (engine w1) = []
  ∧ bindings w1 = bindings w ∧ invoked w1 = invoked w.
Proof.
  intros Hempty. cbn zeta.
  rewrite resolve_all_engine, Hempty. cbn [app].
  rewrite run_dispatched_queue. repeat split; reflexivity.
Qed.

(** X11 at two concrete resolutions. *)
Lemma resolve_all_run_witness :
  let fs := [ResolveFn "7" 0 "42"; ResolveFn "8" 1 "{}"] in
  e_eval (engine (run_dispatched_n 2 (resolve_all fs (@webview_create nat Z))))
  = ["window._rpc[7].resolve(42); window._rpc[7] = undefined";
     "window._rpc[8].reject({}); window._rpc[8] = undefined"].
Proof.
  cbn zeta.
  exact (proj1 (resolve_all_run
                  [ResolveFn "7" 0 "42"; ResolveFn "8" 1 "{}"]
                  (@webview_create nat Z) eq_refl)).
Defined.

(** X12: a synchronous binding answers its call. Once [name] is bound to
    a function [fn] by the synchronous [bind], delivering a message whose
    decoded method is [name] calls the lambda once and posts one closure;
    run by the UI thread, it resolves (never rejects) the decoded id with
    [fn] of the decoded parameters. *)
Theorem deliver_sync_resolves (msg name : string) (fn : sync_binding_t)
    (w : webview bound_function bound_context) :
  json_parse msg "method" 0 = Some name →
  e_dispatched (engine w) = [] →
  ∃ seq args w1,
    json_parse msg "id" 0 = Some seq
    ∧ json_parse msg "params" 0 = Some args
    ∧ deliver msg (bind_sync name fn w) = Some w1
    ∧ invoked w1 = invoked w ++ [Invocation SyncLambda seq args (SyncCtx fn)]
    ∧ e_dispatched (engine w1) = [ResolveFn seq 0 (fn args)]
    ∧ e_eval (engine (run_dispatched w1))
      = e_eval (engine w) ++ [settle_script seq "resolve" (fn args)].
Proof.
  intros Hname Hempty.
  destruct (json_parse_total msg "id" 0) as [seq Hseq]; [reflexivity|].
  destruct (json_parse_total msg "params" 0) as [args Hargs]; [reflexivity|].
  exists seq, args. eexists. split; [exact Hseq|]. split; [exact Hargs|].
  unfold deliver. rewrite Hseq, Hname, Hargs. cbn [mbind option_bind].
  unfold bind_sync, bind at 1. cbn [bindings]. rewrite lookup_insert_eq.
  cbn [sync_lambda]. split; [reflexivity|].
  split; [reflexivity|].
  unfold run_dispatched, resolve, invoke, bind.
  cbn [with_engine engine bindings invoked engine_dispatch engine_init
       e_dispatched e_eval e_navigated e_init].
  rewrite Hempty. cbn [app]. split; reflexivity.
Qed.

(** X12 at a concrete binding that reverses nothing and answers with its
    request. *)
Lemma deliver_sync_resolves_witness :
  ∃ w1, deliver add_request (bind_sync "add" (fun req => req) webview_create)
        = Some w1
        ∧ e_eval (engine (run_dispatched w1))
          = ["window._rpc[1].resolve([2,3]); window._rpc[1] = undefined"].
Proof.
  destruct (deliver_sync_resolves add_request "add" (fun req => req)
              webview_create add_request_method eq_refl)
    as (seq & args & w1 & Hseq & Hargs & Hdeliver & _ & _ & Heval).
  exists w1. split; [exact Hdeliver|].
  rewrite add_request_id in Hseq. rewrite add_request_params in Hargs.
  injection Hseq as <-. injection Hargs as <-. exact Heval.
Defined.

(** ** More on the scanner *)

Lemma json_scan_app (n k : nat) (m : buffer) (key : option buffer)
    (l l1 : locals) :
  json_scan n m key l = Some (inl l1) →
  json_scan (n + k) m key l = json_scan k m key l1.
Proof.
  revert l. induction n as [|n IH]; intros l; cbn [json_scan Nat.add].
  - intros [= ->]. reflexivity.
  - destruct (0 <? l_sz l); [|discriminate].
    destruct (json_iter m key l) as [[l2|res]|]; cbn [mbind option_bind];
      [apply IH | discriminate | discriminate].
Qed.

Lemma json_scan_one (m : buffer) (key : option buffer) (l : locals)
    (r : locals + parse_result) :
  0 < l_sz l → json_iter m key l = Some r → json_scan 1 m key l = Some r.
Proof.
  intros Hsz Hiter. cbn [json_scan].
  destruct (Z.ltb_spec 0 (l_sz l)); [|lia].
  rewrite Hiter. cbn [mbind option_bind]. destruct r; reflexivity.
Qed.

Lemma json_scan_returns_loop (n : nat) (m : buffer) (key : option buffer)
    (l : locals) (res : parse_result) :
  json_scan n m key l = Some (inr res) →
  ∀ fuel, (n ≤ fuel)%nat → json_loop fuel m key l = Some res.
Proof.
  revert l. induction n as [|n IH]; intros l; cbn [json_scan];
    [discriminate|].
  intros Hscan fuel Hfuel. destruct fuel as [|fuel]; [lia|].
  cbn [json_loop]. destruct (0 <? l_sz l); [|congruence].
  destruct (json_iter m key l) as [[l2|res2]|]; cbn [mbind option_bind] in *;
    [apply IH; [assumption | lia] | congruence | discriminate].
Qed.

(** A scan that reaches a [return] within the turns that [json_parse_c]
    allows is what [json_parse_c] returns. *)
Lemma json_scan_returns (n : nat) (m : buffer) (sz : Z)
    (key : option buffer) (keysz : Z) (res : parse_result) :
  0 ≤ sz ≤ Z.of_nat (length m) → key_ok key keysz →
  json_scan n m key (json_init sz key keysz) = Some (inr res) →
  json_parse_c m sz key keysz = Some res.
Proof.
  intros Hsz Hkey Hscan.
  destruct (json_parse_c_total m sz key keysz Hsz Hkey) as [res1 [Hres1 _]].
  rewrite Hres1. f_equal. unfold json_parse_c in Hres1.
  pose proof (json_scan_returns_loop n m key _ res Hscan
                (n + json_fuel sz) ltac:(lia)) as H1.
  assert (Hmono : ∀ fuel l r, json_loop fuel m key l = Some r →
                  ∀ k, json_loop (k + fuel) m key l = Some r).
  { induction fuel as [|fuel IH]; intros l r; cbn [json_loop]; [discriminate|].
    intros Hl k. replace (k + S fuel)%nat with (S (k + fuel)) by lia.
    cbn [json_loop]. destruct (0 <? l_sz l); [|assumption].
    destruct (json_iter m key l) as [[l2|res2]|]; cbn [mbind option_bind] in *;
      [apply IH; assumption | assumption | discriminate]. }
  rewrite (Hmono _ _ _ Hres1 n) in H1. congruence.
Qed.

(** What the [switch] does with the bytes of a literal. *)
Lemma json_switch_literal_start (a : ascii) (l : locals) :
  literal_start a = true → l_state l = JSON_STATE_VALUE →
  json_switch (ord a) l
  = Break JSON_ACTION_START (set_state JSON_STATE_LITERAL l).
Proof.
  intros Ha Hst. unfold json_switch. rewrite Hst.
  destruct a as [[] [] [] [] [] [] [] []];
    (vm_compute in Ha; discriminate) || reflexivity.
Qed.

Lemma json_switch_literal_byte (a : ascii) (l : locals) :
  literal_byte a = true → l_state l = JSON_STATE_LITERAL →
  json_switch (ord a) l = Break JSON_ACTION_NONE l.
Proof.
  intros Ha Hst. unfold json_switch, case_string. rewrite Hst.
  destruct a as [[] [] [] [] [] [] [] []];
    (vm_compute in Ha; discriminate) || reflexivity.
Qed.

Lemma json_switch_literal_end (a : ascii) (l : locals) :
  literal_end a = true → l_state l = JSON_STATE_LITERAL →
  json_switch (ord a) l
  = Break JSON_ACTION_END
      (set_sz (l_sz l + 1) (set_s (l_s l - 1) (set_state JSON_STATE_VALUE l))).
Proof.
  intros Ha Hst. unfold json_switch, case_string. rewrite Hst.
  destruct a as [[] [] [] [] [] [] [] []];
    (vm_compute in Ha; discriminate) || reflexivity.
Qed.

(** Single turns of the loop at depth 1, with no key. *)
Lemma json_iter_literal_start (m : buffer) (key : option buffer) (a : ascii)
    (s sz : Z) (k : option Z) (j u : Z) (v : option Z) :
  read m s = Some a → literal_start a = true →
  json_iter m key (Locals s sz JSON_STATE_VALUE k j 1 u v 0)
  = Some (inl (if j =? 0 then
                 Locals (s + 1) (sz - 1) JSON_STATE_LITERAL k j 1 u (Some s) 0
               else
                 Locals (s + 1) (sz - 1) JSON_STATE_LITERAL k (int32 (j - 1))
                   1 u v 0)).
Proof.
  intros Hread Ha. unfold json_iter. cbn [l_s]. rewrite Hread.
  cbn [mbind option_bind].
  rewrite json_switch_literal_start by (assumption || reflexivity).
  unfold after_switch, at_depth_one. cbn. destruct (j =? 0); reflexivity.
Qed.

Lemma json_iter_literal_byte (m : buffer) (key : option buffer) (a : ascii)
    (s sz : Z) (k : option Z) (j u : Z) (v : option Z) (ks : Z) :
  read m s = Some a → literal_byte a = true →
  json_iter m key (Locals s sz JSON_STATE_LITERAL k j 1 u v ks)
  = Some (inl (Locals (s + 1) (sz - 1) JSON_STATE_LITERAL k j 1 u v ks)).
Proof.
  intros Hread Ha. unfold json_iter. cbn [l_s]. rewrite Hread.
  cbn [mbind option_bind].
  rewrite json_switch_literal_byte by (assumption || reflexivity).
  reflexivity.
Qed.

Lemma json_iter_literal_end (m : buffer) (key : option buffer) (a : ascii)
    (s sz j u : Z) (v : option Z) (ks : Z) :
  read m s = Some a → literal_end a = true →
  json_iter m key (Locals s sz JSON_STATE_LITERAL None j 1 u v ks)
  = Some match v, j =? 0 with
         | Some v0, true => inr (ParseResult 0 (Some v0) (size_t (s - v0)))
         | _, _ => inl (Locals s sz JSON_STATE_VALUE None j 1 u v ks)
         end.
Proof.
  intros Hread Ha. unfold json_iter. cbn [l_s]. rewrite Hread.
  cbn [mbind option_bind].
  rewrite json_switch_literal_end by (assumption || reflexivity).
  unfold after_switch, at_depth_one. cbn.
  destruct v as [v0|], (j =? 0); cbn;
    unfold advance, set_sz, set_s, set_state; cbn; repeat f_equal; lia.
Qed.

Lemma json_iter_comma (m : buffer) (key : option buffer)
    (s sz : Z) (k : option Z) (j d u : Z) (v : option Z) (ks : Z) :
  read m s = Some ","%char →
  json_iter m key (Locals s sz JSON_STATE_VALUE k j d u v ks)
  = Some (inl (Locals (s + 1) (sz - 1) JSON_STATE_VALUE k j d u v ks)).
Proof.
  intros Hread. unfold json_iter. cbn [l_s]. rewrite Hread. reflexivity.
Qed.

Lemma json_iter_open (m : buffer) (key : option buffer)
    (s sz : Z) (k : option Z) (j u : Z) (v : option Z) (ks : Z) :
  read m s = Some "["%char →
  json_iter m key (Locals s sz JSON_STATE_VALUE k j 0 u v ks)
  = Some (inl (Locals (s + 1) (sz - 1) JSON_STATE_VALUE k j 1 u v ks)).
Proof.
  intros Hread. unfold json_iter. cbn [l_s]. rewrite Hread. reflexivity.
Qed.

(** The turns over the bytes after the first of a literal. *)
Lemma json_scan_literal_body (key : option buffer) (rest : buffer)
    (k : option Z) (j u : Z) (v : option Z) (ks : Z) (body : buffer) :
  ∀ (front : buffer) (sz : Z),
    forallb literal_byte body = true → Z.of_nat (length body) ≤ sz →
    json_scan (length body) (front ++ body ++ rest) key
      (Locals (Z.of_nat (length front)) sz JSON_STATE_LITERAL k j 1 u v ks)
    = Some (inl (Locals (Z.of_nat (length front + length body))
                   (sz - Z.of_nat (length body)) JSON_STATE_LITERAL k j 1 u v
                   ks)).
Proof.
  induction body as [|a body IH]; intros front sz Hbody Hsz.
  - cbn. rewrite Nat.add_0_r, Z.sub_0_r. reflexivity.
  - cbn [forallb] in Hbody. apply andb_true_iff in Hbody.
    destruct Hbody as [Ha Hbody]. cbn [length] in *.
    change (S (length body)) with (1 + length body)%nat.
    rewrite (json_scan_app 1 (length body) _ _ _
               (Locals (Z.of_nat (length front) + 1) (sz - 1)
                  JSON_STATE_LITERAL k j 1 u v ks)).
    + replace (front ++ (a :: body) ++ rest)
        with ((front ++ [a]) ++ body ++ rest)
        by (rewrite <- app_assoc; reflexivity).
      replace (Z.of_nat (length front) + 1)
        with (Z.of_nat (length (front ++ [a])))
        by (rewrite length_app; cbn; lia).
      rewrite IH by (assumption || lia).
      rewrite length_app. cbn [length]. do 3 f_equal; lia.
    + apply json_scan_one; [cbn; lia|].
      apply (json_iter_literal_byte _ _ a); [|assumption].
      cbn [app]. apply read_app_middle.
Qed.

Lemma scans_to_trans (m : buffer) (key : option buffer) (l l1 l2 : locals) :
  scans_to m key l l1 → scans_to m key l1 l2 → scans_to m key l l2.
Proof.
  intros [n Hn] [k Hk]. exists (n + k)%nat.
  rewrite (json_scan_app n k m key l l1 Hn). exact Hk.
Qed.

Lemma scans_to_out (m : buffer) (key : option buffer) (l l1 : locals)
    (res : parse_result) :
  scans_to m key l l1 → scans_out m key l1 res → scans_out m key l res.
Proof.
  intros [n Hn] [k Hk]. exists (n + k)%nat.
  rewrite (json_scan_app n k m key l l1 Hn). exact Hk.
Qed.

Lemma scans_to_turn (m : buffer) (key : option buffer) (l l1 : locals) :
  0 < l_sz l → json_iter m key l = Some (inl l1) → scans_to m key l l1.
Proof. intros Hsz Hiter. exists 1%nat. apply json_scan_one; assumption. Qed.

Lemma scans_out_turn (m : buffer) (key : option buffer) (l : locals)
    (res : parse_result) :
  0 < l_sz l → json_iter m key l = Some (inr res) → scans_out m key l res.
Proof. intros Hsz Hiter. exists 1%nat. apply json_scan_one; assumption. Qed.

Lemma json_iter_literal_end_skip (m : buffer) (key : option buffer)
    (a : ascii) (s sz j u : Z) :
  read m s = Some a → literal_end a = true →
  json_iter m key (Locals s sz JSON_STATE_LITERAL None j 1 u None 0)
  = Some (inl (Locals s sz JSON_STATE_VALUE None j 1 u None 0)).
Proof. intros Hread Ha. apply (json_iter_literal_end m key a); assumption. Qed.

Lemma json_iter_literal_end_hit (m : buffer) (key : option buffer)
    (a : ascii) (s sz u v ks : Z) :
  read m s = Some a → literal_end a = true →
  json_iter m key (Locals s sz JSON_STATE_LITERAL None 0 1 u (Some v) ks)
  = Some (inr (ParseResult 0 (Some v) (size_t (s - v)))).
Proof. intros Hread Ha. apply (json_iter_literal_end m key a); assumption. Qed.

(** The turns over a literal element that is not the one asked for, and
    over the comma after it. *)
Lemma scans_to_skip_literal (key : option buffer) (rest tok front : buffer)
    (sz j u : Z) :
  literal_token tok = true → 0 < j < 2 ^ 31 →
  Z.of_nat (length tok) + 1 ≤ sz →
  scans_to (front ++ tok ++ ","%char :: rest) key
    (Locals (Z.of_nat (length front)) sz JSON_STATE_VALUE None j 1 u None 0)
    (Locals (Z.of_nat (length (front ++ tok ++ [","%char])))
       (sz - Z.of_nat (length tok) - 1) JSON_STATE_VALUE None (j - 1) 1 u
       None 0).
Proof.
  intros Htok Hj Hsz. destruct tok as [|a body]; [discriminate|].
  cbn [literal_token] in Htok. apply andb_true_iff in Htok.
  destruct Htok as [Ha Hbody]. cbn [length] in Hsz.
  set (m := front ++ (a :: body) ++ ","%char :: rest).
  assert (Hm1 : m = (front ++ [a]) ++ body ++ ","%char :: rest).
  { subst m. rewrite <- app_assoc. reflexivity. }
  assert (Hm2 : m = (front ++ a :: body) ++ ","%char :: rest).
  { subst m. rewrite <- app_assoc. reflexivity. }
  eapply scans_to_trans.
  { apply scans_to_turn; [cbn; lia|].
    apply (json_iter_literal_start _ _ a); [apply read_app_middle|exact Ha]. }
  destruct (Z.eqb_spec j 0) as [|_]; [lia|]. rewrite int32_small by lia.
  eapply scans_to_trans.
  { exists (length body). rewrite Hm1.
    replace (Z.of_nat (length front) + 1)
      with (Z.of_nat (length (front ++ [a])))
      by (rewrite length_app; cbn; lia).
    apply json_scan_literal_body; [assumption | lia]. }
  eapply scans_to_trans.
  { apply scans_to_turn; [cbn; lia|].
    apply (json_iter_literal_end_skip _ _ ","%char); [|reflexivity].
    rewrite Hm2.
    replace (Z.of_nat (length (front ++ [a]) + length body))
      with (Z.of_nat (length (front ++ a :: body)))
      by (rewrite !length_app; cbn [length]; lia).
    apply read_app_middle. }
  replace (Locals (Z.of_nat (length (front ++ (a :: body) ++ [","%char])))
             (sz - Z.of_nat (length (a :: body)) - 1) JSON_STATE_VALUE None
             (j - 1) 1 u None 0)
    with (Locals (Z.of_nat (length (front ++ [a]) + length body) + 1)
            (sz - 1 - Z.of_nat (length body) - 1) JSON_STATE_VALUE None
            (j - 1) 1 u None 0)
    by (rewrite !length_app; cbn [length]; f_equal; lia).
  apply scans_to_turn; [cbn; lia|].
  apply json_iter_comma. rewrite Hm2.
  replace (Z.of_nat (length (front ++ [a]) + length body))
    with (Z.of_nat (length (front ++ a :: body)))
    by (rewrite !length_app; cbn [length]; lia).
  apply read_app_middle.
Qed.

(** The turns over the elements before the one asked for. *)
Lemma scans_to_skip_literals (key : option buffer) (rest : buffer) (u : Z)
    (pre : list buffer) :
  ∀ (front : buffer) (sz j : Z),
    forallb literal_token pre = true →
    Z.of_nat (length pre) ≤ j < 2 ^ 31 →
    Z.of_nat (length (concat (map (fun tok => tok ++ [","%char]) pre))) ≤ sz →
    scans_to
      (front ++ concat (map (fun tok => tok ++ [","%char]) pre) ++ rest) key
      (Locals (Z.of_nat (length front)) sz JSON_STATE_VALUE None j 1 u None 0)
      (Locals
         (Z.of_nat
            (length (front
                     ++ concat (map (fun tok => tok ++ [","%char]) pre))))
         (sz - Z.of_nat
                 (length (concat (map (fun tok => tok ++ [","%char]) pre))))
         JSON_STATE_VALUE None (j - Z.of_nat (length pre)) 1 u None 0).
Proof.
  induction pre as [|tok pre IH]; intros front sz j Hpre Hj Hsz.
  - cbn [map concat length app]. exists 0%nat. cbn [json_scan].
    rewrite app_nil_r. do 3 f_equal; lia.
  - cbn [forallb] in Hpre. apply andb_true_iff in Hpre.
    destruct Hpre as [Htok Hpre].
    cbn [map concat length] in *. rewrite !length_app in Hsz.
    cbn [length] in Hsz.
    eapply scans_to_trans.
    { rewrite <- !app_assoc. cbn [app].
      apply scans_to_skip_literal; [assumption | lia | lia]. }
    specialize (IH (front ++ tok ++ [","%char])
                  (sz - Z.of_nat (length tok) - 1) (j - 1) Hpre
                  ltac:(lia) ltac:(lia)).
    rewrite <- !app_assoc in IH. cbn [app] in IH.
    rewrite <- !app_assoc. cbn [app].
    replace (Locals
               (Z.of_nat
                  (length (front ++ tok ++ ","%char
                           :: concat (map (fun tok0 => tok0 ++ [","%char]) pre))))
               (sz - Z.of_nat
                       (length (tok ++ ","%char
                                :: concat
                                     (map (fun tok0 => tok0 ++ [","%char]) pre))))
               JSON_STATE_VALUE None (j - Z.of_nat (S (length pre))) 1 u None 0)
      with (Locals
              (Z.of_nat
                 (length (front ++ tok ++ ","%char
                          :: concat (map (fun tok0 => tok0 ++ [","%char]) pre))))
              (sz - Z.of_nat (length tok) - 1
               - Z.of_nat
                   (length (concat (map (fun tok0 => tok0 ++ [","%char]) pre))))
              JSON_STATE_VALUE None (j - 1 - Z.of_nat (length pre)) 1 u None 0)
      by (rewrite !length_app; cbn [length]; f_equal; lia).
    exact IH.
Qed.

Lemma literal_start_not_quote (a : ascii) :
  literal_start a = true → Ascii.eqb a DQUOTE = false.
Proof.
  destruct a as [[] [] [] [] [] [] [] []]; intros Ha;
    (vm_compute in Ha; discriminate) || reflexivity.
Qed.

(** The scan of an array up to the end of the literal at position
    [length pre]. *)
Lemma scans_out_array_position (pre : list buffer) (tok : buffer)
    (d : ascii) (rest : buffer) (sz : Z) :
  forallb literal_token pre = true → literal_token tok = true →
  literal_end d = true →
  Z.of_nat (length pre) < 2 ^ 31 → Z.of_nat (length tok) < 2 ^ 64 →
  Z.of_nat (length (array_prefix pre ++ tok)) + 1 ≤ sz →
  scans_out (array_prefix pre ++ tok ++ d :: rest) None
    (json_init sz None (Z.of_nat (length pre)))
    (ParseResult 0 (Some (Z.of_nat (length (array_prefix pre))))
       (Z.of_nat (length tok))).
Proof.
  intros Hpre Htok Hd Hmax Htokmax Hsz. unfold array_prefix in *.
  set (elems := concat (map (fun t => t ++ [","%char]) pre)) in *.
  rewrite length_app in Hsz. cbn [length] in Hsz.
  cbn [json_init]. rewrite int32_small by lia.
  destruct tok as [|a body]; [discriminate|].
  cbn [literal_token] in Htok. apply andb_true_iff in Htok.
  destruct Htok as [Ha Hbody]. cbn [length] in Hsz, Htokmax.
  set (m := ("["%char :: elems) ++ (a :: body) ++ d :: rest).
  eapply scans_to_out.
  { apply scans_to_turn; [cbn; lia|].
    apply json_iter_open. reflexivity. }
  eapply scans_to_out.
  { change 1 with (Z.of_nat (length ["["%char])) at 1.
    assert (Hm : m = ["["%char] ++ elems ++ (a :: body) ++ d :: rest)
      by reflexivity.
    rewrite Hm. subst elems.
    apply (scans_to_skip_literals None ((a :: body) ++ d :: rest) 0 pre
             ["["%char] (sz - 1) (Z.of_nat (length pre)));
      [assumption | lia | lia]. }
  fold elems. rewrite Z.sub_diag.
  change (["["%char] ++ elems) with ("["%char :: elems).
  eapply scans_to_out.
  { apply scans_to_turn; [cbn; lia|].
    apply (json_iter_literal_start _ _ a); [|exact Ha].
    subst m. apply read_app_middle. }
  cbv iota. change (0 =? 0) with true. cbv iota.
  eapply scans_to_out.
  { exists (length body).
    assert (Hm : m = (("["%char :: elems) ++ [a]) ++ body ++ d :: rest).
    { subst m. rewrite <- app_assoc. reflexivity. }
    rewrite Hm.
    replace (Z.of_nat (length ("["%char :: elems)) + 1)
      with (Z.of_nat (length (("["%char :: elems) ++ [a])))
      by (rewrite length_app; cbn [length]; lia).
    apply json_scan_literal_body; [assumption | cbn [length]; lia]. }
  replace (ParseResult 0 (Some (Z.of_nat (length ("["%char :: elems))))
             (Z.of_nat (length (a :: body))))
    with (ParseResult 0 (Some (Z.of_nat (length ("["%char :: elems))))
            (size_t (Z.of_nat (length (("["%char :: elems) ++ [a])
                               + length body)
                     - Z.of_nat (length ("["%char :: elems))))).
  2: { f_equal. rewrite length_app. cbn [length]. unfold size_t.
       rewrite Z.mod_small; lia. }
  apply scans_out_turn; [rewrite length_app; cbn [l_sz length]; lia|].
  apply (json_iter_literal_end_hit _ _ d); [|exact Hd].
  assert (Hm : m = (("["%char :: elems) ++ a :: body) ++ d :: rest).
  { subst m. rewrite <- app_assoc. reflexivity. }
  rewrite Hm.
  replace (Z.of_nat (length (("["%char :: elems) ++ [a]) + length body))
    with (Z.of_nat (length (("["%char :: elems) ++ a :: body)))
    by (rewrite !length_app; cbn [length]; lia).
  apply read_app_middle.
Qed.

Lemma read_n_app_middle (front tok rest : buffer) :
  read_n (front ++ tok ++ rest) (Z.of_nat (length front))
    (Z.of_nat (length tok)) = Some tok.
Proof.
  unfold read_n.
  destruct (Z.ltb_spec (Z.of_nat (length front)) 0); [lia|].
  destruct (Z.ltb_spec (Z.of_nat (length tok)) 0); [lia|].
  destruct (Z.ltb_spec (Z.of_nat (length (front ++ tok ++ rest)))
              (Z.of_nat (length front) + Z.of_nat (length tok))) as [Hlt|_].
  { rewrite !length_app in Hlt. lia. }
  cbn [orb]. rewrite !Nat2Z.id, drop_app_length, take_app_length.
  reflexivity.
Qed.

(** X13: positional search in an array of literals. In a text that
    starts with an opening bracket and literal elements separated by
    single commas, [json_parse_c] with no key and the position [i] of one
    of them returns the span of that element, and [json_parse] returns
    the element itself, provided a space, a comma, a colon or a closing
    bracket follows it; the text behind that byte plays no part. *)
Theorem json_parse_array_position (pre : list buffer) (tok : buffer)
    (d : ascii) (rest : buffer) :
  forallb literal_token pre = true → literal_token tok = true →
  literal_end d = true →
  Z.of_nat (length pre) < 2 ^ 31 → Z.of_nat (length tok) < 2 ^ 64 →
  let m := array_prefix pre ++ tok ++ d :: rest in
  json_parse_c m (Z.of_nat (length m)) None (Z.of_nat (length pre))
  = Some (ParseResult 0 (Some (Z.of_nat (length (array_prefix pre))))
            (Z.of_nat (length tok)))
  ∧ json_parse (std_string m) "" (Z.of_nat (length pre))
    = Some (std_string tok).
Proof.
  intros Hpre Htok Hd Hmax Htokmax m. split.
  - destruct (scans_out_array_position pre tok d rest (Z.of_nat (length m))
                Hpre Htok Hd Hmax Htokmax) as [n Hn].
    { subst m. rewrite !length_app. cbn [length]. lia. }
    apply (json_scan_returns n); [lia | exact I | exact Hn].
  - unfold json_parse.
    destruct (decide ("" = "")) as [_|Hne]; [|contradiction].
    assert (Hc : c_str (std_string m)
                 = array_prefix pre ++ tok ++ d :: (rest ++ [NUL])).
    { unfold c_str. rewrite bytes_std_string. subst m.
      rewrite <- !app_assoc. reflexivity. }
    assert (Hlen : len (std_string m) = Z.of_nat (length m)).
    { rewrite <- length_bytes, bytes_std_string. reflexivity. }
    rewrite Hc, Hlen.
    assert (Hidx : size_t (Z.of_nat (length pre)) = Z.of_nat (length pre)).
    { unfold size_t. apply Z.mod_small. lia. }
    rewrite Hidx.
    destruct (scans_out_array_position pre tok d (rest ++ [NUL])
                (Z.of_nat (length m)) Hpre Htok Hd Hmax Htokmax) as [n Hn].
    { subst m. rewrite !length_app. cbn [length]. lia. }
    assert (Hbound : 0 ≤ Z.of_nat (length m)
                     ≤ Z.of_nat (length (array_prefix pre ++ tok
                                         ++ d :: rest ++ [NUL]))).
    { subst m. rewrite !length_app. cbn [length]. rewrite !length_app.
      cbn [length]. lia. }
    pose proof (json_scan_returns n _ _ None _ _ Hbound I Hn) as Hparse.
    rewrite Hparse.
    cbn [mbind option_bind r_value r_valuesz].
    assert (Hfirst : ∃ a body, tok = a :: body ∧ literal_start a = true).
    { destruct tok as [|a body]; [discriminate|]. exists a, body.
      cbn [literal_token] in Htok. apply andb_true_iff in Htok.
      split; [reflexivity | apply Htok]. }
    destruct Hfirst as (a & body & Etok & Ha).
    assert (Hread : read (array_prefix pre ++ tok ++ d :: rest ++ [NUL])
                      (Z.of_nat (length (array_prefix pre))) = Some a).
    { rewrite Etok. apply read_app_middle. }
    rewrite Hread. cbn [mbind option_bind].
    rewrite (literal_start_not_quote a Ha). cbn [negb].
    rewrite read_n_app_middle. reflexivity.
Qed.

(** X13 at a concrete array: the third argument of a call. *)
Lemma json_parse_array_position_witness :
  json_parse "[1,-2.5e3,true,null]" "" 2 = Some "true".
Proof.
  exact (proj2 (json_parse_array_position
                  [bytes "1"; bytes "-2.5e3"] (bytes "true") ","%char
                  (bytes "null]") eq_refl eq_refl eq_refl
                  ltac:(cbn; lia) ltac:(cbn; lia))).
Defined.

Lemma list_snoc_cases {A : Type} (l : list A) :
  l = [] ∨ ∃ pre x, l = pre ++ [x].
Proof.
  induction l as [|x l _] using rev_ind; [left; reflexivity|].
  right. exists l, x. reflexivity.
Qed.

Lemma join_commas_snoc (pre : list buffer) (tok : buffer) :
  join_commas (pre ++ [tok])
  = concat (map (fun t => t ++ [","%char]) pre) ++ tok.
Proof.
  induction pre as [|t pre IH]; [reflexivity|].
  assert (Hcons : join_commas (t :: pre ++ [tok])
                  = t ++ ","%char :: join_commas (pre ++ [tok]))
    by (destruct pre; reflexivity).
  cbn [app map concat]. rewrite Hcons, IH, <- !app_assoc. reflexivity.
Qed.

Lemma array_text_snoc (pre : list buffer) (tok : buffer) :
  array_text (pre ++ [tok]) = array_prefix pre ++ tok ++ ["]"%char].
Proof.
  unfold array_text, array_prefix. rewrite join_commas_snoc, <- app_assoc.
  reflexivity.
Qed.

Lemma json_iter_close (m : buffer) (key : option buffer)
    (s sz : Z) (k : option Z) (j u : Z) (v : option Z) (ks : Z) :
  read m s = Some "]"%char →
  json_iter m key (Locals s sz JSON_STATE_VALUE k j 1 u v ks)
  = Some (inl (Locals (s + 1) (sz - 1) JSON_STATE_VALUE k j 0 u v ks)).
Proof.
  intros Hread. unfold json_iter. cbn [l_s]. rewrite Hread. reflexivity.
Qed.

Lemma scans_out_end (m : buffer) (key : option buffer) (l : locals) :
  l_sz l = 0 → scans_out m key l (ParseResult (-1) (l_value l) 0).
Proof. intros Hsz. exists 1%nat. cbn [json_scan]. rewrite Hsz. reflexivity. Qed.

(** The turns over a literal element that is not the one asked for, up
    to the byte that ends it. *)
Lemma scans_to_over_literal (key : option buffer) (d : ascii)
    (rest tok front : buffer) (sz j u : Z) :
  literal_token tok = true → literal_end d = true → 0 < j < 2 ^ 31 →
  Z.of_nat (length tok) + 1 ≤ sz →
  scans_to (front ++ tok ++ d :: rest) key
    (Locals (Z.of_nat (length front)) sz JSON_STATE_VALUE None j 1 u None 0)
    (Locals (Z.of_nat (length (front ++ tok)))
       (sz - Z.of_nat (length tok)) JSON_STATE_VALUE None (j - 1) 1 u
       None 0).
Proof.
  intros Htok Hd Hj Hsz. destruct tok as [|a body]; [discriminate|].
  cbn [literal_token] in Htok. apply andb_true_iff in Htok.
  destruct Htok as [Ha Hbody]. cbn [length] in Hsz.
  set (m := front ++ (a :: body) ++ d :: rest).
  assert (Hm1 : m = (front ++ [a]) ++ body ++ d :: rest).
  { subst m. rewrite <- app_assoc. reflexivity. }
  assert (Hm2 : m = (front ++ a :: body) ++ d :: rest).
  { subst m. rewrite <- app_assoc. reflexivity. }
  eapply scans_to_trans.
  { apply scans_to_turn; [cbn; lia|].
    apply (json_iter_literal_start _ _ a); [apply read_app_middle|exact Ha]. }
  destruct (Z.eqb_spec j 0) as [|_]; [lia|]. rewrite int32_small by lia.
  eapply scans_to_trans.
  { exists (length body). rewrite Hm1.
    replace (Z.of_nat (length front) + 1)
      with (Z.of_nat (length (front ++ [a])))
      by (rewrite length_app; cbn; lia).
    apply json_scan_literal_body; [assumption | lia]. }
  replace (Locals (Z.of_nat (length (front ++ a :: body)))
             (sz - Z.of_nat (length (a :: body))) JSON_STATE_VALUE None
             (j - 1) 1 u None 0)
    with (Locals (Z.of_nat (length (front ++ [a]) + length body))
            (sz - 1 - Z.of_nat (length body)) JSON_STATE_VALUE None
            (j - 1) 1 u None 0)
    by (rewrite !length_app; cbn [length]; f_equal; lia).
  apply scans_to_turn; [cbn; lia|].
  apply (json_iter_literal_end_skip _ _ d); [|exact Hd].
  rewrite Hm2.
  replace (Z.of_nat (length (front ++ [a]) + length body))
    with (Z.of_nat (length (front ++ a :: body)))
    by (rewrite !length_app; cbn [length]; lia).
  apply read_app_middle.
Qed.

Lemma scans_out_array_out_of_range (toks : list buffer) (tail : buffer)
    (i : Z) :
  forallb literal_token toks = true →
  Z.of_nat (length toks) ≤ i < 2 ^ 31 →
  scans_out (array_text toks ++ tail) None
    (json_init (Z.of_nat (length (array_text toks))) None i)
    (ParseResult (-1) None 0).
Proof.
  intros Htoks Hi. cbn [json_init]. rewrite int32_small by lia.
  destruct (list_snoc_cases toks) as [->|(pre & tok & ->)].
  - cbn [array_text join_commas app length].
    eapply scans_to_out.
    { apply scans_to_turn; [cbn; lia|]. apply json_iter_open. reflexivity. }
    eapply scans_to_out.
    { apply scans_to_turn; [cbn; lia|]. apply json_iter_close. reflexivity. }
    apply (scans_out_end _ _ (Locals (1 + 1) (Z.of_nat 2 - 1 - 1)
                               JSON_STATE_VALUE None i 0 0 None 0)).
    reflexivity.
  - rewrite array_text_snoc. rewrite forallb_app in Htoks.
    apply andb_true_iff in Htoks. destruct Htoks as [Hpre Htok].
    cbn [forallb] in Htok. rewrite andb_true_r in Htok.
    rewrite length_app in Hi. cbn [length] in Hi.
    unfold array_prefix.
    set (elems := concat (map (fun t => t ++ [","%char]) pre)).
    rewrite !length_app. cbn [length].
    set (m := (("["%char :: elems) ++ tok ++ ["]"%char]) ++ tail).
    set (sz := Z.of_nat (S (length elems) + (length tok + 1))).
    eapply scans_to_out.
    { apply scans_to_turn; [cbn; lia|]. apply json_iter_open. reflexivity. }
    eapply scans_to_out.
    { change 1 with (Z.of_nat (length ["["%char])) at 1.
      assert (Hm : m = ["["%char] ++ elems ++ tok ++ "]"%char :: tail).
      { subst m. rewrite <- !app_assoc. reflexivity. }
      rewrite Hm. subst elems.
      apply (scans_to_skip_literals None (tok ++ "]"%char :: tail) 0 pre
               ["["%char] (sz - 1) i); [assumption | lia | subst sz; lia]. }
    fold elems.
    eapply scans_to_out.
    { assert (Hm : m = (["["%char] ++ elems) ++ tok ++ "]"%char :: tail).
      { subst m. rewrite <- !app_assoc. reflexivity. }
      rewrite Hm.
      apply scans_to_over_literal;
        [assumption | reflexivity | lia
        | subst sz; rewrite ?length_app; cbn [length]; lia]. }
    eapply scans_to_out.
    { apply scans_to_turn;
        [cbn [l_sz]; subst sz; rewrite ?length_app; cbn [length]; lia|].
      apply json_iter_close.
      assert (Hm : m = ((["["%char] ++ elems) ++ tok) ++ "]"%char :: tail).
      { subst m. rewrite <- !app_assoc. reflexivity. }
      rewrite Hm. apply read_app_middle. }
    apply (scans_out_end _ _
             (Locals (Z.of_nat (length ((["["%char] ++ elems) ++ tok)) + 1)
                (sz - 1 - Z.of_nat (length elems) - Z.of_nat (length tok) - 1)
                JSON_STATE_VALUE None (i - Z.of_nat (length pre) - 1) 0 0
                None 0)).
    cbn [l_sz]. subst sz. lia.
Qed.

(** X14: a position behind the last element. On an array text of
    literals separated by single commas (or with no element), a position
    from the number of elements on, below [2 ^ 31], is not found:
    [json_parse_c] returns the failure code with a null span, and
    [json_parse] returns the empty string. *)
Theorem json_parse_array_out_of_range (toks : list buffer) (i : Z) :
  forallb literal_token toks = true →
  Z.of_nat (length toks) ≤ i < 2 ^ 31 →
  let m := array_text toks in
  json_parse_c m (Z.of_nat (length m)) None i
  = Some (ParseResult (-1) None 0)
  ∧ json_parse (std_string m) "" i = Some "".
Proof.
  intros Htoks Hi m. split.
  - destruct (scans_out_array_out_of_range toks [] i Htoks Hi) as [n Hn].
    rewrite app_nil_r in Hn.
    apply (json_scan_returns n); [subst m; lia | exact I | exact Hn].
  - unfold json_parse.
    destruct (decide ("" = "")) as [_|Hne]; [|contradiction].
    assert (Hc : c_str (std_string m) = array_text toks ++ [NUL]).
    { unfold c_str. rewrite bytes_std_string. reflexivity. }
    assert (Hlen : len (std_string m) = Z.of_nat (length (array_text toks))).
    { rewrite <- length_bytes, bytes_std_string. reflexivity. }
    assert (Hidx : size_t i = i).
    { unfold size_t. apply Z.mod_small. lia. }
    rewrite Hc, Hlen, Hidx.
    destruct (scans_out_array_out_of_range toks [NUL] i Htoks Hi) as [n Hn].
    assert (Hbound : 0 ≤ Z.of_nat (length (array_text toks))
                     ≤ Z.of_nat (length (array_text toks ++ [NUL]))).
    { rewrite length_app. lia. }
    pose proof (json_scan_returns n _ _ None _ _ Hbound I Hn) as Hparse.
    rewrite Hparse. reflexivity.
Qed.

(** X14 at concrete arrays. *)
Lemma json_parse_array_out_of_range_witness :
  json_parse "[1,true]" "" 2 = Some "" ∧ json_parse "[]" "" 0 = Some "".
Proof.
  split.
  - exact (proj2 (json_parse_array_out_of_range [bytes "1"; bytes "true"] 2
                    eq_refl ltac:(cbn; lia))).
  - exact (proj2 (json_parse_array_out_of_range [] 0 eq_refl
                    ltac:(cbn; lia))).
Defined.

Lemma json_switch_string_byte (a : ascii) (l : locals) :
  string_byte a = true → l_state l = JSON_STATE_STRING →
  json_switch (ord a) l = Break JSON_ACTION_NONE l.
Proof.
  intros Ha Hst. unfold json_switch, case_string. rewrite Hst.
  destruct a as [[] [] [] [] [] [] [] []];
    (vm_compute in Ha; discriminate) || reflexivity.
Qed.

Lemma json_iter_open_brace (m : buffer) (key : option buffer)
    (s sz : Z) (k : option Z) (j u : Z) (v : option Z) (ks : Z) :
  read m s = Some "{"%char →
  json_iter m key (Locals s sz JSON_STATE_VALUE k j 0 u v ks)
  = Some (inl (Locals (s + 1) (sz - 1) JSON_STATE_VALUE k j 1 u v ks)).
Proof.
  intros Hread. unfold json_iter. cbn [l_s]. rewrite Hread. reflexivity.
Qed.

Lemma json_iter_colon (m : buffer) (key : option buffer)
    (s sz : Z) (k : option Z) (j d u : Z) (v : option Z) (ks : Z) :
  read m s = Some ":"%char →
  json_iter m key (Locals s sz JSON_STATE_VALUE k j d u v ks)
  = Some (inl (Locals (s + 1) (sz - 1) JSON_STATE_VALUE k j d u v ks)).
Proof.
  intros Hread. unfold json_iter. cbn [l_s]. rewrite Hread. reflexivity.
Qed.

(** The opening quote of a key that is to be compared. *)
Lemma json_iter_key_open (m : buffer) (key : option buffer)
    (s sz : Z) (k : option Z) (u : Z) (v : option Z) (ks : Z) :
  read m s = Some DQUOTE → 0 < ks →
  json_iter m key (Locals s sz JSON_STATE_VALUE k 1 1 u v ks)
  = Some (inl (Locals (s + 1) (sz - 1) JSON_STATE_STRING (Some s) 1 1 u v
                 ks)).
Proof.
  intros Hread Hks. unfold json_iter. cbn [l_s]. rewrite Hread.
  cbn [mbind option_bind].
  change (json_switch (ord DQUOTE)
            (Locals s sz JSON_STATE_VALUE k 1 1 u v ks))
    with (Break JSON_ACTION_START
            (Locals s sz JSON_STATE_STRING k 1 1 u v ks)).
  unfold after_switch, at_depth_one. cbn.
  destruct (Z.ltb_spec 0 ks); [reflexivity | lia].
Qed.

Lemma json_iter_string_byte (m : buffer) (key : option buffer) (a : ascii)
    (s sz : Z) (k : option Z) (j u : Z) (v : option Z) (ks : Z) :
  read m s = Some a → string_byte a = true →
  json_iter m key (Locals s sz JSON_STATE_STRING k j 1 u v ks)
  = Some (inl (Locals (s + 1) (sz - 1) JSON_STATE_STRING k j 1 u v ks)).
Proof.
  intros Hread Ha. unfold json_iter. cbn [l_s]. rewrite Hread.
  cbn [mbind option_bind].
  rewrite json_switch_string_byte by (assumption || reflexivity).
  reflexivity.
Qed.

Lemma json_scan_string_body (key : option buffer) (rest : buffer)
    (k : option Z) (j u : Z) (v : option Z) (ks : Z) (body : buffer) :
  ∀ (front : buffer) (sz : Z),
    forallb string_byte body = true → Z.of_nat (length body) ≤ sz →
    json_scan (length body) (front ++ body ++ rest) key
      (Locals (Z.of_nat (length front)) sz JSON_STATE_STRING k j 1 u v ks)
    = Some (inl (Locals (Z.of_nat (length front + length body))
                   (sz - Z.of_nat (length body)) JSON_STATE_STRING k j 1 u v
                   ks)).
Proof.
  induction body as [|a body IH]; intros front sz Hbody Hsz.
  - cbn. rewrite Nat.add_0_r, Z.sub_0_r. reflexivity.
  - cbn [forallb] in Hbody. apply andb_true_iff in Hbody.
    destruct Hbody as [Ha Hbody]. cbn [length] in *.
    change (S (length body)) with (1 + length body)%nat.
    rewrite (json_scan_app 1 (length body) _ _ _
               (Locals (Z.of_nat (length front) + 1) (sz - 1)
                  JSON_STATE_STRING k j 1 u v ks)).
    + replace (front ++ (a :: body) ++ rest)
        with ((front ++ [a]) ++ body ++ rest)
        by (rewrite <- app_assoc; reflexivity).
      replace (Z.of_nat (length front) + 1)
        with (Z.of_nat (length (front ++ [a])))
        by (rewrite length_app; cbn; lia).
      rewrite IH by (assumption || lia).
      rewrite length_app. cbn [length]. do 3 f_equal; lia.
    + apply json_scan_one; [cbn; lia|].
      apply (json_iter_string_byte _ _ a); [|assumption].
      cbn [app]. apply read_app_middle.
Qed.

(** The closing quote of a key that equals the one searched for. *)
Lemma json_iter_key_close (m : buffer) (key : option buffer)
    (s sz kp j u ks : Z) :
  read m s = Some DQUOTE → 0 < ks →
  key_matches m key (Locals s sz JSON_STATE_VALUE (Some kp) j 1 u None ks) kp
    = Some true →
  json_iter m key (Locals s sz JSON_STATE_STRING (Some kp) j 1 u None ks)
  = Some (inl (Locals (s + 1) (sz - 1) JSON_STATE_VALUE None 0 1 u None ks)).
Proof.
  intros Hread Hks Hmatch. unfold json_iter. cbn [l_s]. rewrite Hread.
  cbn [mbind option_bind].
  change (json_switch (ord DQUOTE)
            (Locals s sz JSON_STATE_STRING (Some kp) j 1 u None ks))
    with (Break JSON_ACTION_END
            (Locals s sz JSON_STATE_VALUE (Some kp) j 1 u None ks)).
  unfold after_switch, at_depth_one.
  cbn [l_depth l_value l_index l_k l_keysz is_start is_end Z.eqb Pos.eqb
       mbind option_bind].
  destruct (Z.ltb_spec 0 ks); [|lia].
  rewrite Hmatch. reflexivity.
Qed.

Lemma key_matches_hit (front keyb rest ktail : buffer) (sz j u : Z) :
  Z.of_nat (length keyb) < 2 ^ 64 →
  key_matches (front ++ DQUOTE :: keyb ++ DQUOTE :: rest)
    (Some (keyb ++ ktail))
    (Locals (Z.of_nat (length (front ++ DQUOTE :: keyb))) sz JSON_STATE_VALUE
       (Some (Z.of_nat (length front))) j 1 u None (Z.of_nat (length keyb)))
    (Z.of_nat (length front))
  = Some true.
Proof.
  intros Hmax. unfold key_matches. cbn [l_keysz l_s].
  replace (Z.of_nat (length (front ++ DQUOTE :: keyb))
           - Z.of_nat (length front) - 1)
    with (Z.of_nat (length keyb))
    by (rewrite length_app; cbn [length]; lia).
  unfold size_t. rewrite Z.mod_small by lia. rewrite Z.eqb_refl.
  cbn [mbind option_bind]. unfold memcmp_eq.
  pose proof (read_n_app_middle [] keyb ktail) as Hk.
  cbn [app length] in Hk. change (Z.of_nat 0) with 0 in Hk. rewrite Hk.
  cbn [mbind option_bind].
  pose proof (read_n_app_middle (front ++ [DQUOTE]) keyb (DQUOTE :: rest))
    as Hm.
  rewrite <- app_assoc in Hm. cbn [app] in Hm.
  replace (Z.of_nat (length (front ++ [DQUOTE])))
    with (Z.of_nat (length front) + 1) in Hm
    by (rewrite length_app; cbn [length]; lia).
  rewrite Hm. cbn [mbind option_bind].
  rewrite bool_decide_eq_true_2 by reflexivity. reflexivity.
Qed.

Lemma json_iter_literal_start_hit (m : buffer) (key : option buffer)
    (a : ascii) (s sz : Z) (k : option Z) (u : Z) (v : option Z) (ks : Z) :
  read m s = Some a → literal_start a = true →
  json_iter m key (Locals s sz JSON_STATE_VALUE k 0 1 u v ks)
  = Some (inl (Locals (s + 1) (sz - 1) JSON_STATE_LITERAL k 0 1 u (Some s)
                 ks)).
Proof.
  intros Hread Ha. unfold json_iter. cbn [l_s]. rewrite Hread.
  cbn [mbind option_bind].
  rewrite json_switch_literal_start by (assumption || reflexivity).
  reflexivity.
Qed.

(** The scan of an object whose first key is the one searched for, up to
    the end of its literal value. *)
Lemma scans_out_first_key (keyb ktail tok rest : buffer) (d : ascii)
    (sz : Z) :
  keyb ≠ [] → forallb string_byte keyb = true →
  literal_token tok = true → literal_end d = true →
  Z.of_nat (length keyb) < 2 ^ 64 → Z.of_nat (length tok) < 2 ^ 64 →
  Z.of_nat (length (object_head keyb ++ tok)) + 1 ≤ sz →
  scans_out (object_head keyb ++ tok ++ d :: rest) (Some (keyb ++ ktail))
    (json_init sz (Some (keyb ++ ktail)) (Z.of_nat (length keyb)))
    (ParseResult 0 (Some (Z.of_nat (length (object_head keyb))))
       (Z.of_nat (length tok))).
Proof.
  intros Hne Hkey Htok Hd Hkmax Htokmax Hsz.
  assert (Hks : 0 < Z.of_nat (length keyb)).
  { destruct keyb; [contradiction | cbn [length]; lia]. }
  destruct tok as [|a body]; [discriminate|].
  cbn [literal_token] in Htok. apply andb_true_iff in Htok.
  destruct Htok as [Ha Hbody].
  assert (Hhead : Z.of_nat (length (object_head keyb))
                  = Z.of_nat (length keyb) + 4).
  { unfold object_head. cbn [length]. rewrite length_app. cbn [length]. lia. }
  rewrite length_app in Hsz. cbn [length] in Hsz, Htokmax.
  set (ks := Z.of_nat (length keyb)) in *.
  set (key := Some (keyb ++ ktail)).
  set (m := object_head keyb ++ (a :: body) ++ d :: rest).
  assert (Hm0 : m = [] ++ "{"%char :: DQUOTE :: keyb
                        ++ DQUOTE :: ":"%char :: a :: body ++ d :: rest).
  { subst m. unfold object_head. cbn [app]. rewrite <- app_assoc.
    reflexivity. }
  assert (Hm1 : m = ["{"%char] ++ DQUOTE :: keyb
                        ++ DQUOTE :: ":"%char :: a :: body ++ d :: rest)
    by exact Hm0.
  assert (Hm2 : m = ["{"%char; DQUOTE] ++ keyb
                        ++ DQUOTE :: ":"%char :: a :: body ++ d :: rest)
    by exact Hm0.
  assert (Hm3 : m = (["{"%char] ++ DQUOTE :: keyb)
                    ++ DQUOTE :: ":"%char :: a :: body ++ d :: rest).
  { rewrite Hm1, <- app_assoc. reflexivity. }
  assert (Hm4 : m = (["{"%char] ++ DQUOTE :: keyb ++ [DQUOTE])
                    ++ ":"%char :: a :: body ++ d :: rest).
  { rewrite Hm1, <- !app_assoc. cbn [app]. rewrite <- app_assoc.
    reflexivity. }
  assert (Hm5 : m = object_head keyb ++ a :: body ++ d :: rest)
    by reflexivity.
  assert (Hm6 : m = (object_head keyb ++ [a]) ++ body ++ d :: rest).
  { rewrite Hm5, <- app_assoc. reflexivity. }
  assert (Hm7 : m = (object_head keyb ++ a :: body) ++ d :: rest).
  { rewrite Hm5, <- app_assoc. reflexivity. }
  cbn [json_init]. fold key.
  eapply scans_to_out.
  { apply scans_to_turn; [cbn; lia|].
    apply json_iter_open_brace. rewrite Hm0. apply (read_app_middle []). }
  eapply scans_to_out.
  { apply scans_to_turn; [cbn; lia|].
    apply json_iter_key_open; [|exact Hks].
    rewrite Hm1. apply (read_app_middle ["{"%char]). }
  eapply scans_to_out.
  { exists (length keyb). rewrite Hm2.
    change (0 + 1 + 1) with (Z.of_nat (length ["{"%char; DQUOTE])).
    apply json_scan_string_body; [assumption | cbn [length]; lia]. }
  eapply scans_to_out.
  { apply scans_to_turn; [cbn [l_sz length]; lia|].
    replace (Z.of_nat (length ["{"%char; DQUOTE] + length keyb))
      with (Z.of_nat (length (["{"%char] ++ DQUOTE :: keyb)))
      by (cbn [length app]; lia).
    apply json_iter_key_close; [|exact Hks|].
    - rewrite Hm3. apply read_app_middle.
    - rewrite Hm1. subst key ks.
      change (Some 1) with (Some (Z.of_nat (length ["{"%char]))).
      change 1 with (Z.of_nat (length ["{"%char])) at 3.
      apply key_matches_hit. assumption. }
  eapply scans_to_out.
  { apply scans_to_turn; [cbn [l_sz length]; lia|].
    apply json_iter_colon.
    replace (Z.of_nat (length (["{"%char] ++ DQUOTE :: keyb)) + 1)
      with (Z.of_nat (length (["{"%char] ++ DQUOTE :: keyb ++ [DQUOTE])))
      by (cbn [length app]; rewrite length_app; cbn [length]; lia).
    rewrite Hm4. apply read_app_middle. }
  eapply scans_to_out.
  { apply scans_to_turn; [cbn [l_sz length]; lia|].
    apply (json_iter_literal_start_hit _ _ a); [|exact Ha].
    replace (Z.of_nat (length (["{"%char] ++ DQUOTE :: keyb)) + 1 + 1)
      with (Z.of_nat (length (object_head keyb)))
      by (rewrite Hhead; cbn [length app]; lia).
    rewrite Hm5. apply read_app_middle. }
  eapply scans_to_out.
  { exists (length body). rewrite Hm6.
    replace (Z.of_nat (length (["{"%char] ++ DQUOTE :: keyb)) + 1 + 1 + 1)
      with (Z.of_nat (length (object_head keyb ++ [a])))
      by (rewrite length_app, Nat2Z.inj_add, Hhead; cbn [length app]; lia).
    apply json_scan_literal_body;
      [assumption | cbn [length]; lia]. }
  replace (ParseResult 0 (Some (Z.of_nat (length (object_head keyb))))
             (Z.of_nat (length (a :: body))))
    with (ParseResult 0
            (Some (Z.of_nat (length (["{"%char] ++ DQUOTE :: keyb)) + 1 + 1))
            (size_t (Z.of_nat (length (object_head keyb ++ [a]) + length body)
                     - (Z.of_nat (length (["{"%char] ++ DQUOTE :: keyb))
                        + 1 + 1)))).
  2: { f_equal.
       - f_equal. rewrite Hhead. cbn [length app]. subst ks. lia.
       - rewrite length_app, Nat2Z.inj_add, Nat2Z.inj_add, Hhead.
         cbn [length app]. unfold size_t. subst ks.
         rewrite Z.mod_small; lia. }
  apply scans_out_turn; [cbn [l_sz length]; subst ks; lia|].
  apply (json_iter_literal_end_hit _ _ d); [|exact Hd].
  rewrite Hm7.
  replace (Z.of_nat (length (object_head keyb ++ [a]) + length body))
    with (Z.of_nat (length (object_head keyb ++ a :: body)))
    by (rewrite !length_app; cbn [length]; lia).
  apply read_app_middle.
Qed.

Lemma json_parse_key_head (keyb tok rest : buffer) (d : ascii) (index : Z) :
  keyb ≠ [] → forallb string_byte keyb = true →
  literal_token tok = true → literal_end d = true →
  Z.of_nat (length keyb) < 2 ^ 64 - 1 → Z.of_nat (length tok) < 2 ^ 64 →
  json_parse (std_string (object_head keyb ++ tok ++ d :: rest))
    (std_string keyb) index
  = Some (std_string tok).
Proof.
  intros Hne Hkey Htok Hd Hkmax Htokmax.
  set (m := object_head keyb ++ tok ++ d :: rest).
  assert (Hok : key_ok (Some (keyb ++ [NUL])) (Z.of_nat (length keyb))).
  { cbn. rewrite length_app. cbn [length]. lia. }
  unfold json_parse.
  destruct (decide (std_string keyb = "")) as [Hempty|_].
  { exfalso. apply Hne. rewrite <- (bytes_std_string keyb), Hempty.
    reflexivity. }
  assert (Hc : c_str (std_string m)
               = object_head keyb ++ tok ++ d :: (rest ++ [NUL])).
  { unfold c_str. rewrite bytes_std_string. subst m.
    rewrite <- !app_assoc. reflexivity. }
  assert (Hlen : len (std_string m) = Z.of_nat (length m)).
  { rewrite <- length_bytes, bytes_std_string. reflexivity. }
  assert (Hck : c_str (std_string keyb) = keyb ++ [NUL]).
  { unfold c_str. rewrite bytes_std_string. reflexivity. }
  assert (Hklen : len (std_string keyb) = Z.of_nat (length keyb)).
  { rewrite <- length_bytes, bytes_std_string. reflexivity. }
  rewrite Hc, Hlen, Hck, Hklen.
  destruct (scans_out_first_key keyb [NUL] tok (rest ++ [NUL]) d
              (Z.of_nat (length m)) Hne Hkey Htok Hd ltac:(lia) Htokmax)
    as [n Hn].
  { subst m. rewrite !length_app. cbn [length]. lia. }
  assert (Hbound : 0 ≤ Z.of_nat (length m)
                   ≤ Z.of_nat (length (object_head keyb ++ tok
                                       ++ d :: rest ++ [NUL]))).
  { subst m. rewrite !length_app. cbn [length]. rewrite !length_app.
    cbn [length]. lia. }
  pose proof (json_scan_returns n _ _ _ _ _ Hbound Hok Hn) as Hparse.
  rewrite Hparse. cbn [mbind option_bind r_value r_valuesz].
  assert (Hfirst : ∃ a body, tok = a :: body ∧ literal_start a = true).
  { destruct tok as [|a body]; [discriminate|]. exists a, body.
    cbn [literal_token] in Htok. apply andb_true_iff in Htok.
    split; [reflexivity | apply Htok]. }
  destruct Hfirst as (a & body & Etok & Ha).
  assert (Hread : read (object_head keyb ++ tok ++ d :: rest ++ [NUL])
                    (Z.of_nat (length (object_head keyb))) = Some a).
  { rewrite Etok. apply read_app_middle. }
  rewrite Hread. cbn [mbind option_bind].
  rewrite (literal_start_not_quote a Ha). cbn [negb].
  rewrite read_n_app_middle. reflexivity.
Qed.

(** X15: key search for the first key of an object. In a text that
    starts with an opening brace, a quoted key of plain bytes, a colon
    and a literal ended by a space, a comma, a colon or a closing
    bracket, searching for that key returns the span of the literal from
    [json_parse_c] and the literal itself from [json_parse], whatever
    position is passed along and whatever follows. *)
Theorem json_parse_first_key (keyb tok rest : buffer) (d : ascii)
    (index : Z) :
  keyb ≠ [] → forallb string_byte keyb = true →
  literal_token tok = true → literal_end d = true →
  Z.of_nat (length keyb) < 2 ^ 64 - 1 → Z.of_nat (length tok) < 2 ^ 64 →
  let m := object_head keyb ++ tok ++ d :: rest in
  json_parse_c m (Z.of_nat (length m)) (Some (keyb ++ [NUL]))
    (Z.of_nat (length keyb))
  = Some (ParseResult 0 (Some (Z.of_nat (length (object_head keyb))))
            (Z.of_nat (length tok)))
  ∧ json_parse (std_string m) (std_string keyb) index
    = Some (std_string tok).
Proof.
  intros Hne Hkey Htok Hd Hkmax Htokmax m.
  assert (Hok : key_ok (Some (keyb ++ [NUL])) (Z.of_nat (length keyb))).
  { cbn. rewrite length_app. cbn [length]. lia. }
  split.
  - destruct (scans_out_first_key keyb [NUL] tok rest d (Z.of_nat (length m))
                Hne Hkey Htok Hd ltac:(lia) Htokmax) as [n Hn].
    { subst m. rewrite !length_app. cbn [length]. lia. }
    apply (json_scan_returns n); [lia | exact Hok | exact Hn].
  - apply json_parse_key_head; assumption.
Qed.

(** X15 at a concrete object. *)
Lemma json_parse_first_key_witness :
  json_parse (json_text "{'id':17,'method':'add','params':[2,3]}") "id" 0
  = Some "17".
Proof.
  exact (proj2 (json_parse_first_key (bytes "id") (bytes "17")
                  (bytes (json_text "'method':'add','params':[2,3]}"))
                  ","%char 0 ltac:(discriminate) eq_refl eq_refl eq_refl
                  ltac:(cbn; lia) ltac:(cbn; lia))).
Defined.

(** X16: the id of a call reaches the callback as it was sent. For every
    message that starts, as the injected script writes it, with the key
    [id] and a literal followed by a comma, [on_message] hands that
    literal, byte for byte, as the sequence to the function bound to the
    decoded method. *)
Theorem on_message_passes_id {binding_t void_ptr : Type}
    (tok rest : buffer) (w : webview binding_t void_ptr) :
  literal_token tok = true → Z.of_nat (length tok) < 2 ^ 64 →
  let msg := std_string (object_head (bytes "id") ++ tok
                         ++ ","%char :: rest) in
  ∃ name args,
    json_parse msg "method" 0 = Some name
    ∧ json_parse msg "params" 0 = Some args
    ∧ on_message msg w
      = Some (Webview (engine w) (bindings w)
                (invoked w ++
                 match bindings w !! name with
                 | Some fn =>
                     [Invocation (fst fn) (std_string tok) args (snd fn)]
                 | None => []
                 end)).
Proof.
  intros Htok Hmax msg.
  destruct (json_parse_total msg "method" 0) as [name Hname]; [reflexivity|].
  destruct (json_parse_total msg "params" 0) as [args Hargs]; [reflexivity|].
  exists name, args. split; [exact Hname|]. split; [exact Hargs|].
  assert (Hid : json_parse msg "id" 0 = Some (std_string tok)).
  { exact (json_parse_key_head (bytes "id") tok rest ","%char 0
             ltac:(discriminate) eq_refl Htok eq_refl
             ltac:(cbn; lia) Hmax). }
  apply on_message_decoded; assumption.
Qed.

(** X16 at a concrete call of a bound function. *)
Lemma on_message_passes_id_witness :
  let w : webview nat Z := bind "add" 7%nat 99 webview_create in
  ∃ w1, on_message
          (json_text "{'id':4096,'method':'add','params':[2,3]}") w
        = Some w1
        ∧ i_seq <$> invoked w1 = ["4096"].
Proof.
  cbn zeta.
  destruct (on_message_passes_id (bytes "4096")
              (bytes (json_text "'method':'add','params':[2,3]}"))
              (bind "add" 7%nat 99 (@webview_create nat Z))
              eq_refl ltac:(cbn; lia))
    as (name & args & Hname & _ & Hmsg).
  eexists. split; [exact Hmsg|].
  assert (Hadd : json_parse
                   (json_text "{'id':4096,'method':'add','params':[2,3]}")
                   "method" 0 = Some "add") by (vm_compute; reflexivity).
  change (std_string (object_head (bytes "id") ++ bytes "4096"
                      ++ ","%char
                         :: bytes (json_text "'method':'add','params':[2,3]}")))
    with (json_text "{'id':4096,'method':'add','params':[2,3]}") in Hname.
  rewrite Hadd in Hname. injection Hname as <-.
  cbn [invoked bind with_engine bindings].
  rewrite lookup_insert_eq. reflexivity.
Defined.

(** ** The scan of a JSON text *)

Lemma holds_at_app (m t1 : buffer) :
  ∀ (p : Z) (t2 : buffer),
    holds_at m p (t1 ++ t2)
    ↔ holds_at m p t1 ∧ holds_at m (p + Z.of_nat (length t1)) t2.
Proof.
  induction t1 as [|a t1 IH]; intros p t2; cbn [app holds_at length].
  - change (Z.of_nat 0) with 0. rewrite Z.add_0_r. tauto.
  - rewrite IH.
    replace (p + 1 + Z.of_nat (length t1))
      with (p + Z.of_nat (S (length t1))) by lia.
    tauto.
Qed.

Lemma holds_at_app_middle (t : buffer) :
  ∀ front rest : buffer,
    holds_at (front ++ t ++ rest) (Z.of_nat (length front)) t.
Proof.
  induction t as [|a t IH]; intros front rest; cbn [holds_at app];
    [exact I|].
  split; [apply read_app_middle|].
  specialize (IH (front ++ [a]) rest).
  rewrite <- app_assoc in IH. cbn [app] in IH.
  replace (Z.of_nat (length front) + 1)
    with (Z.of_nat (length (front ++ [a])))
    by (rewrite length_app; cbn [length]; lia).
  exact IH.
Qed.

Lemma holds_at_take (m t : buffer) :
  ∀ p : Z, 0 ≤ p → holds_at m p t →
    take (length t) (drop (Z.to_nat p) m) = t
    ∧ (t ≠ [] → p + Z.of_nat (length t) ≤ Z.of_nat (length m)).
Proof.
  induction t as [|a t IH]; intros p Hp Ht; cbn [holds_at length] in *.
  - split; [reflexivity | congruence].
  - destruct Ht as [Ha Ht]. unfold read in Ha.
    destruct (Z.ltb_spec p 0); [lia|].
    destruct (IH (p + 1) ltac:(lia) Ht) as [Htake Hlen].
    replace (Z.to_nat (p + 1)) with (S (Z.to_nat p)) in Htake by lia.
    rewrite (drop_S _ _ _ Ha). cbn [take]. rewrite Htake.
    split; [reflexivity|]. intros _.
    apply lookup_lt_Some in Ha.
    destruct t as [|b t]; [cbn [length]; lia|].
    specialize (Hlen ltac:(discriminate)). lia.
Qed.

Lemma holds_at_read_n (m t : buffer) (p : Z) :
  0 ≤ p → t ≠ [] → holds_at m p t →
  read_n m p (Z.of_nat (length t)) = Some t.
Proof.
  intros Hp Hne Ht. destruct (holds_at_take m t p Hp Ht) as [Htake Hlen].
  specialize (Hlen Hne). unfold read_n.
  destruct (Z.ltb_spec p 0); [lia|].
  destruct (Z.ltb_spec (Z.of_nat (length t)) 0); [lia|].
  destruct (Z.ltb_spec (Z.of_nat (length m)) (p + Z.of_nat (length t)));
    [lia|].
  cbn [orb]. rewrite Nat2Z.id, Htake. reflexivity.
Qed.

Lemma scans_to_refl (m : buffer) (key : option buffer) (l l1 : locals) :
  l = l1 → scans_to m key l l1.
Proof. intros <-. exists 0%nat. reflexivity. Qed.

Lemma scans_to_step (m : buffer) (key : option buffer) (l l1 l2 : locals) :
  0 < l_sz l → json_iter m key l = Some (inl l1) → l1 = l2 →
  scans_to m key l l2.
Proof. intros Hsz Hiter <-. apply scans_to_turn; assumption. Qed.

Lemma scans_to_eq (m : buffer) (key : option buffer) (l l1 l2 : locals) :
  scans_to m key l l1 → l1 = l2 → scans_to m key l l2.
Proof. intros H <-. exact H. Qed.

(** *** What the [switch] does on the bytes of a JSON text *)

Lemma json_switch_quote_open (l : locals) :
  l_state l = JSON_STATE_VALUE →
  json_switch (ord DQUOTE) l
  = Break JSON_ACTION_START (set_state JSON_STATE_STRING l).
Proof. intros Hst. unfold json_switch. rewrite Hst. reflexivity. Qed.

Lemma json_switch_quote_close (l : locals) :
  l_state l = JSON_STATE_STRING →
  json_switch (ord DQUOTE) l
  = Break JSON_ACTION_END (set_state JSON_STATE_VALUE l).
Proof. intros Hst. unfold json_switch. rewrite Hst. reflexivity. Qed.

Lemma json_switch_backslash (l : locals) :
  l_state l = JSON_STATE_STRING →
  json_switch (ord BACKSLASH) l
  = Break JSON_ACTION_NONE (set_state JSON_STATE_ESCAPE l).
Proof. intros Hst. unfold json_switch. rewrite Hst. reflexivity. Qed.

Lemma json_switch_escape (e c : ascii) (l : locals) :
  unescape_char e = Some c → l_state l = JSON_STATE_ESCAPE →
  json_switch (ord e) l
  = Break JSON_ACTION_NONE (set_state JSON_STATE_STRING l).
Proof.
  intros He Hst. unfold json_switch. rewrite Hst.
  destruct e as [[] [] [] [] [] [] [] []];
    (vm_compute in He; discriminate) || reflexivity.
Qed.

Lemma json_switch_open (a : ascii) (l : locals) :
  a = "["%char ∨ a = "{"%char → l_state l = JSON_STATE_VALUE →
  json_switch (ord a) l = Break JSON_ACTION_START_STRUCT l.
Proof.
  intros [-> | ->] Hst; unfold json_switch; rewrite Hst; reflexivity.
Qed.

Lemma json_switch_close (a : ascii) (l : locals) :
  a = "]"%char ∨ a = "}"%char → l_state l = JSON_STATE_VALUE →
  json_switch (ord a) l = Break JSON_ACTION_END_STRUCT l.
Proof.
  intros [-> | ->] Hst; unfold json_switch; rewrite Hst; reflexivity.
Qed.

(** *** Single turns, by the action of the [switch] *)

(** With no action the locals are what the [switch] left, at any
    depth. *)
Lemma json_iter_no_action (m : buffer) (key : option buffer) (a : ascii)
    (l l1 : locals) :
  read m (l_s l) = Some a →
  json_switch (ord a) l = Break JSON_ACTION_NONE l1 →
  json_iter m key l = Some (inl (advance l1)).
Proof.
  intros Hread Hsw. unfold json_iter. rewrite Hread.
  cbn [mbind option_bind]. rewrite Hsw.
  unfold after_switch, at_depth_one. cbn [is_start is_end].
  destruct (l_depth l1 =? 1); reflexivity.
Qed.

(** The start and the end of a string or a literal away from depth 1. *)
Lemma json_iter_deep (m : buffer) (key : option buffer) (a : ascii)
    (act : json_action) (l l1 : locals) :
  read m (l_s l) = Some a → json_switch (ord a) l = Break act l1 →
  act = JSON_ACTION_START ∨ act = JSON_ACTION_END → l_depth l1 ≠ 1 →
  json_iter m key l = Some (inl (advance l1)).
Proof.
  intros Hread Hsw Hact Hd. unfold json_iter. rewrite Hread.
  cbn [mbind option_bind]. rewrite Hsw. unfold after_switch.
  destruct Hact as [-> | ->]; cbv zeta iota;
    destruct (Z.eqb_spec (l_depth l1) 1); try contradiction; reflexivity.
Qed.

Lemma json_iter_deep_open (m : buffer) (key : option buffer) (a : ascii)
    (l l1 : locals) :
  read m (l_s l) = Some a →
  json_switch (ord a) l = Break JSON_ACTION_START_STRUCT l1 →
  l_depth l1 ≠ 1 →
  json_iter m key l
  = Some (inl (advance (set_depth (int32 (l_depth l1 + 1)) l1))).
Proof.
  intros Hread Hsw Hd. unfold json_iter. rewrite Hread.
  cbn [mbind option_bind]. rewrite Hsw. unfold after_switch. cbv zeta iota.
  destruct (Z.eqb_spec (l_depth l1) 1); try contradiction; reflexivity.
Qed.

Lemma json_iter_deep_close (m : buffer) (key : option buffer) (a : ascii)
    (l l1 : locals) :
  read m (l_s l) = Some a →
  json_switch (ord a) l = Break JSON_ACTION_END_STRUCT l1 →
  int32 (l_depth l1 - 1) ≠ 1 →
  json_iter m key l
  = Some (inl (advance (set_depth (int32 (l_depth l1 - 1)) l1))).
Proof.
  intros Hread Hsw Hd. unfold json_iter. rewrite Hread.
  cbn [mbind option_bind]. rewrite Hsw. unfold after_switch. cbv zeta iota.
  cbn [l_depth set_depth].
  destruct (Z.eqb_spec (int32 (l_depth l1 - 1)) 1); try contradiction;
    reflexivity.
Qed.

(** *** The bytes inside a literal and inside a string, at any depth *)

Lemma scans_to_literal_bytes (m : buffer) (key : option buffer)
    (k : option Z) (j d u : Z) (v : option Z) (ks : Z) (body : buffer) :
  ∀ p sz : Z,
    forallb literal_byte body = true → holds_at m p body →
    Z.of_nat (length body) ≤ sz →
    scans_to m key (Locals p sz JSON_STATE_LITERAL k j d u v ks)
      (Locals (p + Z.of_nat (length body)) (sz - Z.of_nat (length body))
         JSON_STATE_LITERAL k j d u v ks).
Proof.
  induction body as [|a body IH]; intros p sz Hbody Hat Hsz;
    cbn [length holds_at forallb] in *.
  - apply scans_to_refl. locals_eq.
  - apply andb_true_iff in Hbody. destruct Hbody as [Ha Hbody].
    destruct Hat as [Hread Hat].
    eapply scans_to_trans.
    { eapply scans_to_step; [cbn [l_sz]; lia | | reflexivity].
      eapply json_iter_no_action; [exact Hread|].
      apply json_switch_literal_byte; [exact Ha | reflexivity]. }
    norm_locals.
    eapply scans_to_eq; [apply IH; [assumption | assumption | lia]|].
    locals_eq.
Qed.

Lemma scans_to_escaped_bytes (m : buffer) (key : option buffer)
    (k : option Z) (j d u : Z) (v : option Z) (ks : Z) (n : nat) :
  ∀ (body : buffer) (p sz : Z),
    (length body ≤ n)%nat → escaped_text body = true →
    holds_at m p body → Z.of_nat (length body) ≤ sz →
    scans_to m key (Locals p sz JSON_STATE_STRING k j d u v ks)
      (Locals (p + Z.of_nat (length body)) (sz - Z.of_nat (length body))
         JSON_STATE_STRING k j d u v ks).
Proof.
  induction n as [|n IH]; intros body p sz Hn Hbody Hat Hsz.
  { destruct body; [|cbn [length] in Hn; lia].
    apply scans_to_refl. cbn [length]. locals_eq. }
  destruct body as [|a body]; [apply scans_to_refl; cbn [length]; locals_eq|].
  cbn [escaped_text] in Hbody. cbn [length holds_at] in Hn, Hat, Hsz.
  destruct Hat as [Hread Hat].
  destruct (Ascii.eqb a BACKSLASH) eqn:Ea.
  - apply Ascii.eqb_eq in Ea. subst a.
    destruct body as [|e body]; [discriminate|].
    destruct (unescape_char e) as [c|] eqn:He; [|discriminate].
    cbn [length holds_at] in Hn, Hat, Hsz. destruct Hat as [Hread1 Hat].
    eapply scans_to_trans.
    { eapply scans_to_step; [cbn [l_sz]; lia | | reflexivity].
      eapply json_iter_no_action; [exact Hread|].
      apply json_switch_backslash. reflexivity. }
    norm_locals.
    eapply scans_to_trans.
    { eapply scans_to_step; [cbn [l_sz]; lia | | reflexivity].
      eapply json_iter_no_action; [exact Hread1|].
      apply (json_switch_escape e c); [exact He | reflexivity]. }
    norm_locals.
    eapply scans_to_eq;
      [apply (IH body); [lia | assumption | exact Hat | lia]|].
    cbn [length]. locals_eq.
  - apply andb_true_iff in Hbody. destruct Hbody as [Ha Hbody].
    eapply scans_to_trans.
    { eapply scans_to_step; [cbn [l_sz]; lia | | reflexivity].
      eapply json_iter_no_action; [exact Hread|].
      apply json_switch_string_byte; [exact Ha | reflexivity]. }
    norm_locals.
    eapply scans_to_eq;
      [apply (IH body); [lia | assumption | exact Hat | lia]|].
    cbn [length]. locals_eq.
Qed.

(** *** Values below the first level *)

Lemma skips_literal (tok : buffer) : literal_token tok = true → skips tok.
Proof.
  intros Htok m key p sz k j d u v ks dl Hat Hdl Hd Hdmax Hsz.
  destruct tok as [|a body]; [discriminate|].
  cbn [literal_token] in Htok. apply andb_true_iff in Htok.
  destruct Htok as [Ha Hbody].
  cbn [app holds_at length] in Hat, Hsz, Hdmax |- *.
  destruct Hat as [Hread Hat]. apply holds_at_app in Hat.
  destruct Hat as [Hat [Hend _]].
  eapply scans_to_trans.
  { eapply scans_to_step; [cbn [l_sz]; lia | | reflexivity].
    eapply json_iter_deep;
      [exact Hread
      | apply json_switch_literal_start; [exact Ha | reflexivity]
      | left; reflexivity | norm_locals; lia]. }
  norm_locals.
  eapply scans_to_trans.
  { apply scans_to_literal_bytes; [exact Hbody | exact Hat | lia]. }
  eapply scans_to_step; [cbn [l_sz]; lia | | ].
  - eapply json_iter_deep;
      [exact Hend
      | apply json_switch_literal_end; [exact Hdl | reflexivity]
      | right; reflexivity | norm_locals; lia].
  - locals_eq.
Qed.

Lemma skips_string (body : buffer) :
  escaped_text body = true → skips (DQUOTE :: body ++ [DQUOTE]).
Proof.
  intros Hbody m key p sz k j d u v ks dl Hat Hdl Hd Hdmax Hsz.
  cbn [app holds_at length] in Hat, Hsz, Hdmax |- *.
  rewrite length_app in Hsz, Hdmax |- *. cbn [length] in Hsz, Hdmax |- *.
  destruct Hat as [Hread Hat]. rewrite <- app_assoc in Hat.
  apply holds_at_app in Hat. destruct Hat as [Hat [Hclose _]].
  eapply scans_to_trans.
  { eapply scans_to_step; [cbn [l_sz]; lia | | reflexivity].
    eapply json_iter_deep;
      [exact Hread | apply json_switch_quote_open; reflexivity
      | left; reflexivity | norm_locals; lia]. }
  norm_locals.
  eapply scans_to_trans.
  { apply (scans_to_escaped_bytes _ _ _ _ _ _ _ _ (length body) body);
      [lia | exact Hbody | exact Hat | lia]. }
  eapply scans_to_step; [cbn [l_sz]; lia | | ].
  - eapply json_iter_deep;
      [exact Hclose | apply json_switch_quote_close; reflexivity
      | right; reflexivity | norm_locals; lia].
  - locals_eq.
Qed.

Lemma join_commas_cons (t t2 : buffer) (texts : list buffer) :
  join_commas (t :: t2 :: texts) = t ++ ","%char :: join_commas (t2 :: texts).
Proof. reflexivity. Qed.

(** The elements of an array or the members of an object, up to the
    closing bracket. *)
Lemma skips_join (texts : list buffer) :
  Forall skips texts →
  ∀ (m : buffer) (key : option buffer) (p sz : Z) (k : option Z)
    (j d u : Z) (v : option Z) (ks : Z) (c : ascii),
    holds_at m p (join_commas texts ++ [c]) → literal_end c = true →
    2 ≤ d → d + Z.of_nat (length (join_commas texts)) < 2 ^ 31 →
    Z.of_nat (length (join_commas texts)) < sz →
    scans_to m key (Locals p sz JSON_STATE_VALUE k j d u v ks)
      (Locals (p + Z.of_nat (length (join_commas texts)))
         (sz - Z.of_nat (length (join_commas texts)))
         JSON_STATE_VALUE k j d u v ks).
Proof.
  induction 1 as [|t texts Ht Hts IH];
    intros m key p sz k j d u v ks c Hat Hc Hd Hdmax Hsz.
  - apply scans_to_refl. cbn [join_commas length]. locals_eq.
  - destruct texts as [|t2 texts].
    + cbn [join_commas] in *. apply (Ht m key p sz k j d u v ks c);
        assumption.
    + rewrite join_commas_cons in *.
      set (J := join_commas (t2 :: texts)) in *.
      rewrite length_app in Hsz, Hdmax |- *.
      cbn [length] in Hsz, Hdmax |- *.
      rewrite <- app_assoc in Hat. apply holds_at_app in Hat.
      destruct Hat as [Hat Hrest]. cbn [app holds_at] in Hrest.
      destruct Hrest as [Hcomma Hrest].
      eapply scans_to_trans.
      { apply (Ht m key p sz k j d u v ks ","%char);
          [|reflexivity | lia | lia | lia].
        apply holds_at_app. split; [exact Hat|]. split; [exact Hcomma|exact I]. }
      eapply scans_to_trans.
      { eapply scans_to_step; [cbn [l_sz]; lia | | reflexivity].
        apply json_iter_comma. exact Hcomma. }
      eapply scans_to_eq.
      { apply (IH m key _ _ k j d u v ks c);
          [exact Hrest | exact Hc | lia | lia | lia]. }
      locals_eq.
Qed.

(** An array or an object: the opening bracket, what stands between the
    brackets, and the closing bracket. *)
Lemma skips_struct (o c : ascii) (texts : list buffer) :
  (o = "["%char ∧ c = "]"%char) ∨ (o = "{"%char ∧ c = "}"%char) →
  Forall skips texts → skips (o :: join_commas texts ++ [c]).
Proof.
  intros Hoc Htexts m key p sz k j d u v ks dl Hat Hdl Hd Hdmax Hsz.
  set (J := join_commas texts) in *.
  cbn [app holds_at length] in Hat, Hsz, Hdmax |- *.
  rewrite length_app in Hsz, Hdmax |- *. cbn [length] in Hsz, Hdmax |- *.
  destruct Hat as [Hopen Hat]. rewrite <- app_assoc in Hat.
  pose proof Hat as Hinner.
  apply holds_at_app in Hat. destruct Hat as [Hat [Hclose _]].
  assert (Hc : literal_end c = true)
    by (destruct Hoc as [[_ ->] | [_ ->]]; reflexivity).
  eapply scans_to_trans.
  { eapply scans_to_step; [cbn [l_sz]; lia | | reflexivity].
    eapply json_iter_deep_open;
      [exact Hopen
      | apply json_switch_open; [|reflexivity];
        destruct Hoc as [[-> _] | [-> _]]; [left | right]; reflexivity
      | norm_locals; lia]. }
  norm_locals. rewrite int32_small by lia.
  eapply scans_to_trans.
  { apply (skips_join texts Htexts m key _ _ k j (d + 1) u v ks c);
      [|exact Hc | lia | fold J; lia | fold J; lia].
    fold J. apply holds_at_app. split; [exact Hat|].
    split; [exact Hclose | exact I]. }
  fold J.
  eapply scans_to_step; [cbn [l_sz]; lia | | ].
  - eapply json_iter_deep_close;
      [exact Hclose
      | apply json_switch_close; [|reflexivity];
        destruct Hoc as [[_ ->] | [_ ->]]; [left | right]; reflexivity
      | norm_locals; rewrite int32_small by lia; lia].
  - norm_locals. rewrite int32_small by lia. locals_eq.
Qed.

Lemma skips_member (kb t : buffer) :
  escaped_text kb = true → skips t → skips (member_text kb t).
Proof.
  intros Hkb Ht m key p sz k j d u v ks dl Hat Hdl Hd Hdmax Hsz.
  unfold member_text in *.
  assert (Hshape : (DQUOTE :: kb ++ DQUOTE :: ":"%char :: t) ++ [dl]
                   = (DQUOTE :: kb ++ [DQUOTE]) ++ ":"%char :: t ++ [dl]).
  { cbn [app]. rewrite <- !app_assoc. reflexivity. }
  assert (Hlen : Z.of_nat (length (DQUOTE :: kb ++ DQUOTE :: ":"%char :: t))
                 = Z.of_nat (length (DQUOTE :: kb ++ [DQUOTE])) + 1
                   + Z.of_nat (length t)).
  { cbn [length]. rewrite !length_app. cbn [length]. lia. }
  rewrite Hshape in Hat. rewrite Hlen in *.
  set (K := DQUOTE :: kb ++ [DQUOTE]) in *.
  apply holds_at_app in Hat. destruct Hat as [Hkey Hrest].
  cbn [holds_at] in Hrest. destruct Hrest as [Hcolon Hval].
  eapply scans_to_trans.
  { apply (skips_string kb Hkb m key p sz k j d u v ks ":"%char);
      [|reflexivity | lia | fold K; lia | fold K; lia].
    fold K. apply holds_at_app. split; [exact Hkey|].
    split; [exact Hcolon | exact I]. }
  fold K.
  eapply scans_to_trans.
  { eapply scans_to_step; [cbn [l_sz]; lia | | reflexivity].
    apply json_iter_colon. exact Hcolon. }
  eapply scans_to_eq.
  { apply (Ht m key _ _ k j d u v ks dl);
      [exact Hval | exact Hdl | lia | lia | lia]. }
  locals_eq.
Qed.

Lemma json_value_induction (P : json_value → Prop) :
  (∀ tok, P (JLiteral tok)) → (∀ body, P (JString body)) →
  (∀ items, Forall P items → P (JArray items)) →
  (∀ members, Forall (fun kv => P (snd kv)) members → P (JObject members)) →
  ∀ v, P v.
Proof.
  intros Hlit Hstr Harr Hobj. fix IH 1. intros [tok|body|items|members].
  - apply Hlit.
  - apply Hstr.
  - apply Harr. induction items as [|x items IHitems]; constructor;
      [apply IH | exact IHitems].
  - apply Hobj. induction members as [|[kb x] members IHmembers];
      constructor; [apply IH | exact IHmembers].
Qed.

(** Every well-formed value is passed over below the first level. *)
Lemma well_formed_skips (v : json_value) :
  well_formed v = true → skips (value_text v).
Proof.
  induction v as [tok|body|items IH|members IH] using json_value_induction;
    cbn [well_formed value_text]; intros Hwf.
  - apply skips_literal. exact Hwf.
  - apply skips_string. exact Hwf.
  - apply skips_struct; [left; split; reflexivity|].
    induction IH as [|x items Hx _ IHitems]; cbn [map forallb] in *;
      constructor.
    + apply Hx. apply andb_true_iff in Hwf. apply Hwf.
    + apply IHitems. apply andb_true_iff in Hwf. apply Hwf.
  - apply skips_struct; [right; split; reflexivity|].
    induction IH as [|[kb x] members Hx _ IHmembers];
      cbn [map forallb fst snd] in *; constructor.
    + apply andb_true_iff in Hwf. destruct Hwf as [Hwf _].
      apply andb_true_iff in Hwf. destruct Hwf as [Hkb Hwf].
      apply skips_member; [exact Hkb | apply Hx; exact Hwf].
    + apply IHmembers. apply andb_true_iff in Hwf. apply Hwf.
Qed.

(** *** Single turns at the first level of an object, with a key *)

(** The start of a value behind a key that did not match. *)
Lemma json_iter_value_start_skip (m : buffer) (key : option buffer)
    (a : ascii) (st : json_state) (s sz u ks : Z) :
  read m s = Some a →
  json_switch (ord a) (Locals s sz JSON_STATE_VALUE None 2 1 u None ks)
  = Break JSON_ACTION_START (Locals s sz st None 2 1 u None ks) →
  json_iter m key (Locals s sz JSON_STATE_VALUE None 2 1 u None ks)
  = Some (inl (Locals (s + 1) (sz - 1) st None 1 1 u None ks)).
Proof.
  intros Hread Hsw. unfold json_iter. cbn [l_s]. rewrite Hread.
  cbn [mbind option_bind]. rewrite Hsw. unfold after_switch, at_depth_one.
  cbn [l_depth l_index l_keysz is_start Z.eqb Pos.eqb].
  destruct (0 <? ks); reflexivity.
Qed.

Lemma json_iter_struct_start_skip (m : buffer) (key : option buffer)
    (a : ascii) (s sz u ks : Z) :
  read m s = Some a → a = "["%char ∨ a = "{"%char →
  json_iter m key (Locals s sz JSON_STATE_VALUE None 2 1 u None ks)
  = Some (inl (Locals (s + 1) (sz - 1) JSON_STATE_VALUE None 1 2 u None ks)).
Proof.
  intros Hread Ha. unfold json_iter. cbn [l_s]. rewrite Hread.
  cbn [mbind option_bind].
  rewrite (json_switch_open a) by (assumption || reflexivity).
  unfold after_switch, at_depth_one.
  cbn [l_depth l_index l_keysz is_start Z.eqb Pos.eqb].
  destruct (0 <? ks); reflexivity.
Qed.

(** The start of the value behind the key that matched. *)
Lemma json_iter_value_start_hit (m : buffer) (key : option buffer)
    (a : ascii) (st : json_state) (s sz u ks : Z) :
  read m s = Some a →
  json_switch (ord a) (Locals s sz JSON_STATE_VALUE None 0 1 u None ks)
  = Break JSON_ACTION_START (Locals s sz st None 0 1 u None ks) →
  json_iter m key (Locals s sz JSON_STATE_VALUE None 0 1 u None ks)
  = Some (inl (Locals (s + 1) (sz - 1) st None 0 1 u (Some s) ks)).
Proof.
  intros Hread Hsw. unfold json_iter. cbn [l_s]. rewrite Hread.
  cbn [mbind option_bind]. rewrite Hsw. reflexivity.
Qed.

Lemma json_iter_struct_start_hit (m : buffer) (key : option buffer)
    (a : ascii) (s sz u ks : Z) :
  read m s = Some a → a = "["%char ∨ a = "{"%char →
  json_iter m key (Locals s sz JSON_STATE_VALUE None 0 1 u None ks)
  = Some (inl (Locals (s + 1) (sz - 1) JSON_STATE_VALUE None 0 2 u (Some s)
                 ks)).
Proof.
  intros Hread Ha. unfold json_iter. cbn [l_s]. rewrite Hread.
  cbn [mbind option_bind].
  rewrite (json_switch_open a) by (assumption || reflexivity). reflexivity.
Qed.

(** The ends of a string and of an array or object at the first level. *)
Lemma json_iter_string_close_skip (m : buffer) (key : option buffer)
    (s sz j u ks : Z) :
  read m s = Some DQUOTE →
  json_iter m key (Locals s sz JSON_STATE_STRING None j 1 u None ks)
  = Some (inl (Locals (s + 1) (sz - 1) JSON_STATE_VALUE None j 1 u None ks)).
Proof.
  intros Hread. unfold json_iter. cbn [l_s]. rewrite Hread. reflexivity.
Qed.

Lemma json_iter_string_close_hit (m : buffer) (key : option buffer)
    (s sz u v ks : Z) :
  read m s = Some DQUOTE →
  json_iter m key (Locals s sz JSON_STATE_STRING None 0 1 u (Some v) ks)
  = Some (inr (ParseResult 0 (Some v) (size_t (s + 1 - v)))).
Proof.
  intros Hread. unfold json_iter. cbn [l_s]. rewrite Hread. reflexivity.
Qed.

Lemma json_iter_struct_close_skip (m : buffer) (key : option buffer)
    (a : ascii) (s sz j u ks : Z) :
  read m s = Some a → a = "]"%char ∨ a = "}"%char →
  json_iter m key (Locals s sz JSON_STATE_VALUE None j 2 u None ks)
  = Some (inl (Locals (s + 1) (sz - 1) JSON_STATE_VALUE None j 1 u None ks)).
Proof.
  intros Hread Ha. unfold json_iter. cbn [l_s]. rewrite Hread.
  cbn [mbind option_bind].
  rewrite (json_switch_close a) by (assumption || reflexivity). reflexivity.
Qed.

Lemma json_iter_struct_close_hit (m : buffer) (key : option buffer)
    (a : ascii) (s sz u v ks : Z) :
  read m s = Some a → a = "]"%char ∨ a = "}"%char →
  json_iter m key (Locals s sz JSON_STATE_VALUE None 0 2 u (Some v) ks)
  = Some (inr (ParseResult 0 (Some v) (size_t (s + 1 - v)))).
Proof.
  intros Hread Ha. unfold json_iter. cbn [l_s]. rewrite Hread.
  cbn [mbind option_bind].
  rewrite (json_switch_close a) by (assumption || reflexivity). reflexivity.
Qed.

(** The closing brace of the object that is searched. *)
Lemma json_iter_object_close (m : buffer) (key : option buffer)
    (s sz : Z) (k : option Z) (j u : Z) (v : option Z) (ks : Z) :
  read m s = Some "}"%char →
  json_iter m key (Locals s sz JSON_STATE_VALUE k j 1 u v ks)
  = Some (inl (Locals (s + 1) (sz - 1) JSON_STATE_VALUE k j 0 u v ks)).
Proof.
  intros Hread. unfold json_iter. cbn [l_s]. rewrite Hread. reflexivity.
Qed.

(** The closing quote of a key, whatever the comparison gives. *)
Lemma json_iter_key_end (m : buffer) (key : option buffer) (b : bool)
    (s sz kp j u ks : Z) :
  read m s = Some DQUOTE → 0 < ks →
  key_matches m key (Locals s sz JSON_STATE_VALUE (Some kp) j 1 u None ks) kp
    = Some b →
  json_iter m key (Locals s sz JSON_STATE_STRING (Some kp) j 1 u None ks)
  = Some (inl (Locals (s + 1) (sz - 1) JSON_STATE_VALUE None
                 (if b then 0 else 2) 1 u None ks)).
Proof.
  intros Hread Hks Hmatch. unfold json_iter. cbn [l_s]. rewrite Hread.
  cbn [mbind option_bind].
  change (json_switch (ord DQUOTE)
            (Locals s sz JSON_STATE_STRING (Some kp) j 1 u None ks))
    with (Break JSON_ACTION_END
            (Locals s sz JSON_STATE_VALUE (Some kp) j 1 u None ks)).
  unfold after_switch, at_depth_one.
  cbn [l_depth l_value l_index l_k l_keysz is_start is_end Z.eqb Pos.eqb
       mbind option_bind].
  destruct (Z.ltb_spec 0 ks); [|lia].
  rewrite Hmatch. destruct b; reflexivity.
Qed.

(** The comparison of a key of the text with the key searched for. *)
Lemma key_matches_at (m keyb ktail kb : buffer) (p sz j u : Z) :
  holds_at m p (DQUOTE :: kb) → 0 ≤ p → keyb ≠ [] →
  Z.of_nat (length kb) < 2 ^ 64 →
  key_matches m (Some (keyb ++ ktail))
    (Locals (p + 1 + Z.of_nat (length kb)) sz JSON_STATE_VALUE (Some p) j 1 u
       None (Z.of_nat (length keyb))) p
  = Some (bool_decide (kb = keyb)).
Proof.
  intros Hat Hp Hne Hmax. unfold key_matches. cbn [l_keysz l_s].
  replace (p + 1 + Z.of_nat (length kb) - p - 1) with (Z.of_nat (length kb))
    by lia.
  unfold size_t. rewrite Z.mod_small by lia.
  destruct (Z.eqb_spec (Z.of_nat (length keyb)) (Z.of_nat (length kb)))
    as [Hlen|Hlen].
  - cbn [mbind option_bind]. unfold memcmp_eq.
    pose proof (read_n_app_middle [] keyb ktail) as Hk.
    cbn [app length] in Hk. change (Z.of_nat 0) with 0 in Hk. rewrite Hk.
    cbn [mbind option_bind]. cbn [holds_at] in Hat.
    destruct Hat as [_ Hat]. rewrite Hlen.
    rewrite (holds_at_read_n m kb (p + 1)); [|lia| |exact Hat].
    + cbn [mbind option_bind]. f_equal.
      destruct (decide (keyb = kb)) as [->|Hdiff].
      * rewrite !bool_decide_eq_true_2 by reflexivity. reflexivity.
      * rewrite !bool_decide_eq_false_2 by congruence. reflexivity.
    + intros ->. destruct keyb; [contradiction | discriminate].
  - f_equal. symmetry. apply bool_decide_eq_false_2. intros ->. lia.
Qed.

(** A key of an object at the first level, from its opening quote to
    behind its closing quote. *)
Lemma scans_to_key (m keyb ktail kb : buffer) (p sz u : Z) :
  escaped_text kb = true → holds_at m p (DQUOTE :: kb ++ [DQUOTE]) →
  0 ≤ p → keyb ≠ [] → Z.of_nat (length kb) + 2 ≤ sz →
  Z.of_nat (length kb) < 2 ^ 64 →
  scans_to m (Some (keyb ++ ktail))
    (Locals p sz JSON_STATE_VALUE None 1 1 u None (Z.of_nat (length keyb)))
    (Locals (p + Z.of_nat (length kb) + 2) (sz - Z.of_nat (length kb) - 2)
       JSON_STATE_VALUE None (if bool_decide (kb = keyb) then 0 else 2) 1 u
       None (Z.of_nat (length keyb))).
Proof.
  intros Hkb Hat Hp Hne Hsz Hmax.
  assert (Hks : 0 < Z.of_nat (length keyb)).
  { destruct keyb; [contradiction | cbn [length]; lia]. }
  pose proof Hat as Hwhole.
  change (DQUOTE :: kb ++ [DQUOTE]) with ((DQUOTE :: kb) ++ [DQUOTE]) in Hat.
  apply holds_at_app in Hat. destruct Hat as [Hopen [Hclose _]].
  cbn [length] in Hclose.
  pose proof Hopen as Hkey. cbn [holds_at] in Hopen.
  destruct Hopen as [Hquote Hbody].
  eapply scans_to_trans.
  { eapply scans_to_step; [cbn [l_sz]; lia | | reflexivity].
    apply json_iter_key_open; [exact Hquote | exact Hks]. }
  eapply scans_to_trans.
  { apply (scans_to_escaped_bytes _ _ _ _ _ _ _ _ (length kb) kb);
      [lia | exact Hkb | exact Hbody | lia]. }
  eapply scans_to_step; [cbn [l_sz]; lia | | ].
  - apply (json_iter_key_end _ _ (bool_decide (kb = keyb)));
      [|exact Hks|].
    + replace (p + 1 + Z.of_nat (length kb))
        with (p + Z.of_nat (S (length kb))) by lia.
      exact Hclose.
    + apply key_matches_at; assumption.
  - locals_eq.
Qed.

(** *** Values at the first level of an object *)

Lemma value_text_start (v : json_value) :
  well_formed v = true →
  ∃ a rest, value_text v = a :: rest
            ∧ (match v with
               | JString _ => a = DQUOTE
               | _ => Ascii.eqb a DQUOTE = false
               end).
Proof.
  destruct v as [tok|body|items|members]; cbn [well_formed value_text];
    intros Hwf.
  - destruct tok as [|a body]; [discriminate|]. exists a, body.
    split; [reflexivity|]. apply literal_start_not_quote.
    cbn [literal_token] in Hwf. apply andb_true_iff in Hwf. apply Hwf.
  - eexists _, _. split; reflexivity.
  - eexists _, _. split; reflexivity.
  - eexists _, _. split; reflexivity.
Qed.

Lemma array_items_skip (items : list json_value) :
  forallb well_formed items = true → Forall skips (map value_text items).
Proof.
  induction items as [|x items IH]; cbn [map forallb]; intros Hwf;
    constructor.
  - apply well_formed_skips. apply andb_true_iff in Hwf. apply Hwf.
  - apply IH. apply andb_true_iff in Hwf. apply Hwf.
Qed.

Lemma object_members_skip (members : list (buffer * json_value)) :
  forallb (fun kv => escaped_text (fst kv) && well_formed (snd kv)) members
  = true →
  Forall skips
    (map (fun kv => member_text (fst kv) (value_text (snd kv))) members).
Proof.
  induction members as [|kv members IH]; cbn [map forallb]; intros Hwf;
    constructor.
  - apply andb_true_iff in Hwf. destruct Hwf as [Hwf _].
    apply andb_true_iff in Hwf. destruct Hwf as [Hkb Hwf].
    apply skips_member; [exact Hkb | apply well_formed_skips; exact Hwf].
  - apply IH. apply andb_true_iff in Hwf. apply Hwf.
Qed.

(** The shape of a value: a literal, a string, or brackets around texts
    that are passed over. *)
Lemma value_text_cases (v : json_value) :
  well_formed v = true →
  (∃ a body, value_text v = a :: body ∧ literal_start a = true
             ∧ forallb literal_byte body = true)
  ∨ (∃ body, value_text v = DQUOTE :: body ++ [DQUOTE]
             ∧ escaped_text body = true)
  ∨ (∃ o c texts, value_text v = o :: join_commas texts ++ [c]
                  ∧ ((o = "["%char ∧ c = "]"%char)
                     ∨ (o = "{"%char ∧ c = "}"%char))
                  ∧ Forall skips texts).
Proof.
  destruct v as [tok|body|items|members]; cbn [well_formed value_text];
    intros Hwf.
  - left. destruct tok as [|a body]; [discriminate|].
    cbn [literal_token] in Hwf. apply andb_true_iff in Hwf.
    exists a, body. split; [reflexivity | exact Hwf].
  - right. left. exists body. split; [reflexivity | exact Hwf].
  - right. right. eexists _, _, _. split; [reflexivity|].
    split; [left; split; reflexivity | apply array_items_skip; exact Hwf].
  - right. right. eexists _, _, _. split; [reflexivity|].
    split; [right; split; reflexivity | apply object_members_skip; exact Hwf].
Qed.

(** The value behind a key that did not match is passed over. *)
Lemma scans_to_value_skip (m : buffer) (key : option buffer)
    (v : json_value) (p sz u ks : Z) (dl : ascii) :
  well_formed v = true → holds_at m p (value_text v ++ [dl]) →
  literal_end dl = true → Z.of_nat (length (value_text v)) < sz →
  Z.of_nat (length (value_text v)) + 2 < 2 ^ 31 →
  scans_to m key (Locals p sz JSON_STATE_VALUE None 2 1 u None ks)
    (Locals (p + Z.of_nat (length (value_text v)))
       (sz - Z.of_nat (length (value_text v))) JSON_STATE_VALUE None 1 1 u
       None ks).
Proof.
  intros Hwf Hat Hdl Hsz Hmax.
  destruct (value_text_cases v Hwf)
    as [(a & body & Etext & Ha & Hbody)
       | [(body & Etext & Hbody) | (o & c & texts & Etext & Hoc & Htexts)]];
    rewrite Etext in *; clear Etext.
  - cbn [app holds_at length] in Hat, Hsz, Hmax |- *.
    destruct Hat as [Hread Hat]. apply holds_at_app in Hat.
    destruct Hat as [Hat [Hend _]].
    eapply scans_to_trans.
    { eapply scans_to_step; [cbn [l_sz]; lia | | reflexivity].
      apply (json_iter_value_start_skip _ _ a JSON_STATE_LITERAL);
        [exact Hread|].
      apply json_switch_literal_start; [exact Ha | reflexivity]. }
    eapply scans_to_trans.
    { apply scans_to_literal_bytes; [exact Hbody | exact Hat | lia]. }
    eapply scans_to_step; [cbn [l_sz]; lia | | ].
    + rewrite (json_iter_literal_end _ _ dl) by assumption. reflexivity.
    + locals_eq.
  - cbn [app holds_at length] in Hat, Hsz, Hmax |- *.
    rewrite length_app in Hsz, Hmax |- *. cbn [length] in Hsz, Hmax |- *.
    destruct Hat as [Hread Hat]. rewrite <- app_assoc in Hat.
    apply holds_at_app in Hat. destruct Hat as [Hat [Hclose _]].
    eapply scans_to_trans.
    { eapply scans_to_step; [cbn [l_sz]; lia | | reflexivity].
      apply (json_iter_value_start_skip _ _ DQUOTE JSON_STATE_STRING);
        [exact Hread | reflexivity]. }
    eapply scans_to_trans.
    { apply (scans_to_escaped_bytes _ _ _ _ _ _ _ _ (length body) body);
        [lia | exact Hbody | exact Hat | lia]. }
    eapply scans_to_step; [cbn [l_sz]; lia | | ].
    + apply json_iter_string_close_skip. exact Hclose.
    + locals_eq.
  - set (J := join_commas texts) in *.
    cbn [app holds_at length] in Hat, Hsz, Hmax |- *.
    rewrite length_app in Hsz, Hmax |- *. cbn [length] in Hsz, Hmax |- *.
    destruct Hat as [Hopen Hat]. rewrite <- app_assoc in Hat.
    apply holds_at_app in Hat. destruct Hat as [Hat [Hclose _]].
    assert (Hc : literal_end c = true)
      by (destruct Hoc as [[_ ->] | [_ ->]]; reflexivity).
    eapply scans_to_trans.
    { eapply scans_to_step; [cbn [l_sz]; lia | | reflexivity].
      apply (json_iter_struct_start_skip _ _ o); [exact Hopen|].
      destruct Hoc as [[-> _] | [-> _]]; [left | right]; reflexivity. }
    eapply scans_to_trans.
    { apply (skips_join texts Htexts m key _ _ None 1 2 u None ks c);
        [|exact Hc | lia | fold J; lia | fold J; lia].
      fold J. apply holds_at_app. split; [exact Hat|].
      split; [exact Hclose | exact I]. }
    fold J.
    eapply scans_to_step; [cbn [l_sz]; lia | | ].
    + apply (json_iter_struct_close_skip _ _ c); [exact Hclose|].
      destruct Hoc as [[_ ->] | [_ ->]]; [left | right]; reflexivity.
    + locals_eq.
Qed.

(** The value behind the key that matched is returned, from its first
    byte to its last. *)
Lemma scans_out_value_hit (m : buffer) (key : option buffer)
    (v : json_value) (p sz u ks : Z) (dl : ascii) :
  well_formed v = true → holds_at m p (value_text v ++ [dl]) →
  literal_end dl = true → Z.of_nat (length (value_text v)) < sz →
  Z.of_nat (length (value_text v)) + 2 < 2 ^ 31 →
  scans_out m key (Locals p sz JSON_STATE_VALUE None 0 1 u None ks)
    (ParseResult 0 (Some p) (Z.of_nat (length (value_text v)))).
Proof.
  intros Hwf Hat Hdl Hsz Hmax.
  assert (Hsize : ∀ z, 0 ≤ z < 2 ^ 31 → size_t z = z).
  { intros z Hz. unfold size_t. apply Z.mod_small. lia. }
  destruct (value_text_cases v Hwf)
    as [(a & body & Etext & Ha & Hbody)
       | [(body & Etext & Hbody) | (o & c & texts & Etext & Hoc & Htexts)]];
    rewrite Etext in *; clear Etext.
  - cbn [app holds_at length] in Hat, Hsz, Hmax |- *.
    destruct Hat as [Hread Hat]. apply holds_at_app in Hat.
    destruct Hat as [Hat [Hend _]].
    eapply scans_to_out.
    { eapply scans_to_step; [cbn [l_sz]; lia | | reflexivity].
      apply (json_iter_value_start_hit _ _ a JSON_STATE_LITERAL);
        [exact Hread|].
      apply json_switch_literal_start; [exact Ha | reflexivity]. }
    eapply scans_to_out.
    { apply scans_to_literal_bytes; [exact Hbody | exact Hat | lia]. }
    apply scans_out_turn; [cbn [l_sz]; lia|].
    rewrite (json_iter_literal_end_hit _ _ dl) by assumption.
    rewrite Hsize by lia. do 3 f_equal. lia.
  - cbn [app holds_at length] in Hat, Hsz, Hmax |- *.
    rewrite length_app in Hsz, Hmax |- *. cbn [length] in Hsz, Hmax |- *.
    destruct Hat as [Hread Hat]. rewrite <- app_assoc in Hat.
    apply holds_at_app in Hat. destruct Hat as [Hat [Hclose _]].
    eapply scans_to_out.
    { eapply scans_to_step; [cbn [l_sz]; lia | | reflexivity].
      apply (json_iter_value_start_hit _ _ DQUOTE JSON_STATE_STRING);
        [exact Hread | reflexivity]. }
    eapply scans_to_out.
    { apply (scans_to_escaped_bytes _ _ _ _ _ _ _ _ (length body) body);
        [lia | exact Hbody | exact Hat | lia]. }
    apply scans_out_turn; [cbn [l_sz]; lia|].
    rewrite json_iter_string_close_hit by exact Hclose.
    rewrite Hsize by lia. do 3 f_equal. lia.
  - set (J := join_commas texts) in *.
    cbn [app holds_at length] in Hat, Hsz, Hmax |- *.
    rewrite length_app in Hsz, Hmax |- *. cbn [length] in Hsz, Hmax |- *.
    destruct Hat as [Hopen Hat]. rewrite <- app_assoc in Hat.
    apply holds_at_app in Hat. destruct Hat as [Hat [Hclose _]].
    assert (Hc : literal_end c = true)
      by (destruct Hoc as [[_ ->] | [_ ->]]; reflexivity).
    eapply scans_to_out.
    { eapply scans_to_step; [cbn [l_sz]; lia | | reflexivity].
      apply (json_iter_struct_start_hit _ _ o); [exact Hopen|].
      destruct Hoc as [[-> _] | [-> _]]; [left | right]; reflexivity. }
    eapply scans_to_out.
    { apply (skips_join texts Htexts m key _ _ None 0 2 u (Some p) ks c);
        [|exact Hc | lia | fold J; lia | fold J; lia].
      fold J. apply holds_at_app. split; [exact Hat|].
      split; [exact Hclose | exact I]. }
    fold J.
    apply scans_out_turn; [cbn [l_sz]; lia|].
    rewrite (json_iter_struct_close_hit _ _ c);
      [|exact Hclose
       |destruct Hoc as [[_ ->] | [_ ->]]; [left | right]; reflexivity].
    rewrite Hsize by lia. do 3 f_equal. lia.
Qed.

(** *** The members of the object that is searched *)

(** One member at the first level: its value is returned if its key is
    the one searched for, and the member is passed over if not. *)
Lemma scans_member (m keyb ktail kb : buffer) (v : json_value)
    (p sz u : Z) (dl : ascii) :
  escaped_text kb = true → well_formed v = true →
  holds_at m p (member_text kb (value_text v) ++ [dl]) →
  literal_end dl = true → 0 ≤ p → keyb ≠ [] →
  Z.of_nat (length (member_text kb (value_text v))) < sz →
  Z.of_nat (length (member_text kb (value_text v))) + 2 < 2 ^ 31 →
  if bool_decide (kb = keyb) then
    holds_at m (p + Z.of_nat (length kb) + 3) (value_text v)
    ∧ scans_out m (Some (keyb ++ ktail))
        (at_member p sz u (Z.of_nat (length keyb)))
        (ParseResult 0 (Some (p + Z.of_nat (length kb) + 3))
           (Z.of_nat (length (value_text v))))
  else
    scans_to m (Some (keyb ++ ktail))
      (at_member p sz u (Z.of_nat (length keyb)))
      (at_member (p + Z.of_nat (length (member_text kb (value_text v))))
         (sz - Z.of_nat (length (member_text kb (value_text v)))) u
         (Z.of_nat (length keyb))).
Proof.
  intros Hkb Hwf Hat Hdl Hp Hne Hsz Hmax. unfold member_text, at_member in *.
  assert (Hshape : (DQUOTE :: kb ++ DQUOTE :: ":"%char :: value_text v)
                   ++ [dl]
                   = (DQUOTE :: kb ++ [DQUOTE])
                     ++ ":"%char :: value_text v ++ [dl]).
  { cbn [app]. rewrite <- !app_assoc. reflexivity. }
  assert (Hlen : Z.of_nat (length (DQUOTE :: kb ++ DQUOTE :: ":"%char
                                   :: value_text v))
                 = Z.of_nat (length kb) + 3
                   + Z.of_nat (length (value_text v))).
  { cbn [length]. rewrite !length_app. cbn [length]. lia. }
  rewrite Hshape in Hat. rewrite Hlen in *.
  apply holds_at_app in Hat. destruct Hat as [Hkey Hrest].
  rewrite length_cons, length_app in Hrest. cbn [length] in Hrest.
  cbn [holds_at] in Hrest. destruct Hrest as [Hcolon Hval].
  replace (p + Z.of_nat (S (length kb + 1)) + 1)
    with (p + Z.of_nat (length kb) + 3) in Hval by lia.
  replace (p + Z.of_nat (S (length kb + 1)))
    with (p + Z.of_nat (length kb) + 2) in Hcolon by lia.
  pose proof (scans_to_key m keyb ktail kb p sz u Hkb Hkey Hp Hne
                ltac:(lia) ltac:(lia)) as Hscan.
  assert (Hvalue : holds_at m (p + Z.of_nat (length kb) + 3) (value_text v)).
  { apply holds_at_app in Hval. apply Hval. }
  destruct (bool_decide (kb = keyb)).
  - split; [exact Hvalue|].
    eapply scans_to_out; [exact Hscan|].
    eapply scans_to_out.
    { eapply scans_to_step; [cbn [l_sz]; lia | | reflexivity].
      apply json_iter_colon. exact Hcolon. }
    replace (Some (p + Z.of_nat (length kb) + 3))
      with (Some (p + Z.of_nat (length kb) + 2 + 1)) by (f_equal; lia).
    eapply (scans_out_value_hit m _ v _ _ u _ dl);
      [exact Hwf | | exact Hdl | lia | lia].
    replace (p + Z.of_nat (length kb) + 2 + 1)
      with (p + Z.of_nat (length kb) + 3) by lia.
    exact Hval.
  - eapply scans_to_trans; [exact Hscan|].
    eapply scans_to_trans.
    { eapply scans_to_step; [cbn [l_sz]; lia | | reflexivity].
      apply json_iter_colon. exact Hcolon. }
    eapply scans_to_eq.
    { eapply (scans_to_value_skip m _ v _ _ u _ dl);
        [exact Hwf | | exact Hdl | lia | lia].
      replace (p + Z.of_nat (length kb) + 2 + 1)
        with (p + Z.of_nat (length kb) + 3) by lia.
      exact Hval. }
    locals_eq.
Qed.

Lemma members_text_cons (kv kv2 : buffer * json_value)
    (members : list (buffer * json_value)) :
  members_text (kv :: kv2 :: members)
  = member_text (fst kv) (value_text (snd kv))
    ++ ","%char :: members_text (kv2 :: members).
Proof. reflexivity. Qed.

Lemma members_text_one (kv : buffer * json_value) :
  members_text [kv] = member_text (fst kv) (value_text (snd kv)).
Proof. reflexivity. Qed.

(** The members of the object, up to the value of the first one whose key
    is the one searched for, or to the closing brace if there is none. *)
Lemma scans_members (m keyb ktail : buffer) (u : Z)
    (members : list (buffer * json_value)) :
  keyb ≠ [] →
  ∀ p sz : Z,
    forallb (fun kv => escaped_text (fst kv) && well_formed (snd kv)) members
    = true →
    holds_at m p (members_text members ++ ["}"%char]) → 0 ≤ p →
    Z.of_nat (length (members_text members)) < sz →
    Z.of_nat (length (members_text members)) + 2 < 2 ^ 31 →
    match member keyb members with
    | Some v =>
        well_formed v = true
        ∧ Z.of_nat (length keyb)
          < Z.of_nat (length (members_text members))
        ∧ ∃ pos, 0 ≤ pos ∧ holds_at m pos (value_text v)
                 ∧ scans_out m (Some (keyb ++ ktail))
                     (at_member p sz u (Z.of_nat (length keyb)))
                     (ParseResult 0 (Some pos)
                        (Z.of_nat (length (value_text v))))
    | None =>
        scans_to m (Some (keyb ++ ktail))
          (at_member p sz u (Z.of_nat (length keyb)))
          (at_member (p + Z.of_nat (length (members_text members)))
             (sz - Z.of_nat (length (members_text members))) u
             (Z.of_nat (length keyb)))
    end.
Proof.
  intros Hne.
  induction members as [|kv members IH]; intros p sz Hwf Hat Hp Hsz Hmax.
  { cbn [member]. apply scans_to_refl. unfold at_member.
    change (members_text []) with (@nil ascii). cbn [length]. locals_eq. }
  cbn [forallb] in Hwf. apply andb_true_iff in Hwf.
  destruct Hwf as [Hkv Hwf]. apply andb_true_iff in Hkv.
  destruct Hkv as [Hkb Hv]. cbn [member].
  set (M := member_text (fst kv) (value_text (snd kv))) in *.
  assert (HM : Z.of_nat (length (fst kv)) + 3 ≤ Z.of_nat (length M)).
  { subst M. unfold member_text. cbn [length]. rewrite length_app.
    cbn [length]. lia. }
  destruct members as [|kv2 members].
  - rewrite members_text_one in *. fold M in Hat, Hsz, Hmax |- *.
    pose proof (scans_member m keyb ktail (fst kv) (snd kv) p sz u "}"%char
                  Hkb Hv Hat eq_refl Hp Hne Hsz Hmax) as Hscan.
    destruct (bool_decide_reflect (fst kv = keyb)) as [Heq|Hdiff].
    + destruct Hscan as [Hval Hscan]. split; [exact Hv|].
      split; [rewrite <- Heq; lia|].
      exists (p + Z.of_nat (length (fst kv)) + 3).
      split; [lia|]. split; [exact Hval | exact Hscan].
    + cbn [member]. exact Hscan.
  - rewrite members_text_cons in *. fold M in Hat, Hsz, Hmax |- *.
    set (R := members_text (kv2 :: members)) in *.
    rewrite length_app in Hsz, Hmax |- *. cbn [length] in Hsz, Hmax |- *.
    rewrite <- app_assoc in Hat. apply holds_at_app in Hat.
    destruct Hat as [HatM Hrest]. cbn [app holds_at] in Hrest.
    destruct Hrest as [Hcomma Hrest].
    assert (Hhead : holds_at m p (M ++ [","%char])).
    { apply holds_at_app. split; [exact HatM|].
      split; [exact Hcomma | exact I]. }
    pose proof (scans_member m keyb ktail (fst kv) (snd kv) p sz u ","%char
                  Hkb Hv Hhead eq_refl Hp Hne ltac:(fold M; lia)
                  ltac:(fold M; lia)) as Hscan.
    fold M in Hscan.
    destruct (bool_decide_reflect (fst kv = keyb)) as [Heq|Hdiff].
    + destruct Hscan as [Hval Hscan]. split; [exact Hv|].
      split; [rewrite <- Heq; lia|].
      exists (p + Z.of_nat (length (fst kv)) + 3).
      split; [lia|]. split; [exact Hval | exact Hscan].
    + specialize (IH (p + Z.of_nat (length M) + 1)
                    (sz - Z.of_nat (length M) - 1) Hwf Hrest ltac:(lia)
                    ltac:(fold R; lia) ltac:(fold R; lia)).
      fold R in IH.
      assert (Hnext : scans_to m (Some (keyb ++ ktail))
                        (at_member p sz u (Z.of_nat (length keyb)))
                        (at_member (p + Z.of_nat (length M) + 1)
                           (sz - Z.of_nat (length M) - 1) u
                           (Z.of_nat (length keyb)))).
      { eapply scans_to_trans; [exact Hscan|]. unfold at_member.
        eapply scans_to_step; [cbn [l_sz]; lia | | reflexivity].
        apply json_iter_comma. exact Hcomma. }
      destruct (member keyb (kv2 :: members)) as [v|].
      * destruct IH as (Hwfv & Hklen & pos & Hpos & Hval & Hout).
        split; [exact Hwfv|]. split; [lia|].
        exists pos. split; [exact Hpos|]. split; [exact Hval|].
        eapply scans_to_out; [exact Hnext | exact Hout].
      * eapply scans_to_eq;
          [eapply scans_to_trans; [exact Hnext | exact IH]|].
        unfold at_member. locals_eq.
Qed.

(** The whole scan of an object for a key. *)
Lemma scans_object (m keyb ktail : buffer)
    (members : list (buffer * json_value)) :
  keyb ≠ [] → well_formed (JObject members) = true →
  holds_at m 0 (value_text (JObject members)) →
  Z.of_nat (length (value_text (JObject members))) < 2 ^ 31 →
  match member keyb members with
  | Some v =>
      well_formed v = true
      ∧ Z.of_nat (length keyb)
        < Z.of_nat (length (value_text (JObject members)))
      ∧ ∃ pos, 0 ≤ pos ∧ holds_at m pos (value_text v)
               ∧ scans_out m (Some (keyb ++ ktail))
                   (json_init
                      (Z.of_nat (length (value_text (JObject members))))
                      (Some (keyb ++ ktail)) (Z.of_nat (length keyb)))
                   (ParseResult 0 (Some pos)
                      (Z.of_nat (length (value_text v))))
  | None =>
      scans_out m (Some (keyb ++ ktail))
        (json_init (Z.of_nat (length (value_text (JObject members))))
           (Some (keyb ++ ktail)) (Z.of_nat (length keyb)))
        (ParseResult (-1) None 0)
  end.
Proof.
  intros Hne Hwf Hat Hmax. cbn [well_formed] in Hwf.
  change (value_text (JObject members))
    with ("{"%char :: members_text members ++ ["}"%char]) in *.
  set (J := members_text members) in *.
  cbn [length] in Hmax |- *. rewrite length_app in Hmax |- *.
  cbn [length] in Hmax |- *. cbn [holds_at] in Hat.
  destruct Hat as [Hopen Hat].
  pose proof Hat as Hclose. apply holds_at_app in Hclose.
  destruct Hclose as [_ [Hclose _]].
  cbn [json_init].
  assert (Hfirst : scans_to m (Some (keyb ++ ktail))
                     (Locals 0 (Z.of_nat (S (length J + 1)))
                        JSON_STATE_VALUE None 1 0 0 None
                        (Z.of_nat (length keyb)))
                     (at_member 1 (Z.of_nat (length J) + 1) 0
                        (Z.of_nat (length keyb)))).
  { unfold at_member.
    eapply scans_to_step; [cbn [l_sz]; lia | | ].
    - apply json_iter_open_brace. exact Hopen.
    - locals_eq. }
  pose proof (scans_members m keyb ktail 0 members Hne 1
                (Z.of_nat (length J) + 1) Hwf Hat ltac:(lia)
                ltac:(fold J; lia) ltac:(fold J; lia)) as Hscan.
  fold J in Hscan.
  destruct (member keyb members) as [v|].
  - destruct Hscan as (Hwfv & Hklen & pos & Hpos & Hval & Hout).
    split; [exact Hwfv|]. split; [lia|].
    exists pos. split; [exact Hpos|]. split; [exact Hval|].
    eapply scans_to_out; [exact Hfirst | exact Hout].
  - eapply scans_to_out; [exact Hfirst|].
    eapply scans_to_out; [exact Hscan|].
    eapply scans_to_out.
    { unfold at_member.
      eapply scans_to_step; [cbn [l_sz]; lia | | reflexivity].
      apply json_iter_object_close. exact Hclose. }
    apply (scans_out_end m _
             (Locals (1 + Z.of_nat (length J) + 1)
                (Z.of_nat (length J) + 1 - Z.of_nat (length J) - 1)
                JSON_STATE_VALUE None 1 0 0 None (Z.of_nat (length keyb)))).
    cbn [l_sz]. lia.
Qed.

(** *** From the span to the string that [json_parse] returns *)

Lemma escaped_text_unescaped (n : nat) :
  ∀ body : buffer,
    (length body ≤ n)%nat → escaped_text body = true →
    escape_closed body = true ∧ ∃ d, unescaped body = Some d.
Proof.
  induction n as [|n IH]; intros body Hn Hbody.
  { destruct body; [|cbn [length] in Hn; lia].
    split; [reflexivity | exists []; reflexivity]. }
  destruct body as [|a body]; [split; [reflexivity | exists []; reflexivity]|].
  cbn [escaped_text escape_closed unescaped length] in *.
  destruct (Ascii.eqb a BACKSLASH).
  - destruct body as [|e body]; [discriminate|].
    destruct (unescape_char e) as [c|]; [|discriminate].
    cbn [length] in Hn.
    destruct (IH body ltac:(lia) Hbody) as (Hclosed & d & Hd).
    split; [exact Hclosed|]. rewrite Hd. exists (c :: d). reflexivity.
  - apply andb_true_iff in Hbody. destruct Hbody as [_ Hbody].
    destruct (IH body ltac:(lia) Hbody) as (Hclosed & d & Hd).
    split; [exact Hclosed|]. rewrite Hd. exists (a :: d). reflexivity.
Qed.

Lemma holds_at_split (m t : buffer) (p : Z) :
  0 ≤ p → t ≠ [] → holds_at m p t →
  ∃ front tail, m = front ++ t ++ tail ∧ Z.of_nat (length front) = p.
Proof.
  intros Hp Hne Hat. destruct (holds_at_take m t p Hp Hat) as [Htake Hlen].
  specialize (Hlen Hne).
  exists (take (Z.to_nat p) m), (drop (length t) (drop (Z.to_nat p) m)).
  split.
  - rewrite <- Htake at 1. rewrite take_drop, take_drop. reflexivity.
  - rewrite length_take. lia.
Qed.

(** [json_unescape] on a string of the text, where it stands. *)
Lemma json_unescape_at (m body : buffer) (pos : Z) (out : bool) :
  holds_at m pos (DQUOTE :: body ++ [DQUOTE]) → 0 ≤ pos →
  escaped_text body = true → Z.of_nat (length body) < 2 ^ 31 →
  ∃ d, unescaped body = Some d
       ∧ json_unescape m pos (Z.of_nat (length body) + 2) out
         = Some (UnescapeResult (Z.of_nat (length d))
                   (if out then d ++ [NUL] else [])).
Proof.
  intros Hat Hp Hbody Hmax.
  destruct (escaped_text_unescaped (length body) body ltac:(lia) Hbody)
    as (Hclosed & d & Hd).
  exists d. split; [exact Hd|].
  destruct (holds_at_split m (DQUOTE :: body ++ [DQUOTE]) pos Hp
              ltac:(discriminate) Hat)
    as (front & tail & -> & Hfront).
  unfold json_unescape. cbn [app]. rewrite <- Hfront, read_app_middle.
  cbn [mbind option_bind].
  change (negb (Ascii.eqb DQUOTE DQUOTE)) with false. cbv iota.
  destruct (json_unescape_loop_unescaped out tail (length body) body
              (front ++ [DQUOTE]) 0 []
              (S (Z.to_nat (Z.of_nat (length body) + 2))))
    as [u [Hu Hspec]]; [lia | assumption | lia | lia | lia |].
  rewrite Hd in Hspec. subst u.
  rewrite <- app_assoc in Hu. cbn [app] in Hu.
  rewrite length_app in Hu. cbn [length] in Hu.
  rewrite Nat2Z.inj_add in Hu. change (Z.of_nat 1) with 1 in Hu.
  rewrite <- app_assoc. cbn [app]. rewrite Hu.
  rewrite Z.add_0_l. destruct out; reflexivity.
Qed.

(** What [json_parse] makes of the span of a value of the text. *)
Lemma json_parse_found (s key : string) (index code pos : Z)
    (v : json_value) :
  key ≠ "" →
  json_parse_c (c_str s) (len s) (Some (c_str key)) (len key)
  = Some (ParseResult code (Some pos) (Z.of_nat (length (value_text v)))) →
  well_formed v = true → 0 ≤ pos → holds_at (c_str s) pos (value_text v) →
  Z.of_nat (length (value_text v)) ≤ 2 ^ 31 →
  json_parse s key index = Some (std_string (value_string v)).
Proof.
  intros Hkey Hparse Hwf Hpos Hat Hmax. unfold json_parse.
  destruct (decide (key = "")) as [|_]; [contradiction|].
  rewrite Hparse. cbn [mbind option_bind r_value r_valuesz].
  destruct (value_text_start v Hwf) as (a & rest & Etext & Ha).
  assert (Hread : read (c_str s) pos = Some a).
  { rewrite Etext in Hat. apply Hat. }
  rewrite Hread. cbn [mbind option_bind].
  assert (Hne : value_text v ≠ []) by (rewrite Etext; discriminate).
  destruct v as [tok|body|items|members];
    try (rewrite Ha; cbn [negb]; rewrite holds_at_read_n by assumption;
         reflexivity).
  subst a. change (negb (Ascii.eqb DQUOTE DQUOTE)) with false. cbv iota.
  cbn [value_text well_formed value_string] in *.
  assert (Hlen : Z.of_nat (length (DQUOTE :: body ++ [DQUOTE]))
                 = Z.of_nat (length body) + 2).
  { cbn [length]. rewrite length_app. cbn [length]. lia. }
  rewrite Hlen in *.
  destruct (json_unescape_at (c_str s) body pos false Hat Hpos Hwf
              ltac:(lia)) as (d & Hd & Hdry).
  destruct (json_unescape_at (c_str s) body pos true Hat Hpos Hwf
              ltac:(lia)) as (d1 & Hd1 & Hwet).
  rewrite Hd in Hd1. injection Hd1 as <-.
  rewrite Hdry, Hd. cbn [mbind option_bind u_code default].
  destruct (Z.ltb_spec 0 (Z.of_nat (length d))) as [Hlong|Hshort].
  - rewrite Hwet. cbn [mbind option_bind u_out].
    rewrite Nat2Z.id, take_app_length. reflexivity.
  - destruct d; [reflexivity | cbn [length] in Hshort; lia].
Qed.

Lemma holds_at_whole (t tail : buffer) : holds_at (t ++ tail) 0 t.
Proof. exact (holds_at_app_middle t [] tail). Qed.

Lemma std_string_not_empty (b : buffer) : b ≠ [] → std_string b ≠ "".
Proof.
  intros Hne Hempty. apply Hne.
  rewrite <- (bytes_std_string b), Hempty. reflexivity.
Qed.

(** The span that [json_parse_c] returns for the key of a member. *)
Lemma json_parse_c_member (members : list (buffer * json_value))
    (keyb tail : buffer) (v : json_value) :
  well_formed (JObject members) = true → keyb ≠ [] →
  member keyb members = Some v →
  Z.of_nat (length (value_text (JObject members))) < 2 ^ 31 →
  well_formed v = true
  ∧ ∃ pos, 0 ≤ pos
           ∧ holds_at (value_text (JObject members) ++ tail) pos
               (value_text v)
           ∧ json_parse_c (value_text (JObject members) ++ tail)
               (Z.of_nat (length (value_text (JObject members))))
               (Some (keyb ++ [NUL])) (Z.of_nat (length keyb))
             = Some (ParseResult 0 (Some pos)
                       (Z.of_nat (length (value_text v)))).
Proof.
  intros Hwf Hne Hmember Hmax.
  pose proof (scans_object (value_text (JObject members) ++ tail) keyb [NUL]
                members Hne Hwf (holds_at_whole _ _) Hmax) as Hscan.
  rewrite Hmember in Hscan.
  destruct Hscan as (Hwfv & Hklen & pos & Hpos & Hval & n & Hn).
  split; [exact Hwfv|]. exists pos. split; [exact Hpos|].
  split; [exact Hval|].
  apply (json_scan_returns n); [| |exact Hn].
  - rewrite length_app. lia.
  - cbn. rewrite length_app. cbn [length]. lia.
Qed.

Lemma json_parse_member_string (members : list (buffer * json_value))
    (keyb : buffer) (v : json_value) (index : Z) :
  well_formed (JObject members) = true → keyb ≠ [] →
  member keyb members = Some v →
  Z.of_nat (length (value_text (JObject members))) < 2 ^ 31 →
  json_parse (std_string (value_text (JObject members))) (std_string keyb)
    index
  = Some (std_string (value_string v)).
Proof.
  intros Hwf Hne Hmember Hmax.
  destruct (json_parse_c_member members keyb [NUL] v Hwf Hne Hmember Hmax)
    as (Hwfv & pos & Hpos & Hval & Hparse).
  set (T := value_text (JObject members)) in *.
  assert (Hc : c_str (std_string T) = T ++ [NUL]).
  { unfold c_str. rewrite bytes_std_string. reflexivity. }
  assert (Hlen : len (std_string T) = Z.of_nat (length T)).
  { rewrite <- length_bytes, bytes_std_string. reflexivity. }
  assert (Hck : c_str (std_string keyb) = keyb ++ [NUL]).
  { unfold c_str. rewrite bytes_std_string. reflexivity. }
  assert (Hklen : len (std_string keyb) = Z.of_nat (length keyb)).
  { rewrite <- length_bytes, bytes_std_string. reflexivity. }
  apply (json_parse_found _ _ index 0 pos v);
    [apply std_string_not_empty; exact Hne | | exact Hwfv | exact Hpos | |].
  - rewrite Hc, Hlen, Hck, Hklen. exact Hparse.
  - rewrite Hc. exact Hval.
  - destruct (value_text_start v Hwfv) as (a & rest & Etext & _).
    destruct (holds_at_take (T ++ [NUL]) (value_text v) pos Hpos Hval)
      as [_ Hbound].
    specialize (Hbound ltac:(rewrite Etext; discriminate)).
    rewrite length_app in Hbound. cbn [length] in Hbound. lia.
Qed.

(** X17: key search in an object. For every well-formed object text
    without white space, shorter than [2 ^ 31] bytes, and every
    non-empty key that one of its members has, [json_parse_c] returns
    the span of the value of the first such member, whether a literal, a
    string, an array or an object, and [json_parse] returns what that
    value stands for: the decoded text of a string, and the text of any
    other value as it is written. *)
Theorem json_parse_member (members : list (buffer * json_value))
    (keyb : buffer) (v : json_value) (index : Z) :
  well_formed (JObject members) = true → keyb ≠ [] →
  member keyb members = Some v →
  Z.of_nat (length (value_text (JObject members))) < 2 ^ 31 →
  let m := value_text (JObject members) in
  (∃ pos,
     json_parse_c m (Z.of_nat (length m)) (Some (keyb ++ [NUL]))
       (Z.of_nat (length keyb))
     = Some (ParseResult 0 (Some pos) (Z.of_nat (length (value_text v))))
     ∧ read_n m pos (Z.of_nat (length (value_text v)))
       = Some (value_text v))
  ∧ json_parse (std_string m) (std_string keyb) index
    = Some (std_string (value_string v)).
Proof.
  intros Hwf Hne Hmember Hmax m. split.
  - destruct (json_parse_c_member members keyb [] v Hwf Hne Hmember Hmax)
      as (Hwfv & pos & Hpos & Hval & Hparse).
    rewrite app_nil_r in Hval, Hparse.
    exists pos. split; [exact Hparse|].
    destruct (value_text_start v Hwfv) as (a & rest & Etext & _).
    apply holds_at_read_n; [exact Hpos | | exact Hval].
    rewrite Etext. discriminate.
  - apply json_parse_member_string; assumption.
Qed.

(** X17 at a concrete call: the parameters, with a nested object and an
    escaped string in it. *)
Lemma json_parse_member_witness :
  json_parse
    (json_text "{'id':7,'method':'add','params':[2,{'k':['a\nb',null]}]}")
    "params" 0
  = Some (json_text "[2,{'k':['a\nb',null]}]").
Proof.
  exact (proj2 (json_parse_member
                  [(bytes "id", JLiteral (bytes "7"));
                   (bytes "method", JString (bytes "add"));
                   (bytes "params",
                    JArray [JLiteral (bytes "2");
                            JObject [(bytes "k",
                                      JArray [JString (bytes "a\nb");
                                              JLiteral (bytes "null")])]])]
                  (bytes "params") _ 0 eq_refl ltac:(discriminate) eq_refl
                  ltac:(vm_compute; reflexivity))).
Defined.

Lemma json_parse_no_member_string (members : list (buffer * json_value))
    (keyb tail : buffer) :
  well_formed (JObject members) = true → keyb ≠ [] →
  member keyb members = None → Z.of_nat (length keyb) < 2 ^ 64 - 1 →
  Z.of_nat (length (value_text (JObject members))) < 2 ^ 31 →
  json_parse_c (value_text (JObject members) ++ tail)
    (Z.of_nat (length (value_text (JObject members))))
    (Some (keyb ++ [NUL])) (Z.of_nat (length keyb))
  = Some (ParseResult (-1) None 0).
Proof.
  intros Hwf Hne Hmember Hkmax Hmax.
  pose proof (scans_object (value_text (JObject members) ++ tail) keyb [NUL]
                members Hne Hwf (holds_at_whole _ _) Hmax) as Hscan.
  rewrite Hmember in Hscan. destruct Hscan as [n Hn].
  apply (json_scan_returns n); [| |exact Hn].
  - rewrite length_app. lia.
  - cbn. rewrite length_app. cbn [length]. lia.
Qed.

(** X18: a key that no member has. On a well-formed object text without
    white space, shorter than [2 ^ 31] bytes, the search for a non-empty
    key that is the key of none of its members, nested objects apart,
    fails: [json_parse_c] returns the failure code with a null span and
    [json_parse] returns the empty string. *)
Theorem json_parse_no_member (members : list (buffer * json_value))
    (keyb : buffer) (index : Z) :
  well_formed (JObject members) = true → keyb ≠ [] →
  member keyb members = None → Z.of_nat (length keyb) < 2 ^ 64 - 1 →
  Z.of_nat (length (value_text (JObject members))) < 2 ^ 31 →
  let m := value_text (JObject members) in
  json_parse_c m (Z.of_nat (length m)) (Some (keyb ++ [NUL]))
    (Z.of_nat (length keyb))
  = Some (ParseResult (-1) None 0)
  ∧ json_parse (std_string m) (std_string keyb) index = Some "".
Proof.
  intros Hwf Hne Hmember Hkmax Hmax m. split.
  - pose proof (json_parse_no_member_string members keyb [] Hwf Hne Hmember
                  Hkmax Hmax) as Hparse.
    rewrite app_nil_r in Hparse. exact Hparse.
  - pose proof (json_parse_no_member_string members keyb [NUL] Hwf Hne
                  Hmember Hkmax Hmax) as Hparse.
    unfold json_parse.
    destruct (decide (std_string keyb = "")) as [Hempty|_];
      [exfalso; exact (std_string_not_empty keyb Hne Hempty)|].
    assert (Hc : c_str (std_string m) = m ++ [NUL]).
    { unfold c_str. rewrite bytes_std_string. reflexivity. }
    assert (Hlen : len (std_string m) = Z.of_nat (length m)).
    { rewrite <- length_bytes, bytes_std_string. reflexivity. }
    assert (Hck : c_str (std_string keyb) = keyb ++ [NUL]).
    { unfold c_str. rewrite bytes_std_string. reflexivity. }
    assert (Hklen : len (std_string keyb) = Z.of_nat (length keyb)).
    { rewrite <- length_bytes, bytes_std_string. reflexivity. }
    rewrite Hc, Hlen, Hck, Hklen. subst m. rewrite Hparse. reflexivity.
Qed.

(** X18 at a concrete object: the key of a nested member is not a key of
    the object. *)
Lemma json_parse_no_member_witness :
  json_parse (json_text "{'id':7,'params':{'method':'add'}}") "method" 0
  = Some "".
Proof.
  exact (proj2 (json_parse_no_member
                  [(bytes "id", JLiteral (bytes "7"));
                   (bytes "params",
                    JObject [(bytes "method", JString (bytes "add"))])]
                  (bytes "method") 0 eq_refl ltac:(discriminate) eq_refl
                  ltac:(vm_compute; reflexivity)
                  ltac:(vm_compute; reflexivity))).
Defined.

(** X19: a call as the injected script sends it reaches the function it
    names. For every well-formed object text without white space,
    shorter than [2 ^ 31] bytes, with members [id], [method] and
    [params] in any order and among any others, [on_message] calls the
    function bound to the decoded method, once, with the id and the
    parameters as they are written and with its bound argument; with no
    such binding it calls nothing. *)
Theorem on_message_call {binding_t void_ptr : Type}
    (members : list (buffer * json_value)) (id method params : json_value)
    (w : webview binding_t void_ptr) :
  well_formed (JObject members) = true →
  Z.of_nat (length (value_text (JObject members))) < 2 ^ 31 →
  member (bytes "id") members = Some id →
  member (bytes "method") members = Some method →
  member (bytes "params") members = Some params →
  on_message (std_string (value_text (JObject members))) w
  = Some (Webview (engine w) (bindings w)
            (invoked w ++
             match bindings w !! std_string (value_string method) with
             | Some fn =>
                 [Invocation (fst fn) (std_string (value_string id))
                    (std_string (value_string params)) (snd fn)]
             | None => []
             end)).
Proof.
  intros Hwf Hmax Hid Hmethod Hparams.
  apply on_message_decoded.
  - exact (json_parse_member_string members (bytes "id") id 0 Hwf
             ltac:(discriminate) Hid Hmax).
  - exact (json_parse_member_string members (bytes "method") method 0 Hwf
             ltac:(discriminate) Hmethod Hmax).
  - exact (json_parse_member_string members (bytes "params") params 0 Hwf
             ltac:(discriminate) Hparams Hmax).
Qed.

(** X19 at a concrete call of a bound function. *)
Lemma on_message_call_witness :
  let w : webview nat Z := bind "add" 7%nat 99 webview_create in
  on_message (json_text "{'id':12,'method':'add','params':[2,'x\ty']}") w
  = Some (Webview (engine w) (bindings w)
            [Invocation 7%nat "12" (json_text "[2,'x\ty']") 99]).
Proof.
  cbn zeta.
  pose proof (on_message_call
                [(bytes "id", JLiteral (bytes "12"));
                 (bytes "method", JString (bytes "add"));
                 (bytes "params",
                  JArray [JLiteral (bytes "2"); JString (bytes "x\ty")])]
                _ _ _ (bind "add" 7%nat 99 (@webview_create nat Z))
                eq_refl ltac:(vm_compute; reflexivity) eq_refl eq_refl
                eq_refl) as Hcall.
  cbn [value_string unescaped default] in Hcall.
  change (std_string (default [] (unescaped (bytes "add")))) with "add"
    in Hcall.
  cbn [bind with_engine bindings] in Hcall.
  rewrite lookup_insert_eq in Hcall. exact Hcall.
Defined.

(** ** Malformed input, by its text *)


(** *** Turns that may touch the locals of the search *)





(** *** The text before the malformed token *)




(** *** The malformed token *)












